(** * CurrentCircle: the handshake, data exchange and relay code, verified

    A shallow embedding of the CurrentCircle browser application
    (js/crypto.js, js/webrtc.js, js/db.js, js/connect.js and the [App]
    module of js/ui.js) and the properties its specification states.

    Conventions of the embedding.
    - A JavaScript value read from the outside (a scanned code, a payload
      field) is a [json] value; [None : option json] is [undefined].
    - Code that can throw lives in the result type [res]; code that also
      mutates module state lives in the monad [M] over the record [World],
      which gathers the module-level variables of [DB], [App], [Connect]
      and [WebRTC], the console and the environment (clock, uuid source,
      random source, transport).  Mutations made before a throw persist,
      as in JavaScript.
    - An [async] function runs to completion: an [await] is sequencing.
      Events of the transport that could be delivered at an [await] are
      separate calls.
    - The CryptoJS, JSON and Date built-ins are operations of a type
      class; the laws a theorem needs of them are its hypotheses. *)

From Stdlib Require Import ZArith String Ascii List Bool Lia.
From stdpp Require Import base option list sorting gmap strings.

Open Scope string_scope.
Set Warnings "-register-all".

(** ** Errors and results *)

(** What a [throw] carries: [new Error(msg)], a [TypeError] raised by the
    engine (a property read on [null] or [undefined]), a [SyntaxError] of
    [JSON.parse], or a [DOMException] of IndexedDB or WebRTC by its name. *)
Inductive Error : Type :=
| Err (msg : string)
| TypeError (what : string)
| SyntaxError
| DOMException (name : string).

Inductive res (A : Type) : Type :=
| Ok (a : A)
| Throw (e : Error).
Arguments Ok {A} a.
Arguments Throw {A} e.

Definition res_bind {A B : Type} (r : res A) (k : A → res B) : res B :=
  match r with
  | Ok a => k a
  | Throw e => Throw e
  end.

(** [try { body } catch (error) { handler }] for code without state. *)
Definition res_catch {A : Type} (body : res A) (handler : Error → res A) : res A :=
  match body with
  | Ok a => Ok a
  | Throw e => handler e
  end.

(** ** JavaScript values *)

Inductive json : Type :=
| JNull
| JBool (b : bool)
| JNum (n : Z)
| JStr (s : string)
| JArr (items : list json)
| JObj (fields : list (string * json)).

Module Js.

(** ToBoolean. *)
Definition truthy (v : option json) : bool :=
  match v with
  | None | Some JNull => false
  | Some (JBool b) => b
  | Some (JNum n) => negb (n =? 0)%Z
  | Some (JStr s) => negb (s =? "")
  | Some (JArr _) | Some (JObj _) => true
  end.

(** [a === b].  Two objects or arrays are identical only when they are the
    same reference; every use below compares against a value of a freshly
    parsed payload, so they never are. *)
Definition strict_eq (a b : option json) : bool :=
  match a, b with
  | None, None => true
  | Some JNull, Some JNull => true
  | Some (JBool x), Some (JBool y) => Bool.eqb x y
  | Some (JNum x), Some (JNum y) => (x =? y)%Z
  | Some (JStr x), Some (JStr y) => (x =? y)
  | _, _ => false
  end.

Fixpoint assoc (k : string) (fs : list (string * json)) : option json :=
  match fs with
  | [] => None
  | (k', v) :: fs' => if (k =? k') then Some v else assoc k fs'
  end.

(** [v.k]: a [TypeError] on [null] and [undefined], the own property of
    an object, [undefined] otherwise. *)
Definition prop (v : option json) (k : string) : res (option json) :=
  match v with
  | None => Throw (TypeError ("Cannot read properties of undefined (reading '" ++ k ++ "')"))
  | Some JNull => Throw (TypeError ("Cannot read properties of null (reading '" ++ k ++ "')"))
  | Some (JObj fs) => Ok (assoc k fs)
  | Some _ => Ok None
  end.

(** [v.length] *)
Definition length_of (v : option json) : res (option json) :=
  match v with
  | Some (JArr l) => Ok (Some (JNum (Z.of_nat (List.length l))))
  | Some (JStr s) => Ok (Some (JNum (Z.of_nat (String.length s))))
  | _ => prop v "length"
  end.

(** [obj.k = v] on an object; the property keeps its place when it is
    already there. *)
Fixpoint set_assoc (k : string) (v : json) (fs : list (string * json)) : list (string * json) :=
  match fs with
  | [] => [(k, v)]
  | (k', v') :: fs' => if (k =? k') then (k, v) :: fs' else (k', v') :: set_assoc k v fs'
  end.

(** A string-valued field of a typed record: the string, or absent.
    The typed records below ([Connection], [Message], ...) hold strings;
    a payload value of another type counts as absent there. *)
Definition str (v : option json) : option string :=
  match v with
  | Some (JStr s) => Some s
  | _ => None
  end.

(** ToBoolean and [a || b] on optional strings. *)
Definition truthy_str (v : option string) : bool :=
  match v with
  | Some s => negb (s =? "")
  | None => false
  end.

Definition or_else (a b : option string) : option string :=
  if truthy_str a then a else b.


End Js.

(** ** The built-ins the code calls *)

(** CryptoJS.  [AES_encrypt salt message passphrase] is
    [CryptoJS.AES.encrypt(message, passphrase).toString()], [salt] being
    the random salt the call draws; [AES_decrypt_utf8 c passphrase] is
    [CryptoJS.AES.decrypt(c, passphrase).toString(CryptoJS.enc.Utf8)],
    which throws on bytes that are not UTF-8; [SHA256_hex s] is
    [CryptoJS.SHA256(s).toString()]. *)
Class CryptoJS : Type := {
  ciphertext : Type;
  AES_encrypt : string → string → string → ciphertext;
  AES_decrypt_utf8 : ciphertext → string → res string;
  SHA256_hex : string → string
}.

(** [JSON.parse] (a [SyntaxError] on text that is not JSON) and
    [JSON.stringify]. *)
Class JSON : Type := {
  JSON_parse : string → res json;
  JSON_stringify : json → string
}.

(** [Date]: instants are milliseconds since the epoch.  [toISOString] is
    the ISO rendering and [setFullYear_next t] is the instant of
    [d = new Date(t); d.setFullYear(d.getFullYear() + 1)]. *)
Class DateLib : Type := {
  toISOString : Z → string;
  setFullYear_next : Z → Z
}.

(** [HmacSHA256_hex message key] is
    [CryptoJS.HmacSHA256(message, key).toString()]. *)
Class HmacJS : Type := {
  HmacSHA256_hex : string → string → string
}.

(** The laws of the built-ins, each a hypothesis of the theorems that
    need it. *)
Section laws.
Context `{CryptoJS} `{JSON}.

(** Decrypting under the passphrase of the encryption gives the text. *)
Definition AES_correct : Prop :=
  ∀ salt m k, AES_decrypt_utf8 (AES_encrypt salt m k) k = Ok m.

(** A cipher keyed by its passphrase: no other passphrase gives the text. *)
Definition AES_keyed : Prop :=
  ∀ salt m k k', k ≠ k' → AES_decrypt_utf8 (AES_encrypt salt m k) k' ≠ Ok m.

(** What another passphrase decrypts to, when it is text at all, is not
    JSON. *)
Definition AES_wrong_key_garbles : Prop :=
  ∀ salt m k k' s, k ≠ k' →
    AES_decrypt_utf8 (AES_encrypt salt m k) k' = Ok s →
    ∃ e, JSON_parse s = Throw e.

End laws.

(** A keyed hash: another key gives another code. *)
Definition Hmac_keyed `{HmacJS} : Prop :=
  ∀ m k k', k ≠ k' → HmacSHA256_hex m k ≠ HmacSHA256_hex m k'.

(** ** Records of the application *)

Record Identity : Type := mkIdentity {
  did : string;
  publicKey : string;
  privateKey : string;
  created : string
}.

Record KeyPair : Type := mkKeyPair {
  kp_publicKey : string;
  kp_privateKey : string
}.

Section records.
Context `{CryptoJS}.

(** A record of the [connections] store.  Timestamps are instants; the
    ISO strings the code stores encode them one to one. *)
Record Connection : Type := mkConnection {
  conn_id : string;
  conn_did : string;
  conn_publicKey : option string;
  conn_firstName : option string;
  conn_lastName : option string;
  conn_nickname : option string;
  conn_bio : option string;
  conn_profilePicture : option string;
  conn_firstConnected : Z;
  conn_lastConnected : Z;
  conn_expiresOn : Z;
  conn_connectionCount : Z;
  conn_backupData : ciphertext
}.

(** A record of the [messages] store; [msg_content = None] is a [content]
    that is [null] or missing, [msg_encrypted = None] an [encrypted] that
    is missing. *)
Record Message : Type := mkMessage {
  msg_id : string;
  msg_senderId : option string;
  msg_senderName : option string;
  msg_recipientId : option string;
  msg_recipientName : option string;
  msg_content : option string;
  msg_encrypted : option ciphertext;
  msg_timestamp : Z;
  msg_status : string;
  msg_isRelay : bool
}.

(** A record of the [relays] store. *)
Record Relay : Type := mkRelay {
  relay_id : string;
  relay_messageId : string;
  relay_originalSenderId : string;
  relay_originalSenderName : string;
  relay_targetRecipientId : string;
  relay_targetRecipientName : string;
  relay_encryptedContent : ciphertext;
  relay_timestamp : Z;
  relay_status : string
}.

(** The local user's profile. *)
Record Profile : Type := mkProfile {
  profile_id : string;
  firstName : string;
  lastName : string;
  nickname : option string;
  bio : option string;
  profilePicture : option string;
  profile_identity : Identity;
  profile_created : Z;
  profile_updated : Z
}.

(** The [profile] object of a payload. *)
Record PeerProfile : Type := mkPeerProfile {
  peer_firstName : option string;
  peer_lastName : option string;
  peer_nickname : option string;
  peer_bio : option string
}.

(** The argument of [App.addConnection]. *)
Record ConnectionData : Type := mkConnectionData {
  cd_did : option string;
  cd_publicKey : option string;
  cd_profile : option PeerProfile;
  cd_profilePicture : option string
}.

(** The [profile] object of the [profile] message, which also carries the
    sender's [did] and [publicKey]. *)
Record ProfileMsg : Type := mkProfileMsg {
  pm_profile : PeerProfile;
  pm_did : option string;
  pm_publicKey : option string
}.

(** An element of [data.relays] as [App.processReceivedData] reads it. *)
Record InboundRelay : Type := mkInboundRelay {
  ir_id : option string;
  ir_senderId : option string;
  ir_senderName : option string;
  ir_encrypted : option ciphertext;
  ir_timestamp : option Z
}.

(** An element of the [connections] message. *)
Record ConnectionSummary : Type := mkConnectionSummary {
  cs_firstName : option string;
  cs_lastName : option string;
  cs_did : string
}.

(** A message of the data channel, by its [type]; [DAck] is an
    acknowledgement ([profile_ack], [connections_ack], ...), which no
    branch of [handleDataReceived] handles. *)
Inductive DataMsg : Type :=
| DProfile (profile : ProfileMsg) (picture : option string) (timestamp : Z)
| DConnections (connections : list ConnectionSummary) (timestamp : Z)
| DMessages (messages : list Message) (timestamp : Z)
| DRelays (relays : list Relay) (timestamp : Z)
| DComplete (timestamp : Z)
| DAck (type : string) (count : option nat) (timestamp : Z).

Definition msg_type (d : DataMsg) : string :=
  match d with
  | DProfile _ _ _ => "profile"
  | DConnections _ _ => "connections"
  | DMessages _ _ => "messages"
  | DRelays _ _ => "relays"
  | DComplete _ => "complete"
  | DAck type _ _ => type
  end.

(** The argument of [App.processReceivedData]. *)
Record ReceivedData : Type := mkReceivedData {
  rd_profile : option ProfileMsg;
  rd_profilePicture : option string;
  rd_connections : option (list ConnectionSummary);
  rd_messages : option (list Message);
  rd_relays : option (list InboundRelay)
}.

End records.

(** ** js/crypto.js *)

Module Crypto.
Section Crypto.
Context `{CryptoJS} `{JSON} `{DateLib}.

Definition SALT : string := "CurrentCircle_v1_".

(** [random] is [CryptoJS.lib.WordArray.random(32).toString()]. *)
Definition generateKeyPair (random : string) : KeyPair :=
  let privateKey := random in
  let publicKey := SHA256_hex privateKey in
  {| kp_publicKey := publicKey; kp_privateKey := privateKey |}.

Definition encryptMessage (salt : string) (message key : string) : ciphertext :=
  AES_encrypt salt message key.

(** [CryptoJS.AES.decrypt(c, key).toString(CryptoJS.enc.Utf8)] on a value
    that may be [undefined]: CryptoJS then reads a property of it. *)
Definition AES_decrypt_value (c : option ciphertext) (key : string) : res string :=
  match c with
  | Some c => AES_decrypt_utf8 c key
  | None => Throw (TypeError "Cannot read properties of undefined (reading 'salt')")
  end.

(** [null] is [None]. *)
Definition decryptMessage (encryptedMessage : option ciphertext) (key : string) : res (option string) :=
  res_catch
    (res_bind (AES_decrypt_value encryptedMessage key) (λ decrypted, Ok (Some decrypted)))
    (λ _, Ok None).

(** The object [JSON.stringify(identity)] serialises. *)
Definition identity_json (i : Identity) : json :=
  JObj [("did", JStr (did i)); ("publicKey", JStr (publicKey i));
        ("privateKey", JStr (privateKey i)); ("created", JStr (created i))].

(** The object an imported identity is read from. *)
Definition read_identity (j : json) : option Identity :=
  match Js.str (Js.assoc "did" (match j with JObj fs => fs | _ => [] end)),
        Js.str (Js.assoc "publicKey" (match j with JObj fs => fs | _ => [] end)),
        Js.str (Js.assoc "privateKey" (match j with JObj fs => fs | _ => [] end)),
        Js.str (Js.assoc "created" (match j with JObj fs => fs | _ => [] end)) with
  | Some d, Some pk, Some sk, Some c => Some (mkIdentity d pk sk c)
  | _, _, _, _ => None
  end.

Definition exportIdentity (salt : string) (identity : Identity) (password : string) : ciphertext :=
  let identityString := JSON_stringify (identity_json identity) in
  AES_encrypt salt identityString (SALT ++ password).

(** [null] is [JNull]. *)
Definition importIdentity (encryptedIdentity : ciphertext) (password : string) : res json :=
  res_catch
    (res_bind (AES_decrypt_utf8 encryptedIdentity (SALT ++ password)) JSON_parse)
    (λ _, Ok JNull).

(** The object [createBackupData] serialises; a property whose value is
    [undefined] is left out, as [JSON.stringify] does. *)
Definition backup_json (profile : Profile) (identity : Identity) (now : Z) : json :=
  let field k (v : option string) :=
    match v with Some s => [(k, JStr s)] | None => [] end in
  JObj [("profile",
         JObj ([("id", JStr (profile_id profile));
                ("firstName", JStr (firstName profile));
                ("lastName", JStr (lastName profile))]
               ++ field "nickname" (nickname profile)
               ++ field "bio" (bio profile)));
        ("identity",
         JObj [("did", JStr (did identity));
               ("publicKey", JStr (publicKey identity));
               ("privateKey", JStr (privateKey identity));
               ("created", JStr (created identity))]);
        ("backupDate", JStr (toISOString now))].

(** [now] is the instant [new Date()] reads, [salt] the salt the
    encryption draws. *)
Definition createBackupData (now : Z) (salt : string) (profile : Profile) (identity : Identity) : ciphertext :=
  encryptMessage salt (JSON_stringify (backup_json profile identity now)) (publicKey identity).


(** *** Identities, signatures, codes and backups *)

Context `{HmacJS}.

(** [uuid] is what [uuid.v4()] gives. *)
Definition generateDID (uuid : string) : string := "did:cc:" ++ uuid.

(** [random] is the random word array as text, [uuid] what [uuid.v4()]
    gives when it is asked (for a [did] that is missing or empty), [now]
    the instant [new Date()] reads. *)
Definition createIdentity (did : option string) (random uuid : string) (now : Z) : Identity :=
  let keyPair := generateKeyPair random in
  {| did := match Js.or_else did None with
            | Some did => did
            | None => generateDID uuid
            end;
     publicKey := kp_publicKey keyPair;
     privateKey := kp_privateKey keyPair;
     created := toISOString now |}.

Definition verifyDID (did publicKey challenge signature : string) : bool :=
  let expectedSignature := HmacSHA256_hex challenge publicKey in
  (signature =? expectedSignature).

Definition signChallenge (challenge privateKey : string) : string :=
  HmacSHA256_hex challenge privateKey.

Definition hashData (data : string) : string := SHA256_hex data.

(** [JSON.parse] turns its argument into a string first: [null] is read
    as the text [null]. *)
Definition decryptBackupData (encryptedBackup : option ciphertext) (privateKey : string) : res json :=
  res_catch
    (res_bind (decryptMessage encryptedBackup privateKey)
              (λ decrypted, JSON_parse (default "null" decrypted)))
    (λ _, Ok JNull).

(** The object [createConnectionQRData] serialises. *)
Definition connection_qr_json (profile : Profile) (identity : Identity) (now : Z) : json :=
  let field k (v : option string) :=
    match v with Some s => [(k, JStr s)] | None => [] end in
  JObj [("type", JStr "connection");
        ("did", JStr (did identity));
        ("publicKey", JStr (publicKey identity));
        ("profile",
         JObj ([("firstName", JStr (firstName profile));
                ("lastName", JStr (lastName profile))]
               ++ field "nickname" (nickname profile)
               ++ field "bio" (bio profile)
               ++ [("profilePicture", JBool (Js.truthy_str (profilePicture profile)))]));
        ("timestamp", JStr (toISOString now))].

Definition createConnectionQRData (now : Z) (profile : Profile) (identity : Identity) : string :=
  JSON_stringify (connection_qr_json profile identity now).

(** The serialiser of [URLSearchParams]: a byte that is a letter, a digit
    or one of [*-._] stands for itself, a space becomes [+], any other
    byte its code in hexadecimal.  A string is the sequence of its UTF-8
    bytes. *)
Definition form_byte (c : ascii) : string :=
  let n := N_of_ascii c in
  if ((48 <=? n) && (n <=? 57) || (65 <=? n) && (n <=? 90) || (97 <=? n) && (n <=? 122)
      || (n =? 42) || (n =? 45) || (n =? 46) || (n =? 95))%N
  then String c ""
  else if (n =? 32)%N then "+"
  else let hex d := ascii_of_N (if (d <? 10)%N then 48 + d else 55 + d) in
       String "%" (String (hex (n / 16)%N) (String (hex (n mod 16)%N) "")).

Fixpoint form_encode (s : string) : string :=
  match s with
  | "" => ""
  | String c r => form_byte c ++ form_encode r
  end.

Fixpoint form_urlencoded (params : list (string * string)) : string :=
  match params with
  | [] => ""
  | [(k, v)] => form_encode k ++ "=" ++ form_encode v
  | (k, v) :: rest => form_encode k ++ "=" ++ form_encode v ++ "&" ++ form_urlencoded rest
  end.

(** [origin] is [window.location.origin]. *)
Definition createOnboardingQRData (origin : string) (profile : Profile) (identity : Identity) : string :=
  let baseUrl := origin in
  let params :=
    [("type", "onboarding");
     ("did", did identity);
     ("pubKey", publicKey identity);
     ("name", firstName profile ++ " " ++ lastName profile);
     ("referrer", profile_id profile)] in
  baseUrl ++ "?" ++ form_urlencoded params.

End Crypto.
End Crypto.


(** ** The state the modules share *)

(** The stages of [Connect]. *)
Inductive Stage : Type :=
| INIT | OFFER_CREATED | SCANNING | OFFER_SCANNED | ANSWER_CREATED
| ANSWER_SCANNED | CONNECTED | EXCHANGING | COMPLETE | FAILED.

#[global] Instance Stage_eq_dec : EqDecision Stage.
Proof. solve_decision. Defined.

(** What the code reads from outside itself, as functions of how often it
    has asked: the clock ([new Date()]), [uuid.v4()], the salt of an
    encryption, whether the data channel is open at a [sendData] and
    whether its [dataChannel.send] returns rather than throws, and whether
    the peer connection accepts a remote description. *)
Record Env : Type := mkEnv {
  clock : nat → Z;
  uuid_v4 : nat → string;
  random_salt : nat → string;
  channel_open : nat → bool;
  send_succeeds : nat → bool;
  rtc_accepts : option json → bool
}.

(** How often each source has been asked. *)
Record Draws : Type := mkDraws {
  n_clock : nat;
  n_uuid : nat;
  n_salt : nat;
  n_send : nat
}.

Section state.
Context `{CryptoJS}.

(** js/db.js: [db] and the object stores, each keyed by [id]. *)
Record DBState : Type := mkDB {
  db_open : bool;
  store_connections : gmap string Connection;
  store_messages : gmap string Message;
  store_relays : gmap string Relay
}.

(** [App]'s [state]; [state.messages.received] is [messages_received]. *)
Record AppState : Type := mkApp {
  initialized : bool;
  profile : option Profile;
  identity : option Identity;
  connections : list Connection;
  messages_received : list Message;
  messages_sent : list Message;
  messages_relays : list Relay
}.

(** [Connect]'s variables.  [stage_history] is a ghost field: the stages
    [connectionStage] has been assigned, the latest last. *)
Record ConnectState : Type := mkConnect {
  scannerActive : bool;
  scannerStream : bool;
  qrCheckInterval : bool;
  connectionStage : Stage;
  stage_history : list Stage;
  connectionData : option json;
  localDescription : option json;
  remoteDescription : option json;
  answerQrCode : option json
}.

(** [WebRTC]'s variables and what went out on the data channel, the
    latest last. *)
Record RtcState : Type := mkRtc {
  peerConnection : bool;
  sent : list DataMsg
}.

(** What the user sees: [console.error], [alert], the instructions line,
    the confirmation dialog's payload and [window.location.href]. *)
Record UiState : Type := mkUi {
  console_errors : list (string * Error);
  alerts : list string;
  instructions : option string;
  confirmation : option json;
  location_href : option string
}.

Record World : Type := mkWorld {
  env : Env;
  draws : Draws;
  db : DBState;
  state : AppState;
  connect : ConnectState;
  rtc : RtcState;
  ui : UiState
}.

Definition with_draws (f : Draws → Draws) (w : World) : World :=
  mkWorld (env w) (f (draws w)) (db w) (state w) (connect w) (rtc w) (ui w).
Definition with_db (f : DBState → DBState) (w : World) : World :=
  mkWorld (env w) (draws w) (f (db w)) (state w) (connect w) (rtc w) (ui w).
Definition with_state (f : AppState → AppState) (w : World) : World :=
  mkWorld (env w) (draws w) (db w) (f (state w)) (connect w) (rtc w) (ui w).
Definition with_connect (f : ConnectState → ConnectState) (w : World) : World :=
  mkWorld (env w) (draws w) (db w) (state w) (f (connect w)) (rtc w) (ui w).
Definition with_rtc (f : RtcState → RtcState) (w : World) : World :=
  mkWorld (env w) (draws w) (db w) (state w) (connect w) (f (rtc w)) (ui w).
Definition with_ui (f : UiState → UiState) (w : World) : World :=
  mkWorld (env w) (draws w) (db w) (state w) (connect w) (rtc w) (f (ui w)).

(** *** The monad of stateful code that may throw *)

Definition M (A : Type) : Type := World → res A * World.

Definition ret {A : Type} (a : A) : M A := λ w, (Ok a, w).
Definition throw {A : Type} (e : Error) : M A := λ w, (Throw e, w).
Definition bind {A B : Type} (m : M A) (k : A → M B) : M B :=
  λ w, match m w with
       | (Ok a, w') => k a w'
       | (Throw e, w') => (Throw e, w')
       end.
(** [try { body } catch (error) { handler }] *)
Definition try_catch {A : Type} (body : M A) (handler : Error → M A) : M A :=
  λ w, match body w with
       | (Ok a, w') => (Ok a, w')
       | (Throw e, w') => handler e w'
       end.
Definition lift {A : Type} (r : res A) : M A := λ w, (r, w).
Definition get_world : M World := λ w, (Ok w, w).
Definition modify (f : World → World) : M unit := λ w, (Ok tt, f w).

End state.

Declare Scope M_scope.
Delimit Scope M_scope with M.
Notation "x <- m ;; k" := (bind m (λ x, k))
  (at level 100, m at next level, right associativity) : M_scope.
Notation "m ;; k" := (bind m (λ _, k))
  (at level 100, right associativity) : M_scope.

Open Scope M_scope.

(** ** The environment, the console and the stage *)

Section effects.
Context `{CryptoJS}.

(** [new Date()] *)
Definition new_Date : M Z :=
  λ w, (Ok (clock (env w) (n_clock (draws w))),
        with_draws (λ d, mkDraws (S (n_clock d)) (n_uuid d) (n_salt d) (n_send d)) w).

(** [uuid.v4()] *)
Definition uuid_v4_call : M string :=
  λ w, (Ok (uuid_v4 (env w) (n_uuid (draws w))),
        with_draws (λ d, mkDraws (n_clock d) (S (n_uuid d)) (n_salt d) (n_send d)) w).

(** The salt an encryption draws. *)
Definition draw_salt : M string :=
  λ w, (Ok (random_salt (env w) (n_salt (draws w))),
        with_draws (λ d, mkDraws (n_clock d) (n_uuid d) (S (n_salt d)) (n_send d)) w).

(** [console.error(label, error)] *)
Definition console_error (label : string) (e : Error) : M unit :=
  modify (with_ui (λ u, mkUi (console_errors u ++ [(label, e)]) (alerts u)
                             (instructions u) (confirmation u) (location_href u))).

(** [alert(message)] *)
Definition alert (message : string) : M unit :=
  modify (with_ui (λ u, mkUi (console_errors u) (alerts u ++ [message])
                             (instructions u) (confirmation u) (location_href u))).

(** [connectionStage = stage] *)
Definition set_stage (stage : Stage) : M unit :=
  modify (with_connect (λ c,
    mkConnect (scannerActive c) (scannerStream c) (qrCheckInterval c)
              stage (stage_history c ++ [stage])
              (connectionData c) (localDescription c) (remoteDescription c)
              (answerQrCode c))).

Definition get_stage : M Stage := λ w, (Ok (connectionStage (connect w)), w).

End effects.

(** ** js/db.js *)

Module DB.
Section DB.
Context `{CryptoJS}.

(** [transaction(storeName, mode, callback)]: rejects when [db] is not
    set, and when the request of [callback] fails. *)
Definition transaction {A : Type} (callback : DBState → res (A * DBState)) : M A :=
  λ w, if db_open (db w)
       then match callback (db w) with
            | Ok (a, d) => (Ok a, with_db (λ _, d) w)
            | Throw e => (Throw e, w)
            end
       else (Throw (Err "Database not initialized"), w).

(** The [did] index of the [connections] store is unique: a [put] whose
    [did] another record (another [id]) holds fails. *)
Definition did_free (connection : Connection) (store : gmap string Connection) : Prop :=
  map_Forall (λ k c, conn_did c = conn_did connection → k = conn_id connection) store.

(** What IndexedDB keeps true of the [connections] store: a record sits
    under its own [id] (the key path), and no two records share a [did]
    (the unique index). *)
Definition store_keyed (store : gmap string Connection) : Prop :=
  ∀ k c, store !! k = Some c → conn_id c = k.

Definition did_unique (store : gmap string Connection) : Prop :=
  ∀ k1 k2 c1 c2, store !! k1 = Some c1 → store !! k2 = Some c2 →
    conn_did c1 = conn_did c2 → k1 = k2.

#[global] Instance did_free_dec connection store : Decision (did_free connection store).
Proof. unfold did_free. apply _. Defined.

Definition saveConnection (connection : Connection) : M unit :=
  transaction (λ d,
    if bool_decide (did_free connection (store_connections d))
    then Ok (tt, mkDB (db_open d) (<[conn_id connection := connection]> (store_connections d))
                      (store_messages d) (store_relays d))
    else Throw (DOMException "ConstraintError")).

(** [index.get(did)] on the [did] index: the record with that [did] (the
    index is unique, so there is at most one), [null] otherwise; a [did]
    that is no valid key is a [DataError]. *)
Definition getConnectionByDID (did : option string) : M (option Connection) :=
  transaction (λ d,
    match did with
    | Some did =>
        Ok ((λ r, r.2.2) <$> list_find (λ p : string * Connection, conn_did p.2 = did)
                                       (map_to_list (store_connections d)), d)
    | None => Throw (DOMException "DataError")
    end).

Definition saveMessage (message : Message) : M unit :=
  transaction (λ d,
    Ok (tt, mkDB (db_open d) (store_connections d)
                 (<[msg_id message := message]> (store_messages d)) (store_relays d))).

Definition saveRelay (relay : Relay) : M unit :=
  transaction (λ d,
    Ok (tt, mkDB (db_open d) (store_connections d) (store_messages d)
                 (<[relay_id relay := relay]> (store_relays d)))).

Definition deleteRelay (id : string) : M unit :=
  transaction (λ d,
    Ok (tt, mkDB (db_open d) (store_connections d) (store_messages d)
                 (delete id (store_relays d)))).


(** *** Reads and deletions *)

(** The order of two entries of a store: IndexedDB keeps the records of a
    store in the order of their keys, strings by their code units. *)
Definition key_le {A : Type} (a b : string * A) : Prop := String.leb a.1 b.1 = true.

#[global] Instance key_le_dec {A : Type} (a b : string * A) : Decision (key_le a b).
Proof. unfold key_le. apply _. Defined.

(** The records of a store as [getAll()] gives them, in key order. *)
Definition by_key {A : Type} (store : gmap string A) : list A :=
  (merge_sort key_le (map_to_list store)).*2.

Definition getAllConnections : M (list Connection) :=
  transaction (λ d, Ok (by_key (store_connections d), d)).

(** [store.get(id)]: the record, [null] when there is none. *)
Definition getConnection (id : string) : M (option Connection) :=
  transaction (λ d, Ok (store_connections d !! id, d)).

Definition deleteConnection (id : string) : M unit :=
  transaction (λ d,
    Ok (tt, mkDB (db_open d) (delete id (store_connections d))
                 (store_messages d) (store_relays d))).

(** The clock is read once, after the records have been fetched; a
    record that expires at that very instant is not expired. *)
Definition getExpiredConnections : M (list Connection) :=
  connections <- getAllConnections ;;
  now <- new_Date ;;
  ret (filter (λ conn, (conn_expiresOn conn < now)%Z) connections).

Definition getAllMessages : M (list Message) :=
  transaction (λ d, Ok (by_key (store_messages d), d)).

(** [index.getAll(recipientId)] on the [recipientId] index: the records
    whose [recipientId] is the given string, in key order; a record
    without one is not in the index. *)
Definition getReceivedMessages (recipientId : string) : M (list Message) :=
  transaction (λ d,
    Ok (filter (λ m, msg_recipientId m = Some recipientId) (by_key (store_messages d)), d)).

Definition getSentMessages (senderId : string) : M (list Message) :=
  transaction (λ d,
    Ok (filter (λ m, msg_senderId m = Some senderId) (by_key (store_messages d)), d)).

Definition getAllRelays : M (list Relay) :=
  transaction (λ d, Ok (by_key (store_relays d), d)).

Definition getRelaysForRecipient (targetRecipientId : string) : M (list Relay) :=
  transaction (λ d,
    Ok (filter (λ r, relay_targetRecipientId r = targetRecipientId) (by_key (store_relays d)), d)).

End DB.
End DB.

(** ** js/webrtc.js *)

Module WebRTC.
Section WebRTC.
Context `{CryptoJS}.

(** [sendData(data)]: [false] without a send when the channel is not
    open, [false] when [dataChannel.send] throws, [true] once sent.  The
    first [console.error] has a message and no error object: the entry's
    error is the empty [Err]. *)
Definition sendData (data : DataMsg) : M bool :=
  λ w,
    let i := n_send (draws w) in
    let w1 := with_draws (λ d, mkDraws (n_clock d) (n_uuid d) (n_salt d) (S (n_send d))) w in
    if negb (channel_open (env w) i)
    then (console_error "Data channel not open" (Err "") ;; ret false) w1
    else if send_succeeds (env w) i
         then (Ok true, with_rtc (λ r, mkRtc (peerConnection r) (sent r ++ [data])) w1)
         else (console_error "Error sending data:" (DOMException "OperationError") ;; ret false) w1.

(** [completeConnection(remoteAnswer)]: the [try] body throws when there
    is no peer connection, when [remoteAnswer] is [null] or [undefined]
    and when [setRemoteDescription] rejects; an ICE candidate that cannot
    be added is logged only. *)
Definition completeConnection (remoteAnswer : option json) : M bool :=
  try_catch
    (w <- get_world ;;
     (if peerConnection (rtc w) then ret tt
      else throw (Err "Peer connection not initialized")) ;;
     _ <- lift (Js.prop remoteAnswer "type") ;;
     _ <- lift (Js.prop remoteAnswer "sdp") ;;
     (if rtc_accepts (env w) remoteAnswer then ret tt
      else throw (DOMException "InvalidAccessError")) ;;
     ret true)
    (λ error, console_error "Error completing connection:" error ;; throw error).

(** [closeConnection()], that is [resetConnection()]: closes the channel
    and the peer connection and reports [disconnected] to the callback
    [init] registered. *)
Definition closeConnection (onConnectionStateChange : string → M unit) : M unit :=
  modify (with_rtc (λ r, mkRtc false (sent r))) ;;
  onConnectionStateChange "disconnected".


(** *** Offers and answers *)

Context `{JSON}.

(** The session description [{type, sdp}] the module hands out. *)
Definition description (type sdp : string) : json :=
  JObj [("type", JStr type); ("sdp", JStr sdp)].

(** What the browser does in one call that builds a local description:
    [creates] is the type and the sdp of [peerConnection.localDescription]
    once [createOffer] or [createAnswer] and [setLocalDescription] have
    resolved, or the error one of them rejects with; [takes_candidate]
    tells whether [addIceCandidate] resolves. *)
Record Browser : Type := mkBrowser {
  creates : res (string * string);
  takes_candidate : bool
}.

(** [createPeerConnection(initiator)] *)
Definition createPeerConnection : M unit :=
  modify (with_rtc (λ r, mkRtc true (sent r))).

(** [initiateConnection()]; the callback is the one [init] registered. *)
Definition initiateConnection (onLocalDescriptionGenerated : json → M unit)
    (browser : Browser) : M json :=
  try_catch
    (createPeerConnection ;;
     created <- lift (creates browser) ;;
     let description := description created.1 created.2 in
     onLocalDescriptionGenerated description ;;
     ret description)
    (λ error, console_error "Error initiating connection:" error ;; throw error).

(** The ICE candidate of a remote description, when it carries one: a
    candidate that does not parse, or that the browser does not take, is
    logged and the call goes on.  A candidate that is no string is no
    candidate the browser takes. *)
Definition add_candidate (browser : Browser) (candidate : option json) : M unit :=
  if Js.truthy candidate
  then try_catch
         (match candidate with
          | Some (JStr text) =>
              _ <- lift (JSON_parse text) ;;
              if takes_candidate browser then ret tt
              else throw (DOMException "OperationError")
          | _ => throw (TypeError "Failed to construct 'RTCIceCandidate'")
          end)
         (λ e, console_error "Error adding ICE candidate:" e)
  else ret tt.

Definition acceptConnection (onLocalDescriptionGenerated : json → M unit)
    (browser : Browser) (remoteDescription : option json) : M json :=
  try_catch
    (createPeerConnection ;;
     _ <- lift (Js.prop remoteDescription "type") ;;
     _ <- lift (Js.prop remoteDescription "sdp") ;;
     w <- get_world ;;
     (if rtc_accepts (env w) remoteDescription then ret tt
      else throw (DOMException "InvalidAccessError")) ;;
     candidate <- lift (Js.prop remoteDescription "candidate") ;;
     add_candidate browser candidate ;;
     created <- lift (creates browser) ;;
     let description := description created.1 created.2 in
     onLocalDescriptionGenerated description ;;
     ret description)
    (λ error, console_error "Error accepting connection:" error ;; throw error).

End WebRTC.
End WebRTC.

(** ** The [App] module of js/ui.js *)

Module App.
Section App.
Context `{CryptoJS} `{JSON} `{DateLib}.

(** The [UI.update...] calls redraw lists and counters from the state
    they are given and change nothing the code below reads. *)
Definition UI_update : M unit := ret tt.

(** [Crypto.createBackupData(state.profile, state.identity)]: reading a
    property of a [null] profile or identity is a [TypeError]. *)
Definition createBackupData_of_state : M ciphertext :=
  w <- get_world ;;
  match profile (state w), identity (state w) with
  | Some p, Some i =>
      now <- new_Date ;;
      salt <- draw_salt ;;
      ret (Crypto.createBackupData now salt p i)
  | None, _ => throw (TypeError "Cannot read properties of null (reading 'id')")
  | Some _, None => throw (TypeError "Cannot read properties of null (reading 'did')")
  end.

(** [connectionData.profile], whose fields are read next. *)
Definition profile_of (connectionData : ConnectionData) : M PeerProfile :=
  match cd_profile connectionData with
  | Some p => ret p
  | None => throw (TypeError "Cannot read properties of undefined (reading 'firstName')")
  end.

(** The [connection] object of [createNewConnection]. *)
Definition newConnection (id did : string) (connectionData : ConnectionData) (p : PeerProfile)
    (firstConnected lastConnected expiresOn : Z) (backupData : ciphertext) : Connection :=
  {| conn_id := id;
     conn_did := did;
     conn_publicKey := cd_publicKey connectionData;
     conn_firstName := peer_firstName p;
     conn_lastName := peer_lastName p;
     conn_nickname := peer_nickname p;
     conn_bio := peer_bio p;
     conn_profilePicture := Js.or_else (cd_profilePicture connectionData) None;
     conn_firstConnected := firstConnected;
     conn_lastConnected := lastConnected;
     conn_expiresOn := expiresOn;
     conn_connectionCount := 1;
     conn_backupData := backupData |}.

(** [state.connections.push(connection)] *)
Definition push_connection (connection : Connection) : M unit :=
  modify (with_state (λ a,
    mkApp (initialized a) (profile a) (identity a) (connections a ++ [connection])
          (messages_received a) (messages_sent a) (messages_relays a))).

(** [addConnection] has looked [connectionData.did] up in the [did] index
    before it calls this, so the did is a key here; without one the [put]
    of the typed record has nothing to index. *)
Definition createNewConnection (connectionData : ConnectionData) : M Connection :=
  now <- new_Date ;;
  let expiresOn := setFullYear_next now in
  id <- uuid_v4_call ;;
  p <- profile_of connectionData ;;
  firstConnected <- new_Date ;;
  lastConnected <- new_Date ;;
  backupData <- createBackupData_of_state ;;
  match cd_did connectionData with
  | None => throw (DOMException "DataError")
  | Some did =>
      let connection :=
        newConnection id did connectionData p firstConnected lastConnected expiresOn backupData in
      DB.saveConnection connection ;;
      push_connection connection ;;
      UI_update ;;
      ret connection
  end.

(** [state.connections[index] = updatedConnection] at the first index
    whose [id] is the updated one's, when there is one. *)
Definition replace_connection (updated : Connection) (l : list Connection) : list Connection :=
  match list_find (λ c, conn_id c = conn_id updated) l with
  | Some (index, _) => <[index := updated]> l
  | None => l
  end.

(** The [updatedConnection] object of [updateExistingConnection], the
    profile picture included: the spread of the existing record, then the
    fields the code names. *)
Definition updatedConnection (existingConnection : Connection) (newData : ConnectionData)
    (p : PeerProfile) (lastConnected expiresOn : Z) (backupData : ciphertext) : Connection :=
  {| conn_id := conn_id existingConnection;
     conn_did := conn_did existingConnection;
     conn_publicKey := Js.or_else (cd_publicKey newData) (conn_publicKey existingConnection);
     conn_firstName := Js.or_else (peer_firstName p) (conn_firstName existingConnection);
     conn_lastName := Js.or_else (peer_lastName p) (conn_lastName existingConnection);
     conn_nickname := Js.or_else (peer_nickname p) (conn_nickname existingConnection);
     conn_bio := Js.or_else (peer_bio p) (conn_bio existingConnection);
     conn_profilePicture :=
       if Js.truthy_str (cd_profilePicture newData)
       then cd_profilePicture newData
       else conn_profilePicture existingConnection;
     conn_firstConnected := conn_firstConnected existingConnection;
     conn_lastConnected := lastConnected;
     conn_expiresOn := expiresOn;
     conn_connectionCount := conn_connectionCount existingConnection + 1;
     conn_backupData := backupData |}.

(** The assignment at [index] in [updateExistingConnection]. *)
Definition store_updated (updated : Connection) : M unit :=
  modify (with_state (λ a,
    mkApp (initialized a) (profile a) (identity a)
          (replace_connection updated (connections a))
          (messages_received a) (messages_sent a) (messages_relays a))).

Definition updateExistingConnection (existingConnection : Connection) (newData : ConnectionData) : M Connection :=
  now <- new_Date ;;
  let expiresOn := setFullYear_next now in
  p <- profile_of newData ;;
  lastConnected <- new_Date ;;
  backupData <- createBackupData_of_state ;;
  let updatedConnection :=
    updatedConnection existingConnection newData p lastConnected expiresOn backupData in
  DB.saveConnection updatedConnection ;;
  store_updated updatedConnection ;;
  UI_update ;;
  ret updatedConnection.

Definition addConnection (connectionData : ConnectionData) : M Connection :=
  try_catch
    (existingConnection <- DB.getConnectionByDID (cd_did connectionData) ;;
     match existingConnection with
     | Some existingConnection => updateExistingConnection existingConnection connectionData
     | None => createNewConnection connectionData
     end)
    (λ error, console_error "Adding connection failed:" error ;; throw error).

(** [for (const x of xs) { body }] *)
Fixpoint for_of {A : Type} (xs : list A) (body : A → M unit) : M unit :=
  match xs with
  | [] => ret tt
  | x :: xs' => body x ;; for_of xs' body
  end.

(** [state.identity.privateKey] *)
Definition privateKey_of_state : M string :=
  w <- get_world ;;
  match identity (state w) with
  | Some i => ret (privateKey i)
  | None => throw (TypeError "Cannot read properties of null (reading 'privateKey')")
  end.

Definition set_content (content : option string) (m : Message) : Message :=
  mkMessage (msg_id m) (msg_senderId m) (msg_senderName m) (msg_recipientId m)
            (msg_recipientName m) content (msg_encrypted m) (msg_timestamp m)
            (msg_status m) (msg_isRelay m).

(** [state.messages.received.push(message)] *)
Definition push_received (message : Message) : M unit :=
  modify (with_state (λ a,
    mkApp (initialized a) (profile a) (identity a) (connections a)
          (messages_received a ++ [message]) (messages_sent a) (messages_relays a))).

(** One turn of the loop of [processReceivedMessages]. *)
Definition receive_message (message : Message) : M unit :=
  w <- get_world ;;
  let existingMessage :=
    list_find (λ m, msg_id m = msg_id message) (messages_received (state w)) in
  match existingMessage with
  | Some _ => ret tt
  | None =>
      key <- privateKey_of_state ;;
      content <- lift (Crypto.decryptMessage (msg_encrypted message) key) ;;
      let message := set_content content message in
      DB.saveMessage message ;;
      push_received message
  end.

Definition processReceivedMessages (messages : list Message) : M nat :=
  try_catch
    (for_of messages receive_message ;;
     UI_update ;;
     ret (List.length messages))
    (λ error, console_error "Processing received messages failed:" error ;; throw error).

(** [state.messages.relays = state.messages.relays.filter(r => r.id !== id)] *)
Definition drop_relay (id : string) : M unit :=
  modify (with_state (λ a,
    mkApp (initialized a) (profile a) (identity a) (connections a)
          (messages_received a) (messages_sent a)
          (filter (λ r, relay_id r ≠ id) (messages_relays a)))).

(** One turn of the loop of [processRelaysForConnection]; the message it
    builds is what the turn pushes on [deliveredRelays]. *)
Definition deliver_relay (relay : Relay) : M Message :=
  id <- uuid_v4_call ;;
  timestamp <- new_Date ;;
  let message :=
    {| msg_id := id;
       msg_senderId := Some (relay_originalSenderId relay);
       msg_senderName := Some (relay_originalSenderName relay);
       msg_recipientId := Some (relay_targetRecipientId relay);
       msg_recipientName := Some (relay_targetRecipientName relay);
       msg_content := None;
       msg_encrypted := Some (relay_encryptedContent relay);
       msg_timestamp := timestamp;
       msg_status := "delivered";
       msg_isRelay := true |} in
  DB.deleteRelay (relay_id relay) ;;
  drop_relay (relay_id relay) ;;
  ret message.

Fixpoint deliver_relays (relaysToDeliver : list Relay) : M (list Message) :=
  match relaysToDeliver with
  | [] => ret []
  | relay :: rest =>
      message <- deliver_relay relay ;;
      delivered <- deliver_relays rest ;;
      ret (message :: delivered)
  end.

Definition processRelaysForConnection (connection : Connection) : M (list Message) :=
  try_catch
    (w <- get_world ;;
     let relaysToDeliver :=
       filter (λ r, relay_targetRecipientId r = conn_did connection) (messages_relays (state w)) in
     if Nat.eqb (List.length relaysToDeliver) 0 then ret []
     else
       deliveredRelays <- deliver_relays relaysToDeliver ;;
       UI_update ;;
       ret deliveredRelays)
    (λ error, console_error "Processing relays failed:" error ;; throw error).

(** One turn of the relay loop of [processReceivedData]. *)
Definition receive_relay (relay : InboundRelay) : M unit :=
  id <- match ir_id relay with
        | Some id => if Js.truthy_str (Some id) then ret id else uuid_v4_call
        | None => uuid_v4_call
        end ;;
  w <- get_world ;;
  recipientId <- match identity (state w) with
                 | Some i => ret (did i)
                 | None => throw (TypeError "Cannot read properties of null (reading 'did')")
                 end ;;
  recipientName <- match profile (state w) with
                   | Some p => ret (firstName p ++ " " ++ lastName p)
                   | None => throw (TypeError "Cannot read properties of null (reading 'firstName')")
                   end ;;
  timestamp <- match ir_timestamp relay with
               | Some t => ret t
               | None => new_Date
               end ;;
  key <- privateKey_of_state ;;
  content <- lift (Crypto.decryptMessage (ir_encrypted relay) key) ;;
  let message :=
    {| msg_id := id;
       msg_senderId := ir_senderId relay;
       msg_senderName := ir_senderName relay;
       msg_recipientId := Some recipientId;
       msg_recipientName := Some recipientName;
       msg_content := content;
       msg_encrypted := ir_encrypted relay;
       msg_timestamp := timestamp;
       msg_status := "received";
       msg_isRelay := true |} in
  DB.saveMessage message ;;
  push_received message.

Definition processReceivedData (data : ReceivedData) : M bool :=
  try_catch
    (match rd_profile data with
     | Some pm =>
         if Js.truthy_str (pm_did pm)
         then addConnection
                {| cd_did := pm_did pm;
                   cd_publicKey := pm_publicKey pm;
                   cd_profile := Some (pm_profile pm);
                   cd_profilePicture := Js.or_else (rd_profilePicture data) None |} ;;
              ret tt
         else ret tt
     | None => ret tt
     end ;;
     match rd_messages data with
     | Some messages =>
         if Nat.ltb 0 (List.length messages)
         then processReceivedMessages messages ;; ret tt
         else ret tt
     | None => ret tt
     end ;;
     match rd_relays data with
     | Some relays =>
         if Nat.ltb 0 (List.length relays)
         then for_of relays receive_relay ;; UI_update
         else ret tt
     | None => ret tt
     end ;;
     ret true)
    (λ error, console_error "Processing received data failed:" error ;; throw error).

(** The payload of [processReceivedData] that carries relays only. *)
Definition relays_only (relays : list InboundRelay) : ReceivedData :=
  {| rd_profile := None;
     rd_profilePicture := None;
     rd_connections := None;
     rd_messages := None;
     rd_relays := Some relays |}.

(** [getState()]: a copy of [state]. *)
Definition getState : M AppState := λ w, (Ok (state w), w).


(** *** Loading, removing, expiring *)

(** [state.connections = connections] *)
Definition set_connections (connections : list Connection) : M unit :=
  modify (with_state (λ a,
    mkApp (initialized a) (profile a) (identity a) connections
          (messages_received a) (messages_sent a) (messages_relays a))).

Definition loadConnections : M (list Connection) :=
  try_catch
    (connections <- DB.getAllConnections ;;
     set_connections connections ;;
     ret connections)
    (λ error, console_error "Loading connections failed:" error ;; throw error).

(** [state.identity.did] *)
Definition did_of_state : M string :=
  w <- get_world ;;
  match identity (state w) with
  | Some i => ret (did i)
  | None => throw (TypeError "Cannot read properties of null (reading 'did')")
  end.

(** The value returned is [state.messages], as its three lists. *)
Definition loadMessages : M (list Message * list Message * list Relay) :=
  try_catch
    (userDID <- did_of_state ;;
     received <- DB.getReceivedMessages userDID ;;
     sent <- DB.getSentMessages userDID ;;
     relays <- DB.getAllRelays ;;
     modify (with_state (λ a,
       mkApp (initialized a) (profile a) (identity a) (connections a) received sent relays)) ;;
     UI_update ;;
     ret (received, sent, relays))
    (λ error, console_error "Loading messages failed:" error ;; throw error).

Definition removeConnection (connectionId : string) : M bool :=
  try_catch
    (DB.deleteConnection connectionId ;;
     modify (with_state (λ a,
       mkApp (initialized a) (profile a) (identity a)
             (filter (λ c, conn_id c ≠ connectionId) (connections a))
             (messages_received a) (messages_sent a) (messages_relays a))) ;;
     UI_update ;;
     ret true)
    (λ error, console_error "Removing connection failed:" error ;; throw error).

Definition cleanupExpiredConnections : M nat :=
  try_catch
    (expiredConnections <- DB.getExpiredConnections ;;
     for_of expiredConnections (λ connection, removeConnection (conn_id connection) ;; ret tt) ;;
     ret (List.length expiredConnections))
    (λ error, console_error "Connection cleanup failed:" error ;; throw error).

(** *** Messages and relays created here *)

(** The argument of [createMessage]. *)
Record MessageData : Type := mkMessageData {
  md_recipientId : string;
  md_content : string;
  md_isRelay : bool
}.

(** A name inside a template literal; a missing name reads [undefined].
    The typed records do not tell a [null] name from a missing one. *)
Definition in_template (v : option string) : string := default "undefined" v.

(** [`${state.profile.firstName} ${state.profile.lastName}`] *)
Definition name_of_state : M string :=
  w <- get_world ;;
  match profile (state w) with
  | Some p => ret (firstName p ++ " " ++ lastName p)
  | None => throw (TypeError "Cannot read properties of null (reading 'firstName')")
  end.

(** [Crypto.encryptMessage(content, recipient.publicKey)]: CryptoJS takes
    a key that is no string for a word array and reads its words. *)
Definition encrypt_for (content : string) (key : option string) : M ciphertext :=
  match key with
  | Some key => salt <- draw_salt ;; ret (Crypto.encryptMessage salt content key)
  | None => throw (TypeError "Cannot read properties of undefined (reading 'words')")
  end.

(** [state.messages.sent.push(message)] *)
Definition push_sent (message : Message) : M unit :=
  modify (with_state (λ a,
    mkApp (initialized a) (profile a) (identity a) (connections a)
          (messages_received a) (messages_sent a ++ [message]) (messages_relays a))).

(** [state.messages.relays.push(relay)] *)
Definition push_relay (relay : Relay) : M unit :=
  modify (with_state (λ a,
    mkApp (initialized a) (profile a) (identity a) (connections a)
          (messages_received a) (messages_sent a) (messages_relays a ++ [relay]))).

(** [createRelay(message, recipient)], on the fields of [message] it
    reads; its one caller passes the message it has just built. *)
Definition createRelay (messageId senderId senderName : string) (encrypted : ciphertext)
    (recipient : Connection) : M Relay :=
  id <- uuid_v4_call ;;
  timestamp <- new_Date ;;
  let relay :=
    {| relay_id := id;
       relay_messageId := messageId;
       relay_originalSenderId := senderId;
       relay_originalSenderName := senderName;
       relay_targetRecipientId := conn_did recipient;
       relay_targetRecipientName :=
         in_template (conn_firstName recipient) ++ " " ++ in_template (conn_lastName recipient);
       relay_encryptedContent := encrypted;
       relay_timestamp := timestamp;
       relay_status := "pending" |} in
  DB.saveRelay relay ;;
  push_relay relay ;;
  UI_update ;;
  ret relay.

Definition createMessage (messageData : MessageData) : M Message :=
  try_catch
    (recipient <- DB.getConnection (md_recipientId messageData) ;;
     match recipient with
     | None => throw (Err "Recipient not found")
     | Some recipient =>
         id <- uuid_v4_call ;;
         senderId <- did_of_state ;;
         senderName <- name_of_state ;;
         let recipientName :=
           in_template (conn_firstName recipient) ++ " " ++ in_template (conn_lastName recipient) in
         encrypted <- encrypt_for (md_content messageData) (conn_publicKey recipient) ;;
         timestamp <- new_Date ;;
         let message :=
           {| msg_id := id;
              msg_senderId := Some senderId;
              msg_senderName := Some senderName;
              msg_recipientId := Some (conn_did recipient);
              msg_recipientName := Some recipientName;
              msg_content := Some (md_content messageData);
              msg_encrypted := Some encrypted;
              msg_timestamp := timestamp;
              msg_status := "sent";
              msg_isRelay := md_isRelay messageData |} in
         DB.saveMessage message ;;
         push_sent message ;;
         (if md_isRelay messageData
          then createRelay id senderId senderName encrypted recipient ;; ret tt
          else ret tt) ;;
         UI_update ;;
         ret message
     end)
    (λ error, console_error "Message creation failed:" error ;; throw error).

End App.
End App.

(** ** js/connect.js *)

Module Connect.
Section Connect.
Context `{CryptoJS} `{JSON} `{DateLib}.

Definition updateConnectionInstructions (message : string) : M unit :=
  modify (with_ui (λ u, mkUi (console_errors u) (alerts u) (Some message)
                             (confirmation u) (location_href u))).

Definition set_scanner (active stream : bool) : M unit :=
  modify (with_connect (λ c,
    mkConnect active stream (qrCheckInterval c) (connectionStage c) (stage_history c)
              (connectionData c) (localDescription c) (remoteDescription c)
              (answerQrCode c))).

Definition set_connectionData (v : option json) : M unit :=
  modify (with_connect (λ c,
    mkConnect (scannerActive c) (scannerStream c) (qrCheckInterval c)
              (connectionStage c) (stage_history c)
              v (localDescription c) (remoteDescription c) (answerQrCode c))).

Definition set_remoteDescription (v : option json) : M unit :=
  modify (with_connect (λ c,
    mkConnect (scannerActive c) (scannerStream c) (qrCheckInterval c)
              (connectionStage c) (stage_history c)
              (connectionData c) (localDescription c) v (answerQrCode c))).

(** The object [initializeConnectionOffer] assigns to [connectionData];
    [now] is the instant of its [timestamp]. *)
Definition offerConnectionData (profile : Profile) (now : Z) : json :=
  let identity := profile_identity profile in
  JObj [("type", JStr "connection");
        ("did", JStr (did identity));
        ("publicKey", JStr (publicKey identity));
        ("profile",
         JObj [("firstName", JStr (firstName profile));
               ("lastName", JStr (lastName profile));
               ("nickname", JStr (default "" (Js.or_else (nickname profile) (Some ""))));
               ("bio", JStr (default "" (Js.or_else (bio profile) (Some ""))));
               ("profilePicture", JBool (Js.truthy_str (profilePicture profile)))]);
        ("timestamp", JStr (toISOString now))].

Definition stopScanner : M unit :=
  w <- get_world ;;
  if negb (scannerActive (connect w)) || negb (scannerStream (connect w))
  then ret tt
  else set_scanner false false.

(** The dialog keeps the payload; its name line reads
    [connectionData.profile.firstName] and [.lastName]. *)
Definition showConnectionConfirmation (connectionData : json) : M unit :=
  modify (with_ui (λ u, mkUi (console_errors u) (alerts u) (instructions u)
                             (Some connectionData) (location_href u))) ;;
  p <- lift (Js.prop (Some connectionData) "profile") ;;
  _ <- lift (Js.prop p "firstName") ;;
  _ <- lift (Js.prop p "lastName") ;;
  ret tt.

Definition handleConnectionOffer (offerData : json) : M unit :=
  try_catch
    (set_stage OFFER_SCANNED ;;
     set_connectionData (Some offerData) ;;
     webrtc <- lift (Js.prop (Some offerData) "webrtc") ;;
     set_remoteDescription webrtc ;;
     updateConnectionInstructions "Connection offer received. Creating answer..." ;;
     showConnectionConfirmation offerData)
    (λ error,
       console_error "Connection offer handling failed:" error ;;
       set_stage FAILED ;;
       alert "Failed to process connection offer. Please try again.").

(** *** The data exchange *)

(** The [profileData] object of [sendProfileData]. *)
Definition profile_message (profile : Profile) (timestamp : Z) : DataMsg :=
  DProfile
    {| pm_profile :=
         {| peer_firstName := Some (firstName profile);
            peer_lastName := Some (lastName profile);
            peer_nickname := Js.or_else (nickname profile) (Some "");
            peer_bio := Js.or_else (bio profile) (Some "") |};
       pm_did := Some (did (profile_identity profile));
       pm_publicKey := Some (publicKey (profile_identity profile)) |}
    (if Js.truthy_str (profilePicture profile) then profilePicture profile else None)
    timestamp.

Definition sendProfileData (profile : option Profile) : M unit :=
  match profile with
  | None => throw (TypeError "Cannot read properties of null (reading 'firstName')")
  | Some profile =>
      timestamp <- new_Date ;;
      WebRTC.sendData (profile_message profile timestamp) ;;
      ret tt
  end.

Definition sendConnectionsData (connections : list Connection) : M unit :=
  let connectionsData :=
    map (λ conn, {| cs_firstName := conn_firstName conn;
                    cs_lastName := conn_lastName conn;
                    cs_did := conn_did conn |}) connections in
  timestamp <- new_Date ;;
  WebRTC.sendData (DConnections connectionsData timestamp) ;;
  ret tt.

(** The messages to send are the empty array. *)
Definition sendMessagesData (messages : AppState) : M unit :=
  let messagesToSend := [] in
  timestamp <- new_Date ;;
  WebRTC.sendData (DMessages messagesToSend timestamp) ;;
  ret tt.

(** The [relaysToSend] of [sendRelaysData]: the relays whose target is
    [connectionData.did], none when [connectionData] or its [did] is
    missing or empty. *)
Definition relaysToSend (connectionData : option json) (relays : list Relay) : list Relay :=
  if Js.truthy connectionData
  then match Js.prop connectionData "did" with
       | Ok did =>
           if Js.truthy did
           then filter (λ relay,
                  Js.strict_eq (Some (JStr (relay_targetRecipientId relay))) did = true) relays
           else []
       | Throw _ => []
       end
  else [].

Definition sendRelaysData (relays : list Relay) : M unit :=
  w <- get_world ;;
  let relaysToSend := relaysToSend (connectionData (connect w)) relays in
  timestamp <- new_Date ;;
  WebRTC.sendData (DRelays relaysToSend timestamp) ;;
  ret tt.

Definition handleDataExchange : M unit :=
  try_catch
    (set_stage EXCHANGING ;;
     st <- App.getState ;;
     sendProfileData (profile st) ;;
     sendConnectionsData (connections st) ;;
     sendMessagesData st ;;
     sendRelaysData (messages_relays st) ;;
     timestamp <- new_Date ;;
     WebRTC.sendData (DComplete timestamp) ;;
     ret tt)
    (λ error,
       console_error "Data exchange failed:" error ;;
       set_stage FAILED ;;
       updateConnectionInstructions "Data exchange failed. Please try again.").

(** *** The scanned codes *)

Definition handleConnectionAnswer (answerData : json) : M unit :=
  try_catch
    (w <- get_world ;;
     (if Js.truthy (connectionData (connect w))
      then
        own <- lift (Js.prop (connectionData (connect w)) "did") ;;
        theirs <- lift (Js.prop (Some answerData) "did") ;;
        if negb (Js.strict_eq own theirs)
        then throw (Err "DID mismatch in connection answer")
        else ret tt
      else ret tt) ;;
     set_stage ANSWER_SCANNED ;;
     webrtc <- lift (Js.prop (Some answerData) "webrtc") ;;
     set_remoteDescription webrtc ;;
     updateConnectionInstructions "Connection answer received. Establishing connection..." ;;
     WebRTC.completeConnection webrtc ;;
     set_stage CONNECTED ;;
     updateConnectionInstructions "Connected! Exchanging data..." ;;
     handleDataExchange)
    (λ error,
       console_error "Connection answer handling failed:" error ;;
       set_stage FAILED ;;
       alert "Failed to process connection answer. Please try again.").

(** [data.startsWith('http') && data.includes('?type=onboarding')] *)
Definition is_onboarding_url (data : string) : bool :=
  String.prefix "http" data && bool_decide (is_Some (String.index 0 "?type=onboarding" data)).

(** [window.location.href = data] *)
Definition navigate (url : string) : M unit :=
  modify (with_ui (λ u, mkUi (console_errors u) (alerts u) (instructions u)
                             (confirmation u) (Some url))).

Definition processScannedCode (data : string) : M unit :=
  try_catch
    (stopScanner ;;
     match JSON_parse data with
     | Throw _ =>
         if is_onboarding_url data
         then navigate data
         else throw (Err "Invalid QR code format")
     | Ok qrData =>
         type <- lift (Js.prop (Some qrData) "type") ;;
         if Js.strict_eq type (Some (JStr "connection"))
         then handleConnectionOffer qrData
         else if Js.strict_eq type (Some (JStr "connection_answer"))
         then handleConnectionAnswer qrData
         else throw (Err "Unsupported QR code type")
     end)
    (λ error,
       console_error "QR code processing failed:" error ;;
       alert "Unable to process QR code. Please try again." ;;
       set_stage FAILED).

(** *** The transport's callbacks *)

Definition handleConnectionStateChange (new_state : string) : M unit :=
  stage <- get_stage ;;
  if (new_state =? "connected")
  then
    if bool_decide (stage ≠ CONNECTED)
    then set_stage CONNECTED ;;
         updateConnectionInstructions "Connected! Exchanging data..." ;;
         handleDataExchange
    else ret tt
  else if (new_state =? "disconnected") || (new_state =? "failed")
  then
    if bool_decide (stage ≠ COMPLETE) && bool_decide (stage ≠ FAILED)
    then set_stage FAILED ;;
         updateConnectionInstructions "Connection failed. Please try again."
    else ret tt
  else ret tt.

Definition resetConnectionState : M unit :=
  set_stage INIT ;;
  modify (with_connect (λ c,
    mkConnect (scannerActive c) (scannerStream c) (qrCheckInterval c)
              (connectionStage c) (stage_history c) None None None None)) ;;
  WebRTC.closeConnection handleConnectionStateChange ;;
  modify (with_connect (λ c,
    mkConnect (scannerActive c) (scannerStream c) false
              (connectionStage c) (stage_history c)
              (connectionData c) (localDescription c) (remoteDescription c)
              (answerQrCode c))).

(** The [profile] object [processReceivedProfile] stores. *)
Definition received_profile_json (profile : PeerProfile) : json :=
  let field k (v : option string) :=
    match v with Some s => [(k, JStr s)] | None => [] end in
  JObj (field "firstName" (peer_firstName profile)
        ++ field "lastName" (peer_lastName profile)
        ++ [("nickname", JStr (default "" (Js.or_else (peer_nickname profile) (Some ""))));
            ("bio", JStr (default "" (Js.or_else (peer_bio profile) (Some ""))))]).

Definition processReceivedProfile (profile : ProfileMsg) (picture : option string) : M unit :=
  try_catch
    (w <- get_world ;;
     match connectionData (connect w) with
     | Some (JObj fs) =>
         let fs := Js.set_assoc "profile" (received_profile_json (pm_profile profile)) fs in
         let fs := match picture with
                   | Some pic => if Js.truthy_str picture
                                 then Js.set_assoc "profilePicture" (JStr pic) fs
                                 else fs
                   | None => fs
                   end in
         set_connectionData (Some (JObj fs))
     | _ => ret tt
     end ;;
     timestamp <- new_Date ;;
     WebRTC.sendData (DAck "profile_ack" None timestamp) ;;
     ret tt)
    (λ error, console_error "Processing received profile failed:" error).

Definition acknowledge (type : string) (count : nat) : M unit :=
  timestamp <- new_Date ;;
  WebRTC.sendData (DAck type (Some count) timestamp) ;;
  ret tt.

Definition processReceivedConnections (connections : list ConnectionSummary) : M unit :=
  acknowledge "connections_ack" (List.length connections).

Definition processReceivedMessages (messages : list Message) : M unit :=
  acknowledge "messages_ack" (List.length messages).

Definition processReceivedRelays (relays : list Relay) : M unit :=
  acknowledge "relays_ack" (List.length relays).

(** The [profile] of [connectionData] as [App.addConnection] reads it. *)
Definition peer_of_json (v : option json) : option PeerProfile :=
  match v with
  | None | Some JNull => None
  | Some p =>
      let field k := match Js.prop (Some p) k with Ok f => Js.str f | Throw _ => None end in
      Some {| peer_firstName := field "firstName";
              peer_lastName := field "lastName";
              peer_nickname := field "nickname";
              peer_bio := field "bio" |}
  end.

Definition completeConnection : M unit :=
  try_catch
    (w <- get_world ;;
     let cd := connectionData (connect w) in
     did <- lift (Js.prop cd "did") ;;
     publicKey <- lift (Js.prop cd "publicKey") ;;
     profile <- lift (Js.prop cd "profile") ;;
     picture <- lift (Js.prop cd "profilePicture") ;;
     App.addConnection
       {| cd_did := Js.str did;
          cd_publicKey := Js.str publicKey;
          cd_profile := peer_of_json profile;
          cd_profilePicture := Js.or_else (Js.str picture) None |} ;;
     alert "Connection successful!" ;;
     resetConnectionState)
    (λ error,
       console_error "Connection completion failed:" error ;;
       alert "Failed to complete connection. Please try again." ;;
       resetConnectionState).

Definition handleTransferComplete : M unit :=
  set_stage COMPLETE ;;
  updateConnectionInstructions "Data transfer complete! Connection established." ;;
  completeConnection.

Definition handleDataReceived (data : DataMsg) : M unit :=
  match data with
  | DProfile profile picture _ => processReceivedProfile profile picture
  | DConnections connections _ => processReceivedConnections connections
  | DMessages messages _ => processReceivedMessages messages
  | DRelays relays _ => processReceivedRelays relays
  | DComplete _ => handleTransferComplete
  | DAck _ _ _ => ret tt
  end.

(** A data-exchange session of this device: it sends its five messages,
    and handles the messages the peer sent, in their order. *)
Definition session (inbound : list DataMsg) : M unit :=
  handleDataExchange ;;
  App.for_of inbound handleDataReceived.

(** The calls that reach the code above from outside: the scanner hands
    over a decoded text, the transport reports a connection state or a
    received message, and the user declines the confirmation dialog
    ([handleConnectionConfirmation(false)], which resets). *)
Inductive Call : Type :=
| Scanned (data : string)
| StateChanged (new_state : string)
| DataReceived (data : DataMsg)
| Declined.

Definition call (c : Call) : M unit :=
  match c with
  | Scanned data => processScannedCode data
  | StateChanged new_state => handleConnectionStateChange new_state
  | DataReceived data => handleDataReceived data
  | Declined => resetConnectionState
  end.


(** *** Showing an offer, answering one

    The page's elements are taken to be there: the code returns at once
    without them. *)

Definition set_localDescription (v : option json) : M unit :=
  modify (with_connect (λ c,
    mkConnect (scannerActive c) (scannerStream c) (qrCheckInterval c)
              (connectionStage c) (stage_history c)
              (connectionData c) v (remoteDescription c) (answerQrCode c))).

Definition set_answerQrCode (v : option json) : M unit :=
  modify (with_connect (λ c,
    mkConnect (scannerActive c) (scannerStream c) (qrCheckInterval c)
              (connectionStage c) (stage_history c)
              (connectionData c) (localDescription c) (remoteDescription c) v)).

Definition set_qrCheckInterval (running : bool) : M unit :=
  modify (with_connect (λ c,
    mkConnect (scannerActive c) (scannerStream c) running
              (connectionStage c) (stage_history c)
              (connectionData c) (localDescription c) (remoteDescription c)
              (answerQrCode c))).

(** The [qrData] object of [generateConnectionQRCode]: the spread of
    [connectionData], then [webrtc]. *)
Definition connection_qr_json (connectionData localDescription : option json) : json :=
  JObj (Js.set_assoc "webrtc" (default JNull localDescription)
          (match connectionData with Some (JObj fs) => fs | _ => [] end)).

(** The text the connection code shows. *)
Definition connection_qr_value (w : World) : string :=
  JSON_stringify (connection_qr_json (connectionData (connect w)) (localDescription (connect w))).

(** The [qrData] object of [generateAnswerQRCode]; a property whose value
    is [undefined] is left out, as it is in the text of the code. *)
Definition answer_qr_json (did localDescription : option json) (timestamp : Z) : json :=
  JObj ([("type", JStr "connection_answer")]
        ++ match did with Some did => [("did", did)] | None => [] end
        ++ [("webrtc", default JNull localDescription);
            ("timestamp", JStr (toISOString timestamp))]).

Definition generateAnswerQRCode : M unit :=
  w <- get_world ;;
  did <- lift (Js.prop (connectionData (connect w)) "did") ;;
  timestamp <- new_Date ;;
  set_answerQrCode (Some (answer_qr_json did (localDescription (connect w)) timestamp)).

(** The text the answer code shows. *)
Definition answer_qr_value (w : World) : option string :=
  JSON_stringify <$> answerQrCode (connect w).

Definition handleLocalDescriptionGenerated (description : json) : M unit :=
  set_localDescription (Some description) ;;
  stage <- get_stage ;;
  if bool_decide (stage = OFFER_CREATED) then ret tt
  else if bool_decide (stage = ANSWER_CREATED) then generateAnswerQRCode
  else ret tt.

Definition startAnswerScanCheck : M unit := set_qrCheckInterval true.


Definition initializeConnectionOffer (browser : WebRTC.Browser) : M unit :=
  try_catch
    (st <- App.getState ;;
     profile <- match profile st with
                | Some profile => ret profile
                | None => throw (TypeError "Cannot read properties of null (reading 'identity')")
                end ;;
     now <- new_Date ;;
     set_connectionData (Some (offerConnectionData profile now)) ;;
     description <- WebRTC.initiateConnection handleLocalDescriptionGenerated browser ;;
     set_localDescription (Some description) ;;
     set_stage OFFER_CREATED ;;
     updateConnectionInstructions
       "Showing connection QR code. Let the other person scan this code." ;;
     startAnswerScanCheck)
    (λ error,
       console_error "Connection offer initialization failed:" error ;;
       set_stage FAILED).

Definition generateQRCode (browser : WebRTC.Browser) : M unit :=
  set_stage INIT ;;
  initializeConnectionOffer browser.

Definition createConnectionAnswer (browser : WebRTC.Browser) (offerData : json) : M json :=
  try_catch
    (webrtc <- lift (Js.prop (Some offerData) "webrtc") ;;
     description <- WebRTC.acceptConnection handleLocalDescriptionGenerated browser webrtc ;;
     set_localDescription (Some description) ;;
     ret description)
    (λ error, console_error "Connection answer creation failed:" error ;; throw error).

(** [handleConnectionConfirmation(confirmed)].  The dialog's attribute
    holds the text of the payload [showConnectionConfirmation] was given. *)
Definition handleConnectionConfirmation (browser : WebRTC.Browser) (confirmed : bool) : M unit :=
  try_catch
    (if confirmed
     then
       w <- get_world ;;
       let connectionDataStr := JSON_stringify <$> confirmation (ui w) in
       (if Js.truthy_str connectionDataStr then ret tt
        else throw (Err "Connection data not found")) ;;
       connectionData <- lift (JSON_parse (default "" connectionDataStr)) ;;
       createConnectionAnswer browser connectionData ;;
       generateAnswerQRCode ;;
       set_stage ANSWER_CREATED ;;
       updateConnectionInstructions
         "Now show this QR code to the other person to complete the connection."
     else resetConnectionState)
    (λ error,
       console_error "Connection confirmation handling failed:" error ;;
       alert "Failed to process connection. Please try again." ;;
       resetConnectionState).




End Connect.
End Connect.

(** ** A model of the built-ins

    To run the code on concrete inputs: a symbolic cipher (a ciphertext
    names its salt, text and passphrase, and only the passphrase opens
    it), the JSON grammar over integers and one-byte characters, and the
    UTC calendar. *)

Module Reference.

Inductive sealed : Type :=
| Sealed (salt message passphrase : string).

#[global] Instance symbolic : CryptoJS := {|
  ciphertext := sealed;
  AES_encrypt salt message passphrase := Sealed salt message passphrase;
  AES_decrypt_utf8 c passphrase :=
    match c with
    | Sealed _ message passphrase' =>
        if (passphrase =? passphrase') then Ok message
        else Throw (Err "Malformed UTF-8 data")
    end;
  SHA256_hex s := "sha256:" ++ s
|}.

(** *** JSON text *)

Definition dquote : ascii := "034"%char.
Definition backslash : ascii := "092"%char.

Definition hex_digit (n : N) : ascii :=
  ascii_of_N (if (n <? 10)%N then 48 + n else 87 + n).

Fixpoint escape (s : string) : string :=
  match s with
  | "" => ""
  | String c r =>
      if Ascii.eqb c dquote then String backslash (String dquote (escape r))
      else if Ascii.eqb c backslash then String backslash (String backslash (escape r))
      else if (N_of_ascii c <? 32)%N
      then String backslash (String "u" (String "0" (String "0"
             (String (hex_digit (N_of_ascii c / 16)) (String (hex_digit (N_of_ascii c mod 16))
             (escape r))))))
      else String c (escape r)
  end.

Definition quote (s : string) : string :=
  String dquote (escape s ++ String dquote "").

Fixpoint digits_of (fuel : nat) (n : N) (acc : string) : string :=
  match fuel with
  | O => acc
  | S fuel =>
      let acc := String (ascii_of_N (48 + n mod 10)) acc in
      if (n / 10 =? 0)%N then acc else digits_of fuel (n / 10) acc
  end.

Definition decimal (z : Z) : string :=
  let n := Z.abs_N z in
  (if (z <? 0)%Z then "-" else "") ++ digits_of (S (N.to_nat (N.log2 n))) n "".

Fixpoint stringify (j : json) : string :=
  match j with
  | JNull => "null"
  | JBool true => "true"
  | JBool false => "false"
  | JNum n => decimal n
  | JStr s => quote s
  | JArr items =>
      "[" ++ (fix go (first : bool) (l : list json) : string :=
                match l with
                | [] => ""
                | x :: l => (if first then "" else ",") ++ stringify x ++ go false l
                end) true items ++ "]"
  | JObj fields =>
      "{" ++ (fix go (first : bool) (l : list (string * json)) : string :=
                match l with
                | [] => ""
                | (k, v) :: l =>
                    (if first then "" else ",") ++ quote k ++ ":" ++ stringify v ++ go false l
                end) true fields ++ "}"
  end.

Definition is_ws (c : ascii) : bool :=
  let n := N_of_ascii c in
  ((n =? 32) || (n =? 9) || (n =? 10) || (n =? 13))%N.

Fixpoint skip_ws (s : string) : string :=
  match s with
  | String c r => if is_ws c then skip_ws r else s
  | "" => ""
  end.

Definition hex_value (c : ascii) : option N :=
  let n := N_of_ascii c in
  if ((48 <=? n) && (n <=? 57))%N then Some (n - 48)%N
  else if ((97 <=? n) && (n <=? 102))%N then Some (n - 87)%N
  else if ((65 <=? n) && (n <=? 70))%N then Some (n - 55)%N
  else None.

Definition unescape (e : ascii) : option ascii :=
  if Ascii.eqb e dquote then Some dquote
  else if Ascii.eqb e backslash then Some backslash
  else if Ascii.eqb e "/" then Some "/"%char
  else if Ascii.eqb e "b" then Some "008"%char
  else if Ascii.eqb e "f" then Some "012"%char
  else if Ascii.eqb e "n" then Some "010"%char
  else if Ascii.eqb e "r" then Some "013"%char
  else if Ascii.eqb e "t" then Some "009"%char
  else None.

(** The characters of a string literal after its opening quote, and the
    text after its closing quote. *)
Fixpoint parse_chars (s : string) : option (string * string) :=
  match s with
  | "" => None
  | String c r =>
      if Ascii.eqb c dquote then Some ("", r)
      else if Ascii.eqb c backslash then
        match r with
        | String "u" (String a (String b (String h (String l r')))) =>
            match hex_value a, hex_value b, hex_value h, hex_value l with
            | Some 0%N, Some 0%N, Some h, Some l =>
                match parse_chars r' with
                | Some (t, rest) => Some (String (ascii_of_N (16 * h + l)) t, rest)
                | None => None
                end
            | _, _, _, _ => None
            end
        | String e r' =>
            match unescape e, parse_chars r' with
            | Some ch, Some (t, rest) => Some (String ch t, rest)
            | _, _ => None
            end
        | "" => None
        end
      else if (N_of_ascii c <? 32)%N then None
      else match parse_chars r with
           | Some (t, rest) => Some (String c t, rest)
           | None => None
           end
  end.

Definition is_digit (c : ascii) : bool :=
  ((48 <=? N_of_ascii c) && (N_of_ascii c <=? 57))%N.

Fixpoint digits (s : string) (acc : N) : N * string :=
  match s with
  | String c r => if is_digit c then digits r (10 * acc + (N_of_ascii c - 48))%N else (acc, s)
  | "" => (acc, "")
  end.

(** An integer literal; a fraction or an exponent is outside the model. *)
Definition parse_number (s : string) : option (json * string) :=
  let '(negative, s) := match s with
                        | String "-" r => (true, r)
                        | _ => (false, s)
                        end in
  match s with
  | String c r =>
      if is_digit c
      then
        let '(n, rest) := digits s 0%N in
        let leading_zero := Ascii.eqb c "0" && negb (String.length s - String.length rest =? 1)%nat in
        let continues := match rest with
                         | String d _ => Ascii.eqb d "." || Ascii.eqb d "e" || Ascii.eqb d "E"
                         | "" => false
                         end in
        if leading_zero || continues then None
        else Some (JNum (if negative then - Z.of_N n else Z.of_N n)%Z, rest)
      else None
  | "" => None
  end.

Definition expect (word : string) (v : json) (s : string) : option (json * string) :=
  if String.prefix word s
  then Some (v, String.substring (String.length word) (String.length s - String.length word) s)
  else None.

Fixpoint parse_items (value : string → option (json * string)) (n : nat) (s : string)
    (acc : list json) : option (json * string) :=
  match n with
  | O => None
  | S n =>
      match value s with
      | Some (v, rest) =>
          match skip_ws rest with
          | String "," rest => parse_items value n rest (acc ++ [v])
          | String "]" rest => Some (JArr (acc ++ [v]), rest)
          | _ => None
          end
      | None => None
      end
  end.

(** A repeated key keeps its first place and its last value. *)
Fixpoint parse_members (value : string → option (json * string)) (n : nat) (s : string)
    (acc : list (string * json)) : option (json * string) :=
  match n with
  | O => None
  | S n =>
      match skip_ws s with
      | String q r =>
          if Ascii.eqb q dquote
          then match parse_chars r with
               | Some (k, rest) =>
                   match skip_ws rest with
                   | String ":" rest =>
                       match value rest with
                       | Some (v, rest) =>
                           match skip_ws rest with
                           | String "," rest => parse_members value n rest (Js.set_assoc k v acc)
                           | String "}" rest => Some (JObj (Js.set_assoc k v acc), rest)
                           | _ => None
                           end
                       | None => None
                       end
                   | _ => None
                   end
               | None => None
               end
          else None
      | "" => None
      end
  end.

Fixpoint parse_value (fuel : nat) (s : string) : option (json * string) :=
  match fuel with
  | O => None
  | S fuel =>
      match skip_ws s with
      | "" => None
      | String c r as s =>
          if Ascii.eqb c dquote
          then match parse_chars r with
               | Some (t, rest) => Some (JStr t, rest)
               | None => None
               end
          else if Ascii.eqb c "["
          then match skip_ws r with
               | String "]" rest => Some (JArr [], rest)
               | r => parse_items (parse_value fuel) (S (String.length r)) r []
               end
          else if Ascii.eqb c "{"
          then match skip_ws r with
               | String "}" rest => Some (JObj [], rest)
               | r => parse_members (parse_value fuel) (S (String.length r)) r []
               end
          else if Ascii.eqb c "n" then expect "null" JNull s
          else if Ascii.eqb c "t" then expect "true" (JBool true) s
          else if Ascii.eqb c "f" then expect "false" (JBool false) s
          else parse_number s
      end
  end.

Definition parse (s : string) : res json :=
  match parse_value (S (String.length s)) s with
  | Some (j, rest) =>
      match skip_ws rest with
      | "" => Ok j
      | _ => Throw SyntaxError
      end
  | None => Throw SyntaxError
  end.

#[global] Instance json_text : JSON := {|
  JSON_parse := parse;
  JSON_stringify := stringify
|}.

(** *** The UTC calendar *)

Open Scope Z_scope.

Definition ms_per_day : Z := 86400000.

(** Days since the epoch of the civil date [y]-[m]-[d]; a day past the
    month's end runs into the next month, as in [Date]. *)
Definition days_from_civil (y m d : Z) : Z :=
  let y := if m <=? 2 then y - 1 else y in
  let era := y / 400 in
  let yoe := y - era * 400 in
  let doy := (153 * (if 2 <? m then m - 3 else m + 9) + 2) / 5 + d - 1 in
  let doe := yoe * 365 + yoe / 4 - yoe / 100 + doy in
  era * 146097 + doe - 719468.

Definition civil_from_days (z : Z) : Z * Z * Z :=
  let z := z + 719468 in
  let era := z / 146097 in
  let doe := z - era * 146097 in
  let yoe := (doe - doe / 1460 + doe / 36524 - doe / 146096) / 365 in
  let doy := doe - (365 * yoe + yoe / 4 - yoe / 100) in
  let mp := (5 * doy + 2) / 153 in
  let d := doy - (153 * mp + 2) / 5 + 1 in
  let m := if mp <? 10 then mp + 3 else mp - 9 in
  (yoe + era * 400 + (if m <=? 2 then 1 else 0), m, d).

Definition next_year (t : Z) : Z :=
  let '(y, m, d) := civil_from_days (t / ms_per_day) in
  days_from_civil (y + 1) m d * ms_per_day + t mod ms_per_day.

Definition pad (width : nat) (n : Z) : string :=
  let s := decimal n in
  String.concat "" (repeat "0" (width - String.length s)) ++ s.

Definition iso (t : Z) : string :=
  let '(y, m, d) := civil_from_days (t / ms_per_day) in
  let r := t mod ms_per_day in
  pad 4 y ++ "-" ++ pad 2 m ++ "-" ++ pad 2 d ++ "T"
  ++ pad 2 (r / 3600000) ++ ":" ++ pad 2 (r / 60000 mod 60) ++ ":"
  ++ pad 2 (r / 1000 mod 60) ++ "." ++ pad 3 (r mod 1000) ++ "Z".

Close Scope Z_scope.

#[global] Instance utc : DateLib := {|
  toISOString := iso;
  setFullYear_next := next_year
|}.

(** *** The keyed hash

    A code names the message and the key it was made with. *)

#[global] Instance symbolic_hmac : HmacJS := {|
  HmacSHA256_hex message key := "hmac:" ++ message ++ ":" ++ key
|}.

End Reference.

(** * What the properties are stated with *)

Section notions.
Context `{CryptoJS}.

(** The record [App.processReceivedMessages] keeps of an inbound message:
    the message with the decrypted text as its content, [null] when the
    decryption failed. *)
Definition kept (key : string) (m : Message) : Message :=
  App.set_content
    (match Crypto.decryptMessage (msg_encrypted m) key with Ok c => c | Throw _ => None end) m.

(** A message of this id is in the list. *)
Definition known (id : string) (l : list Message) : Prop :=
  ∃ m, m ∈ l ∧ msg_id m = id.

(** Whatever [m] returns or throws, the world it leaves is related by [P]
    to the world it started in. *)
Definition preserves (P : World → World → Prop) {A : Type} (m : M A) : Prop :=
  ∀ w, P w (m w).2.

(** The relay records, stored and in [state.messages.relays], are the
    same. *)
Definition same_relays (w w' : World) : Prop :=
  store_relays (db w') = store_relays (db w)
  ∧ messages_relays (state w') = messages_relays (state w).

(** The stages assigned so far stay assigned: the history only grows. *)
Definition history_grows (w w' : World) : Prop :=
  stage_history (connect w) `prefix_of` stage_history (connect w').

(** What goes out on the data channel is [ts] in this order, less the
    sends that did not go through. *)
Definition emits (ts : list string) {A : Type} (m : M A) : Prop :=
  ∀ w, ∃ l, sent (rtc (m w).2) = (sent (rtc w) ++ l)%list
            ∧ (msg_type <$> l) `sublist_of` ts.


(** The connections store as IndexedDB keeps it: every record under its
    own id, no two records with one did. *)
Definition store_sound (w : World) : Prop :=
  DB.store_keyed (store_connections (db w)) ∧ DB.did_unique (store_connections (db w)).

Definition keeps_store_sound (w w' : World) : Prop := store_sound w → store_sound w'.

(** The relays store and [state.messages.relays] hold the same relays,
    each stored under its id. *)
Definition relays_listed (w : World) : Prop :=
  (∀ r, r ∈ messages_relays (state w) → store_relays (db w) !! relay_id r = Some r)
  ∧ (∀ k r, store_relays (db w) !! k = Some r → relay_id r = k ∧ r ∈ messages_relays (state w)).

(** The message [App.processRelaysForConnection] returns for a relay. *)
Definition delivered_for (relay : Relay) (m : Message) : Prop :=
  msg_senderId m = Some (relay_originalSenderId relay)
  ∧ msg_senderName m = Some (relay_originalSenderName relay)
  ∧ msg_recipientId m = Some (relay_targetRecipientId relay)
  ∧ msg_recipientName m = Some (relay_targetRecipientName relay)
  ∧ msg_content m = None
  ∧ msg_encrypted m = Some (relay_encryptedContent relay)
  ∧ msg_status m = "delivered"
  ∧ msg_isRelay m = true.

(** [m] returns, throwing nothing, and the world it leaves is related by
    [P] to the world it started in. *)
Definition returns (P : World → World → Prop) {A : Type} (m : M A) : Prop :=
  ∀ w, ∃ a w', m w = (Ok a, w') ∧ P w w'.

(** Nothing but the draws, the transport and the console has changed. *)
Definition same_app (w w' : World) : Prop :=
  env w' = env w ∧ db w' = db w ∧ state w' = state w ∧ connect w' = connect w
  ∧ alerts (ui w') = alerts (ui w).

(** The message [App.createMessage] builds in [w] for a stored recipient
    with public key [pk], and the relay [createRelay] builds for it. *)
Definition message_built (w : World) (i : Identity) (p : Profile) (recipient : Connection)
    (pk : string) (md : App.MessageData) : Message :=
  {| msg_id := uuid_v4 (env w) (n_uuid (draws w));
     msg_senderId := Some (did i);
     msg_senderName := Some (firstName p ++ " " ++ lastName p);
     msg_recipientId := Some (conn_did recipient);
     msg_recipientName :=
       Some (App.in_template (conn_firstName recipient) ++ " "
             ++ App.in_template (conn_lastName recipient));
     msg_content := Some (App.md_content md);
     msg_encrypted :=
       Some (Crypto.encryptMessage (random_salt (env w) (n_salt (draws w)))
                                   (App.md_content md) pk);
     msg_timestamp := clock (env w) (n_clock (draws w));
     msg_status := "sent";
     msg_isRelay := App.md_isRelay md |}.

Definition relay_built (w : World) (i : Identity) (p : Profile) (recipient : Connection)
    (pk : string) (md : App.MessageData) : Relay :=
  {| relay_id := uuid_v4 (env w) (S (n_uuid (draws w)));
     relay_messageId := uuid_v4 (env w) (n_uuid (draws w));
     relay_originalSenderId := did i;
     relay_originalSenderName := firstName p ++ " " ++ lastName p;
     relay_targetRecipientId := conn_did recipient;
     relay_targetRecipientName :=
       App.in_template (conn_firstName recipient) ++ " "
       ++ App.in_template (conn_lastName recipient);
     relay_encryptedContent :=
       Crypto.encryptMessage (random_salt (env w) (n_salt (draws w))) (App.md_content md) pk;
     relay_timestamp := clock (env w) (S (n_clock (draws w)));
     relay_status := "pending" |}.

(** The payload [generateAnswerQRCode] reads is there whenever the stage
    is ANSWER_CREATED. *)
Definition answer_ready (w : World) : Prop :=
  connectionStage (connect w) = ANSWER_CREATED →
  ∃ did, Js.prop (connectionData (connect w)) "did" = Ok did.

(** The invariant, once there, stays. *)
Definition keeps_answer_ready (w w' : World) : Prop :=
  answer_ready w → answer_ready w'.

(** A stage other than ANSWER_CREATED stays one. *)
Definition keeps_unanswered (w w' : World) : Prop :=
  connectionStage (connect w) ≠ ANSWER_CREATED →
  connectionStage (connect w') ≠ ANSWER_CREATED.

(** No relation between the two worlds: [returns any_world m] says that
    [m] throws nothing. *)
Definition any_world (w w' : World) : Prop := True.

(** [state.connections] lists every stored connection once, and nothing
    else. *)
Definition connections_mirrored (w : World) : Prop :=
  NoDup (connections (state w))
  ∧ ∀ c, c ∈ connections (state w) ↔ ∃ k, store_connections (db w) !! k = Some c.

(** The invariant of the connections: the store sound and the list its
    mirror; once there, it stays. *)
Definition keeps_mirror (w w' : World) : Prop :=
  store_sound w ∧ connections_mirrored w → store_sound w' ∧ connections_mirrored w'.

End notions.

Section handshake_notions.
Context `{DateLib}.

(** The payload of the code a device shows for the offer of [p], made at
    [now] with the session description of type [t] and text [s]. *)
Definition offer_payload (p : Profile) (now : Z) (t s : string) : json :=
  Connect.connection_qr_json (Some (Connect.offerConnectionData p now))
                             (Some (WebRTC.description t s)).

(** The payload of the code the other device shows in answer to the
    offer of [p]. *)
Definition answer_payload (p : Profile) (t s : string) (now : Z) : json :=
  Connect.answer_qr_json (Some (JStr (did (profile_identity p))))
                         (Some (WebRTC.description t s)) now.

End handshake_notions.

(** ** A concrete installation

    Alice's device, which has met Bob once and holds a relay for him,
    run on the model of the built-ins.  The clock advances by one
    millisecond at every reading. *)

Module Example.
Import Reference.

Definition alice_identity : Identity :=
  {| did := "did:cc:alice";
     publicKey := SHA256_hex "a11ce";
     privateKey := "a11ce";
     created := "2025-01-01T00:00:00.000Z" |}.

Definition alice : Profile :=
  {| profile_id := "p-alice";
     firstName := "Alice";
     lastName := "Smith";
     nickname := None;
     bio := Some "hello";
     profilePicture := None;
     profile_identity := alice_identity;
     profile_created := 1735689600000;
     profile_updated := 1735689600000 |}.

Definition bob : Connection :=
  {| conn_id := "c-bob";
     conn_did := "did:cc:bob";
     conn_publicKey := Some "pk-bob";
     conn_firstName := Some "Bob";
     conn_lastName := Some "Jones";
     conn_nickname := Some "Bobby";
     conn_bio := None;
     conn_profilePicture := Some "picture-1";
     conn_firstConnected := 1740000000000;
     conn_lastConnected := 1740000000000;
     conn_expiresOn := next_year 1740000000000;
     conn_connectionCount := 1;
     conn_backupData := AES_encrypt "salt-0" "{}" (SHA256_hex "a11ce") |}.

(** A relay Alice holds for Bob, and one she holds for Carol. *)
Definition relay_for_bob : Relay :=
  {| relay_id := "r-1";
     relay_messageId := "m-1";
     relay_originalSenderId := "did:cc:alice";
     relay_originalSenderName := "Alice Smith";
     relay_targetRecipientId := "did:cc:bob";
     relay_targetRecipientName := "Bob Jones";
     relay_encryptedContent := AES_encrypt "salt-1" "see you" "pk-bob";
     relay_timestamp := 1750000000000;
     relay_status := "pending" |}.

Definition relay_for_carol : Relay :=
  {| relay_id := "r-2";
     relay_messageId := "m-2";
     relay_originalSenderId := "did:cc:alice";
     relay_originalSenderName := "Alice Smith";
     relay_targetRecipientId := "did:cc:carol";
     relay_targetRecipientName := "Carol King";
     relay_encryptedContent := AES_encrypt "salt-2" "hi" "pk-carol";
     relay_timestamp := 1750000000001;
     relay_status := "pending" |}.

Definition environment : Env :=
  {| clock := λ n, (1762108020123 + Z.of_nat n)%Z;
     uuid_v4 := λ n, "uuid-" ++ decimal (Z.of_nat n);
     random_salt := λ n, "salt-" ++ decimal (Z.of_nat n);
     channel_open := λ _, true;
     send_succeeds := λ _, true;
     rtc_accepts := λ _, true |}.

(** Alice has shown her offer: [connectionData] is her own payload. *)
Definition world : World :=
  {| env := environment;
     draws := mkDraws 0 0 0 0;
     db := {| db_open := true;
              store_connections := {[ "c-bob" := bob ]};
              store_messages := ∅;
              store_relays := {[ "r-1" := relay_for_bob; "r-2" := relay_for_carol ]} |};
     state := {| initialized := true;
                 profile := Some alice;
                 identity := Some alice_identity;
                 connections := [bob];
                 messages_received := [];
                 messages_sent := [];
                 messages_relays := [relay_for_bob; relay_for_carol] |};
     connect := {| scannerActive := true;
                   scannerStream := true;
                   qrCheckInterval := true;
                   connectionStage := OFFER_CREATED;
                   stage_history := [INIT; OFFER_CREATED];
                   connectionData := Some (Connect.offerConnectionData alice 1762108000000);
                   localDescription := Some (JObj [("type", JStr "offer"); ("sdp", JStr "v=0")]);
                   remoteDescription := None;
                   answerQrCode := None |};
     rtc := {| peerConnection := true; sent := [] |};
     ui := {| console_errors := [];
              alerts := [];
              instructions := None;
              confirmation := None;
              location_href := None |} |}.

(** Bob's payload at a second handshake: a new first name, an empty last
    name, no nickname, no picture. *)
Definition bob_again : ConnectionData :=
  {| cd_did := Some "did:cc:bob";
     cd_publicKey := Some "pk-bob-2";
     cd_profile := Some {| peer_firstName := Some "Robert";
                           peer_lastName := Some "";
                           peer_nickname := None;
                           peer_bio := Some "new bio" |};
     cd_profilePicture := None |}.

(** Carol's payload at a first handshake. *)
Definition carol_first : ConnectionData :=
  {| cd_did := Some "did:cc:carol";
     cd_publicKey := Some "pk-carol";
     cd_profile := Some {| peer_firstName := Some "Carol";
                           peer_lastName := Some "King";
                           peer_nickname := Some "";
                           peer_bio := Some "" |};
     cd_profilePicture := None |}.

(** The fields of the offer payload Alice's device holds. *)
Definition alice_offer : list (string * json) :=
  [("type", JStr "connection"); ("did", JStr "did:cc:alice");
   ("publicKey", JStr "sha256:a11ce");
   ("profile",
    JObj [("firstName", JStr "Alice"); ("lastName", JStr "Smith");
          ("nickname", JStr ""); ("bio", JStr "hello");
          ("profilePicture", JBool false)]);
   ("timestamp", JStr "2025-11-02T18:26:40.000Z")].

(** The profile message Bob's device sends. *)
Definition bob_profile_message : ProfileMsg :=
  {| pm_profile := {| peer_firstName := Some "Bob"; peer_lastName := Some "Jones";
                      peer_nickname := Some "Bobby"; peer_bio := Some "" |};
     pm_did := Some "did:cc:bob";
     pm_publicKey := Some "pk-bob" |}.

(** The answer Bob's device shows: it repeats the did of the offer it
    answers; and an answer that names another did. *)
Definition answer_of (did : string) : list (string * json) :=
  [("type", JStr "connection_answer");
   ("did", JStr did);
   ("webrtc", JObj [("type", JStr "answer"); ("sdp", JStr "v=0")]);
   ("timestamp", JStr "2025-11-02T18:27:30.000Z")].

(** Scanned texts: a payload of a type the scanner does not handle, and
    an onboarding address. *)
Definition code_of_other_type : string :=
  stringify (JObj [("type", JStr "profile"); ("did", JStr "did:cc:bob")]).

Definition onboarding_url : string :=
  "https://currentcircle.example/?type=onboarding&did=did%3Acc%3Abob&pubKey=pk-bob&name=Bob+Jones&referrer=p-bob".

(** A message for Alice sealed under a key that is not hers, and one
    sealed under her public key, as [App.createMessage] does. *)
Definition garbled : Message :=
  {| msg_id := "m-9";
     msg_senderId := Some "did:cc:bob";
     msg_senderName := Some "Bob Jones";
     msg_recipientId := Some "did:cc:alice";
     msg_recipientName := Some "Alice Smith";
     msg_content := None;
     msg_encrypted := Some (AES_encrypt "salt-9" "secret" "not-her-key");
     msg_timestamp := 1762000000000;
     msg_status := "sent";
     msg_isRelay := false |}.

Definition from_bob : Message :=
  {| msg_id := "m-10";
     msg_senderId := Some "did:cc:bob";
     msg_senderName := Some "Bob Jones";
     msg_recipientId := Some "did:cc:alice";
     msg_recipientName := Some "Alice Smith";
     msg_content := None;
     msg_encrypted := Some (Crypto.encryptMessage "salt-10" "hello Alice" (publicKey alice_identity));
     msg_timestamp := 1762000000001;
     msg_status := "sent";
     msg_isRelay := false |}.

(** A relay item as it arrives in a [relays] batch. *)
Definition inbound_relay : InboundRelay :=
  {| ir_id := Some "r-7";
     ir_senderId := Some "did:cc:bob";
     ir_senderName := Some "Bob Jones";
     ir_encrypted := Some (Crypto.encryptMessage "salt-7" "via relay" (publicKey alice_identity));
     ir_timestamp := Some 1761000000000%Z |}.

(** Alice has scanned Bob's offer and answered: [connectionData] is Bob's
    payload, and the channel is open. *)
Definition bob_offer : json :=
  JObj [("type", JStr "connection");
        ("did", JStr "did:cc:bob");
        ("publicKey", JStr "pk-bob");
        ("profile", JObj [("firstName", JStr "Bob"); ("lastName", JStr "Jones");
                          ("nickname", JStr "Bobby"); ("bio", JStr "");
                          ("profilePicture", JBool false)]);
        ("timestamp", JStr "2025-11-02T18:26:00.000Z");
        ("webrtc", JObj [("type", JStr "offer"); ("sdp", JStr "v=0")])].

Definition world_answering : World :=
  with_connect (λ c, mkConnect false false false CONNECTED
                               [INIT; SCANNING; OFFER_SCANNED; ANSWER_CREATED; CONNECTED]
                               (Some bob_offer)
                               (Some (JObj [("type", JStr "answer"); ("sdp", JStr "v=0")]))
                               (Some (JObj [("type", JStr "offer"); ("sdp", JStr "v=0")]))
                               None) world.

(** What Bob's device sends in the session. *)
Definition from_bob_device : list DataMsg :=
  [DProfile bob_profile_message None 1762108021000;
   DConnections [] 1762108021500;
   DMessages [] 1762108022000;
   DRelays [] 1762108022500;
   DComplete 1762108023000].

(** Carol as a stored connection that expired in 2024, and Alice's
    device holding her record beside Bob's. *)
Definition carol_expired : Connection :=
  {| conn_id := "c-carol";
     conn_did := "did:cc:carol";
     conn_publicKey := Some "pk-carol";
     conn_firstName := Some "Carol";
     conn_lastName := Some "King";
     conn_nickname := None;
     conn_bio := None;
     conn_profilePicture := None;
     conn_firstConnected := 1690000000000;
     conn_lastConnected := 1690000000000;
     conn_expiresOn := 1721536000000;
     conn_connectionCount := 1;
     conn_backupData := AES_encrypt "salt-3" "{}" (SHA256_hex "a11ce") |}.


(** What Alice composes: a message for Bob to be relayed, and one for an
    id that is no connection of hers. *)
Definition note_for_bob : App.MessageData :=
  {| App.md_recipientId := "c-bob";
     App.md_content := "see you soon";
     App.md_isRelay := true |}.

Definition note_for_nobody : App.MessageData :=
  {| App.md_recipientId := "c-nobody";
     App.md_content := "anyone there?";
     App.md_isRelay := false |}.

(** Bob's own device before a handshake, and the two browsers: each
    builds its local description and takes the candidates it is given. *)
Definition bob_identity : Identity :=
  {| did := "did:cc:bob";
     publicKey := SHA256_hex "b0b";
     privateKey := "b0b";
     created := "2025-02-01T00:00:00.000Z" |}.

Definition bob_profile : Profile :=
  {| profile_id := "p-bob";
     firstName := "Bob";
     lastName := "Jones";
     nickname := Some "Bobby";
     bio := None;
     profilePicture := None;
     profile_identity := bob_identity;
     profile_created := 1738368000000;
     profile_updated := 1738368000000 |}.

Definition bob_device : World :=
  {| env := environment;
     draws := mkDraws 0 0 0 0;
     db := {| db_open := true;
              store_connections := ∅;
              store_messages := ∅;
              store_relays := ∅ |};
     state := {| initialized := true;
                 profile := Some bob_profile;
                 identity := Some bob_identity;
                 connections := [];
                 messages_received := [];
                 messages_sent := [];
                 messages_relays := [] |};
     connect := {| scannerActive := true;
                   scannerStream := true;
                   qrCheckInterval := false;
                   connectionStage := SCANNING;
                   stage_history := [INIT; SCANNING];
                   connectionData := None;
                   localDescription := None;
                   remoteDescription := None;
                   answerQrCode := None |};
     rtc := {| peerConnection := false; sent := [] |};
     ui := {| console_errors := [];
              alerts := [];
              instructions := None;
              confirmation := None;
              location_href := None |} |}.

Definition offering : WebRTC.Browser :=
  {| WebRTC.creates := Ok ("offer", "v=0 a"); WebRTC.takes_candidate := true |}.

Definition answering : WebRTC.Browser :=
  {| WebRTC.creates := Ok ("answer", "v=0 b"); WebRTC.takes_candidate := true |}.


End Example.

(** * Properties *)

(** ** Encryption and identity export *)

Section crypto_facts.
Context `{CryptoJS} `{JSON}.

Lemma append_cancel_l (p a b : string) : p ++ a = p ++ b → a = b.
Proof.
  induction p as [|c p IH]; simpl; [done|].
  intros Heq. injection Heq as Heq. auto.
Qed.

(** [decryptMessage] has a [try] around its whole body: it returns, a
    string or [null]. *)
Lemma decryptMessage_returns (c : option ciphertext) (key : string) :
  ∃ v, Crypto.decryptMessage c key = Ok v.
Proof.
  unfold Crypto.decryptMessage.
  destruct (Crypto.AES_decrypt_value c key); simpl; eauto.
Qed.


(** What was encrypted under a key string is decrypted by that same
    string. *)
Lemma decryptMessage_same_key (salt m key : string) :
  AES_correct →
  Crypto.decryptMessage (Some (Crypto.encryptMessage salt m key)) key = Ok (Some m).
Proof.
  intros Hc. unfold Crypto.decryptMessage, Crypto.encryptMessage. simpl.
  by rewrite Hc.
Qed.

(** C1, on the code: a message encrypted under the public key of a
    generated pair is not decrypted by the pair's private key.  The pair
    is [(SHA256(r), r)] and the cipher is keyed by its passphrase, so the
    private key opens only what was encrypted under the private key
    itself: whenever the two keys differ, and for a cipher that gives the
    text to no passphrase but the one of the encryption, decryption under
    the private key does not give the message back. *)
Theorem keypair_roundtrip_fails (random salt m : string) :
  AES_keyed →
  SHA256_hex random ≠ random →
  let pair := Crypto.generateKeyPair random in
  Crypto.decryptMessage (Some (Crypto.encryptMessage salt m (kp_publicKey pair)))
                        (kp_privateKey pair) ≠ Ok (Some m).
Proof.
  intros Hkeyed Hne pair Hdec.
  unfold Crypto.decryptMessage, Crypto.encryptMessage in Hdec. simpl in Hdec.
  destruct (AES_decrypt_utf8 _ _) as [s|e] eqn:Hs; simpl in Hdec; [|discriminate].
  injection Hdec as ->.
  by apply (Hkeyed salt m (SHA256_hex random) random).
Qed.

Lemma read_identity_json (i : Identity) : Crypto.read_identity (Crypto.identity_json i) = Some i.
Proof. by destruct i. Qed.

(** [importIdentity] returns, an object or [null]. *)
Lemma importIdentity_returns (c : ciphertext) (password : string) :
  ∃ v, Crypto.importIdentity c password = Ok v.
Proof.
  unfold Crypto.importIdentity.
  destruct (AES_decrypt_utf8 c _) as [s|e]; simpl; [|eauto].
  destruct (JSON_parse s); simpl; eauto.
Qed.

(** C9: importing what [exportIdentity] produced under the same password
    gives the identity's object back; under any other password the import
    returns [null]; and no call of [importIdentity] throws.  Both
    functions key the cipher with [SALT ++ password].  The cipher is
    assumed correct, and to decrypt to nothing that parses as JSON under
    another passphrase; [JSON.parse] is assumed to read back what
    [JSON.stringify] wrote for this identity. *)
Theorem importIdentity_exportIdentity (identity : Identity) (password salt : string) :
  AES_correct →
  AES_wrong_key_garbles →
  JSON_parse (JSON_stringify (Crypto.identity_json identity)) = Ok (Crypto.identity_json identity) →
  Crypto.importIdentity (Crypto.exportIdentity salt identity password) password
    = Ok (Crypto.identity_json identity)
  ∧ Crypto.read_identity (Crypto.identity_json identity) = Some identity
  ∧ (∀ wrong, wrong ≠ password →
       Crypto.importIdentity (Crypto.exportIdentity salt identity password) wrong = Ok JNull)
  ∧ (∀ c p, ∃ v, Crypto.importIdentity c p = Ok v).
Proof.
  intros Hc Hg Hj. repeat split.
  - unfold Crypto.importIdentity, Crypto.exportIdentity. rewrite Hc. simpl. by rewrite Hj.
  - apply read_identity_json.
  - intros wrong Hw. unfold Crypto.importIdentity, Crypto.exportIdentity.
    destruct (AES_decrypt_utf8 _ (Crypto.SALT ++ wrong)) as [s|e] eqn:Hs; simpl; [|done].
    destruct (Hg _ _ _ _ _ (λ Heq, Hw (eq_sym (append_cancel_l _ _ _ Heq))) Hs) as [e ->].
    done.
  - apply importIdentity_returns.
Qed.

End crypto_facts.

(** ** The connections store *)

Section connection_facts.
Context `{CryptoJS} `{JSON} `{DateLib}.

Lemma with_db_same (w : World) : with_db (λ _, db w) w = w.
Proof. by destruct w. Qed.

Lemma getConnectionByDID_found (w : World) (k d : string) (c : Connection) :
  db_open (db w) = true →
  DB.did_unique (store_connections (db w)) →
  store_connections (db w) !! k = Some c →
  conn_did c = d →
  DB.getConnectionByDID (Some d) w = (Ok (Some c), w).
Proof.
  intros Hopen Huniq Hk Hd.
  unfold DB.getConnectionByDID, DB.transaction. rewrite Hopen.
  destruct (list_find _ _) as [[n [k' c']]|] eqn:Hfind; simpl.
  - apply list_find_Some in Hfind as (Hn & Hd' & _).
    apply list_elem_of_lookup_2, elem_of_map_to_list in Hn. simpl in Hd'.
    assert (k' = k) as -> by (eapply Huniq; eauto; congruence).
    rewrite with_db_same. congruence.
  - apply list_find_None in Hfind.
    rewrite Forall_forall in Hfind.
    exfalso. apply (Hfind (k, c)); [|done].
    by apply elem_of_map_to_list.
Qed.

Lemma getConnectionByDID_fresh (w : World) (d : string) :
  db_open (db w) = true →
  (∀ k c, store_connections (db w) !! k = Some c → conn_did c ≠ d) →
  DB.getConnectionByDID (Some d) w = (Ok None, w).
Proof.
  intros Hopen Hfresh.
  unfold DB.getConnectionByDID, DB.transaction. rewrite Hopen.
  destruct (list_find _ _) as [[n [k' c']]|] eqn:Hfind; simpl.
  - apply list_find_Some in Hfind as (Hn & Hd' & _).
    apply list_elem_of_lookup_2, elem_of_map_to_list in Hn.
    by destruct (Hfresh _ _ Hn).
  - by rewrite with_db_same.
Qed.

Lemma saveConnection_ok (w : World) (c : Connection) :
  db_open (db w) = true →
  DB.did_free c (store_connections (db w)) →
  DB.saveConnection c w =
    (Ok tt, with_db (λ d, mkDB (db_open d) (<[conn_id c := c]> (store_connections d))
                               (store_messages d) (store_relays d)) w).
Proof.
  intros Hopen Hfree. unfold DB.saveConnection, DB.transaction.
  rewrite Hopen. rewrite bool_decide_eq_true_2; [|exact Hfree].
  unfold with_db; cbn. by rewrite Hopen.
Qed.

(** The record found under its [did] can be put back: the index holds
    that [did] for no other [id]. *)
Lemma did_free_stored (store : gmap string Connection) (k : string) (c : Connection) :
  DB.store_keyed store → DB.did_unique store → store !! k = Some c →
  DB.did_free c store.
Proof.
  intros Hkeyed Huniq Hk k' c' Hk' Hd.
  rewrite (Hkeyed _ _ Hk). eauto.
Qed.

(** What a successful [updateExistingConnection] returns and leaves. *)
Lemma updateExistingConnection_run (w : World) (existing : Connection)
    (newData : ConnectionData) (p : Profile) (i : Identity) (pp : PeerProfile) :
  profile (state w) = Some p →
  identity (state w) = Some i →
  db_open (db w) = true →
  cd_profile newData = Some pp →
  DB.did_free existing (store_connections (db w)) →
  let n := n_clock (draws w) in
  let updated :=
    App.updatedConnection existing newData pp
      (clock (env w) (S n)) (setFullYear_next (clock (env w) n))
      (Crypto.createBackupData (clock (env w) (S (S n)))
                               (random_salt (env w) (n_salt (draws w))) p i) in
  ∃ w', App.updateExistingConnection existing newData w = (Ok updated, w')
    ∧ store_connections (db w') = <[conn_id existing := updated]> (store_connections (db w))
    ∧ store_messages (db w') = store_messages (db w)
    ∧ store_relays (db w') = store_relays (db w)
    ∧ connections (state w') = App.replace_connection updated (connections (state w))
    ∧ messages_received (state w') = messages_received (state w)
    ∧ messages_relays (state w') = messages_relays (state w)
    ∧ connect w' = connect w ∧ rtc w' = rtc w ∧ ui w' = ui w.
Proof.
  intros Hp Hi Hdb Hpp Hfree n updated.
  unfold App.updateExistingConnection, App.profile_of, App.createBackupData_of_state.
  rewrite Hpp.
  unfold bind, new_Date, ret, get_world. cbn -[DB.saveConnection].
  rewrite Hp, Hi. cbn -[DB.saveConnection].
  rewrite saveConnection_ok by done.
  eexists. split; [reflexivity|]. cbn. done.
Qed.

(** What [addConnection] returns and leaves for a did the store does not
    hold. *)
Lemma addConnection_fresh_run (w : World) (newData : ConnectionData) (d : string)
    (p : Profile) (i : Identity) (pp : PeerProfile) :
  profile (state w) = Some p →
  identity (state w) = Some i →
  db_open (db w) = true →
  cd_did newData = Some d →
  cd_profile newData = Some pp →
  (∀ k c, store_connections (db w) !! k = Some c → conn_did c ≠ d) →
  let n := n_clock (draws w) in
  let created :=
    App.newConnection (uuid_v4 (env w) (n_uuid (draws w))) d newData pp
      (clock (env w) (S n)) (clock (env w) (S (S n))) (setFullYear_next (clock (env w) n))
      (Crypto.createBackupData (clock (env w) (S (S (S n))))
                               (random_salt (env w) (n_salt (draws w))) p i) in
  ∃ w', App.addConnection newData w = (Ok created, w')
    ∧ store_connections (db w') = <[conn_id created := created]> (store_connections (db w))
    ∧ connections (state w') = (connections (state w) ++ [created])%list
    ∧ store_relays (db w') = store_relays (db w)
    ∧ messages_relays (state w') = messages_relays (state w)
    ∧ connect w' = connect w ∧ rtc w' = rtc w ∧ ui w' = ui w.
Proof.
  intros Hp Hi Hdb Hdid Hpp Hfresh n created.
  unfold App.addConnection, try_catch. unfold bind at 1. rewrite Hdid.
  rewrite (getConnectionByDID_fresh w d) by done.
  unfold App.createNewConnection, App.profile_of, App.createBackupData_of_state.
  rewrite Hpp, Hdid.
  unfold bind, new_Date, uuid_v4_call, ret, get_world. cbn -[DB.saveConnection].
  rewrite Hp, Hi. cbn -[DB.saveConnection].
  rewrite saveConnection_ok; [|done|].
  - eexists. split; [reflexivity|]. cbn. done.
  - intros k c Hk Hd. cbn in Hk, Hd. by destruct (Hfresh _ _ Hk).
Qed.

(** X2: a first handshake with a did the store does not hold creates the
    one record of that did, under a fresh uuid, with count 1; its expiration
    is one year after the first reading of the clock, firstConnected and
    lastConnected are the second and the third. *)
Theorem addConnection_first (w : World) (newData : ConnectionData) (d : string)
    (p : Profile) (i : Identity) (pp : PeerProfile) :
  profile (state w) = Some p →
  identity (state w) = Some i →
  db_open (db w) = true →
  cd_did newData = Some d →
  cd_profile newData = Some pp →
  (∀ k c, store_connections (db w) !! k = Some c → conn_did c ≠ d) →
  let n := n_clock (draws w) in
  ∃ created w',
    App.addConnection newData w = (Ok created, w')
    ∧ conn_id created = uuid_v4 (env w) (n_uuid (draws w))
    ∧ store_connections (db w') = <[conn_id created := created]> (store_connections (db w))
    ∧ connections (state w') = (connections (state w) ++ [created])%list
    ∧ conn_did created = d
    ∧ conn_connectionCount created = 1%Z
    ∧ conn_expiresOn created = setFullYear_next (clock (env w) n)
    ∧ conn_firstConnected created = clock (env w) (S n)
    ∧ conn_lastConnected created = clock (env w) (S (S n))
    ∧ (∀ k c, store_connections (db w') !! k = Some c → conn_did c = d → c = created).
Proof.
  intros Hp Hi Hdb Hdid Hpp Hfresh n.
  destruct (addConnection_fresh_run w newData d p i pp Hp Hi Hdb Hdid Hpp Hfresh)
    as (w' & Hrun & Hstore & Hconns & _).
  eexists _, w'. split; [exact Hrun|].
  rewrite Hstore, Hconns. cbn. repeat split.
  intros k c Hk Hd.
  destruct (decide (uuid_v4 (env w) (n_uuid (draws w)) = k)) as [<-|Hne].
  - rewrite lookup_insert_eq in Hk. by injection Hk.
  - rewrite lookup_insert_ne in Hk by done. by destruct (Hfresh _ _ Hk).
Qed.


(** C10: a successful update returns and stores, under the existing
    record's id, a record with the id, the did and the firstConnected of
    the existing one, and with its profile picture when the payload
    carries none.  The update succeeds when the app has its profile and
    identity, the database is open, the payload has a profile object and
    no other record holds the did. *)
Theorem updateExistingConnection_frame (w : World) (existing : Connection)
    (newData : ConnectionData) (p : Profile) (i : Identity) (pp : PeerProfile) :
  profile (state w) = Some p →
  identity (state w) = Some i →
  db_open (db w) = true →
  cd_profile newData = Some pp →
  DB.did_free existing (store_connections (db w)) →
  ∃ updated w',
    App.updateExistingConnection existing newData w = (Ok updated, w')
    ∧ store_connections (db w') !! conn_id existing = Some updated
    ∧ conn_id updated = conn_id existing
    ∧ conn_did updated = conn_did existing
    ∧ conn_firstConnected updated = conn_firstConnected existing
    ∧ (Js.truthy_str (cd_profilePicture newData) = false →
       conn_profilePicture updated = conn_profilePicture existing).
Proof.
  intros Hp Hi Hdb Hpp Hfree.
  destruct (updateExistingConnection_run w existing newData p i pp Hp Hi Hdb Hpp Hfree)
    as (w' & Hrun & Hstore & _).
  eexists _, w'. split; [exact Hrun|].
  split; [by rewrite Hstore, lookup_insert_eq|].
  cbn. repeat split. by intros ->.
Qed.


End connection_facts.

(** ** Received messages *)

Section message_facts.
Context `{CryptoJS} `{JSON} `{DateLib}.

Lemma list_find_known (id : string) (l : list Message) :
  is_Some (list_find (λ m, msg_id m = id) l) ↔ known id l.
Proof.
  split.
  - intros [[n m] Hf]. apply list_find_Some in Hf as (Hn & Hid & _).
    exists m. split; [|done]. by eapply list_elem_of_lookup_2.
  - intros (m & Hin & Hid). by eapply list_find_elem_of.
Qed.

Lemma saveMessage_ok (w : World) (m : Message) :
  db_open (db w) = true →
  DB.saveMessage m w =
    (Ok tt, with_db (λ d, mkDB (db_open d) (store_connections d)
                               (<[msg_id m := m]> (store_messages d)) (store_relays d)) w).
Proof.
  intros Hopen. unfold DB.saveMessage, DB.transaction.
  rewrite Hopen. unfold with_db; cbn. by rewrite Hopen.
Qed.

Lemma receive_message_known (w : World) (m : Message) :
  known (msg_id m) (messages_received (state w)) →
  App.receive_message m w = (Ok tt, w).
Proof.
  intros Hk. apply list_find_known in Hk as [x Hx].
  unfold App.receive_message, bind, get_world. by rewrite Hx.
Qed.

Lemma receive_message_new (w : World) (m : Message) (i : Identity) :
  identity (state w) = Some i →
  db_open (db w) = true →
  ¬ known (msg_id m) (messages_received (state w)) →
  ∃ w', App.receive_message m w = (Ok tt, w')
    ∧ store_messages (db w') = <[msg_id m := kept (privateKey i) m]> (store_messages (db w))
    ∧ messages_received (state w') = (messages_received (state w) ++ [kept (privateKey i) m])%list
    ∧ identity (state w') = Some i
    ∧ db_open (db w') = true
    ∧ store_relays (db w') = store_relays (db w)
    ∧ connect w' = connect w ∧ rtc w' = rtc w ∧ ui w' = ui w.
Proof.
  intros Hi Hopen Hnew.
  unfold App.receive_message, bind, get_world.
  destruct (list_find _ _) as [x|] eqn:Hx.
  { destruct Hnew. apply list_find_known. by rewrite Hx. }
  unfold App.privateKey_of_state, bind, get_world. rewrite Hi. cbn.
  destruct (decryptMessage_returns (msg_encrypted m) (privateKey i)) as [c Hc].
  unfold kept. rewrite Hc. cbn.
  rewrite saveMessage_ok by done. cbn.
  eexists. split; [reflexivity|]. cbn. by rewrite Hi, Hopen.
Qed.

Lemma known_app (id : string) (l1 l2 : list Message) :
  known id (l1 ++ l2)%list ↔ known id l1 ∨ known id l2.
Proof.
  unfold known. split.
  - intros (m & Hin & Hid). apply elem_of_app in Hin as [?|?]; eauto.
  - intros [(m & Hin & Hid)|(m & Hin & Hid)]; exists m; rewrite elem_of_app; eauto.
Qed.

Lemma known_dec (id : string) (l : list Message) : Decision (known id l).
Proof.
  destruct (list_find (λ m, msg_id m = id) l) eqn:Hf.
  - left. apply list_find_known. by rewrite Hf.
  - right. intros Hk. apply list_find_known in Hk as [? Hk]. congruence.
Qed.

(** The loop of [processReceivedMessages] runs through the whole batch,
    whatever the decryptions give. *)
Lemma receive_loop (messages : list Message) (w : World) (i : Identity) :
  identity (state w) = Some i →
  db_open (db w) = true →
  ∃ w', App.for_of messages App.receive_message w = (Ok tt, w')
    ∧ identity (state w') = Some i
    ∧ db_open (db w') = true
    ∧ (∀ m, m ∈ messages_received (state w) → m ∈ messages_received (state w'))
    ∧ (∀ id, known id (messages_received (state w)) →
         store_messages (db w') !! id = store_messages (db w) !! id)
    ∧ (∀ id, known id (messages_received (state w')) →
         known id (messages_received (state w)) ∨ known id messages)
    ∧ (∀ m, m ∈ messages → known (msg_id m) (messages_received (state w')))
    ∧ store_relays (db w') = store_relays (db w)
    ∧ connect w' = connect w ∧ rtc w' = rtc w ∧ ui w' = ui w.
Proof.
  revert w. induction messages as [|m messages IH]; intros w Hi Hopen.
  { exists w. cbn. repeat split; eauto. intros m Hm. by apply elem_of_nil in Hm. }
  cbn [App.for_of]. unfold bind at 1.
  destruct (known_dec (msg_id m) (messages_received (state w))) as [Hk|Hnew].
  - rewrite receive_message_known by done.
    destruct (IH w Hi Hopen) as (w' & Hrun & Hi' & Ho' & Hmono & Hst & Hids & Hall & Hrest).
    exists w'. repeat split; try done; try apply Hrest.
    + intros id Hid. destruct (Hids id Hid) as [?|(x & Hx & Hxid)]; [by left|].
      right. exists x. split; [by right|done].
    + intros x Hx. apply elem_of_cons in Hx as [->|Hx]; [|by apply Hall].
      destruct Hk as (y & Hy & Hyid). exists y. split; [by apply Hmono|done].
  - destruct (receive_message_new w m i Hi Hopen Hnew)
      as (w1 & Hrun1 & Hst1 & Hrec1 & Hi1 & Ho1 & Hr1 & Hc1 & Hrtc1 & Hui1).
    rewrite Hrun1.
    destruct (IH w1 Hi1 Ho1)
      as (w' & Hrun & Hi' & Ho' & Hmono & Hst & Hids & Hall & Hr & Hc & Hrtc & Hui).
    exists w'. split; [done|]. repeat split; try done; try congruence.
    + intros x Hx. apply Hmono. rewrite Hrec1, elem_of_app. by left.
    + intros id Hid. rewrite Hst.
      * rewrite Hst1. apply lookup_insert_ne. intros <-. by apply Hnew.
      * rewrite Hrec1. apply known_app. by left.
    + intros id Hid. destruct (Hids id Hid) as [Hid1|(x & Hx & Hxid)].
      * rewrite Hrec1 in Hid1. apply known_app in Hid1 as [?|(x & Hx & Hxid)]; [by left|].
        right. apply list_elem_of_singleton in Hx as ->. exists m. split; [by left|done].
      * right. exists x. split; [by right|done].
    + intros x Hx. apply elem_of_cons in Hx as [->|Hx]; [|by apply Hall].
      exists (kept (privateKey i) m). split; [|done].
      apply Hmono. rewrite Hrec1, elem_of_app. right. by left.
Qed.


(** A batch whose ids are all in the received list changes nothing. *)
Lemma receive_loop_known (messages : list Message) (w : World) :
  (∀ m, m ∈ messages → known (msg_id m) (messages_received (state w))) →
  App.for_of messages App.receive_message w = (Ok tt, w).
Proof.
  induction messages as [|m messages IH]; intros Hall; [done|].
  cbn [App.for_of]. unfold bind.
  rewrite receive_message_known by (apply Hall; by left).
  apply IH. intros x Hx. apply Hall. by right.
Qed.

(** The loop keeps the ids of the received list distinct. *)
Lemma receive_loop_NoDup (messages : list Message) (w w' : World) (i : Identity) :
  identity (state w) = Some i →
  db_open (db w) = true →
  App.for_of messages App.receive_message w = (Ok tt, w') →
  NoDup (msg_id <$> messages_received (state w)) →
  NoDup (msg_id <$> messages_received (state w')).
Proof.
  revert w. induction messages as [|m messages IH]; intros w Hi Hopen Hrun Hnd.
  { cbn in Hrun. by injection Hrun as <-. }
  cbn [App.for_of] in Hrun. unfold bind in Hrun.
  destruct (known_dec (msg_id m) (messages_received (state w))) as [Hk|Hnew].
  - rewrite receive_message_known in Hrun by done. eauto.
  - destruct (receive_message_new w m i Hi Hopen Hnew)
      as (w1 & Hrun1 & Hst1 & Hrec1 & Hi1 & Ho1 & _).
    rewrite Hrun1 in Hrun. apply (IH w1 Hi1 Ho1 Hrun).
    rewrite Hrec1, fmap_app. apply NoDup_app. split; [done|]. split.
    + intros id Hid Hid'. apply list_elem_of_singleton in Hid' as ->.
      apply list_elem_of_fmap in Hid as (x & Hx & Hin). apply Hnew. by exists x.
    + apply NoDup_singleton.
Qed.

Lemma processReceivedMessages_run (messages : list Message) (w w' : World) :
  App.for_of messages App.receive_message w = (Ok tt, w') →
  App.processReceivedMessages messages w = (Ok (List.length messages), w').
Proof.
  intros Hrun. unfold App.processReceivedMessages, try_catch, bind. by rewrite Hrun.
Qed.


(** X3: on the [messages] path a message is stored once: processing a
    batch again changes nothing, and the ids of the received list stay
    distinct. *)
Theorem processReceivedMessages_idempotent (messages : list Message) (w : World) (i : Identity) :
  identity (state w) = Some i →
  db_open (db w) = true →
  ∃ w',
    App.processReceivedMessages messages w = (Ok (List.length messages), w')
    ∧ App.processReceivedMessages messages w' = (Ok (List.length messages), w')
    ∧ (NoDup (msg_id <$> messages_received (state w)) →
       NoDup (msg_id <$> messages_received (state w'))).
Proof.
  intros Hi Hopen.
  destruct (receive_loop messages w i Hi Hopen) as (w' & Hrun & _ & _ & _ & _ & _ & Hall & _).
  exists w'. split; [by apply processReceivedMessages_run|]. split.
  - apply processReceivedMessages_run. by apply receive_loop_known.
  - by apply (receive_loop_NoDup messages w w' i).
Qed.

End message_facts.

(** ** Frames: what a computation leaves as it is *)

Section frames.
Context `{CryptoJS}.
Context (P : World → World → Prop) `{!PreOrder P}.

Lemma preserves_ret {A : Type} (a : A) : preserves P (ret a).
Proof. intros w. reflexivity. Qed.

Lemma preserves_throw {A : Type} (e : Error) : preserves P (throw (A:=A) e).
Proof. intros w. reflexivity. Qed.

Lemma preserves_lift {A : Type} (r : res A) : preserves P (lift r).
Proof. intros w. reflexivity. Qed.

Lemma preserves_get_world : preserves P get_world.
Proof. intros w. reflexivity. Qed.

Lemma preserves_modify (f : World → World) : (∀ w, P w (f w)) → preserves P (modify f).
Proof. intros Hf w. apply Hf. Qed.

Lemma preserves_bind {A B : Type} (m : M A) (k : A → M B) :
  preserves P m → (∀ a, preserves P (k a)) → preserves P (bind m k).
Proof.
  intros Hm Hk w. unfold bind. specialize (Hm w).
  destruct (m w) as [[a|e] w1]; simpl in *; [|done].
  etransitivity; [exact Hm|apply Hk].
Qed.

Lemma preserves_try_catch {A : Type} (body : M A) (handler : Error → M A) :
  preserves P body → (∀ e, preserves P (handler e)) → preserves P (try_catch body handler).
Proof.
  intros Hm Hk w. unfold try_catch. specialize (Hm w).
  destruct (body w) as [[a|e] w1]; simpl in *; [done|].
  etransitivity; [exact Hm|apply Hk].
Qed.

Lemma preserves_for_of {A : Type} (xs : list A) (body : A → M unit) :
  (∀ x, preserves P (body x)) → preserves P (App.for_of xs body).
Proof.
  intros Hb. induction xs as [|x xs IH]; cbn [App.for_of].
  - apply preserves_ret.
  - apply preserves_bind; [apply Hb|by intros _].
Qed.

End frames.

Create HintDb frame.

(** One step on a goal [preserves P m]: a known fact about [m], the rule
    of [m]'s outermost construct, a case split on what [m] branches on,
    or the definition of [m]. *)
Ltac frame_step :=
  first
    [ solve [eauto 3 with frame]
    | apply preserves_ret; solve [typeclasses eauto]
    | apply preserves_throw; solve [typeclasses eauto]
    | apply preserves_lift; solve [typeclasses eauto]
    | apply preserves_get_world; solve [typeclasses eauto]
    | apply preserves_bind; [solve [typeclasses eauto]| |intros ?]
    | apply preserves_try_catch; [solve [typeclasses eauto]| |intros ?]
    | apply preserves_for_of; [solve [typeclasses eauto]|intros ?]
    | match goal with
      | |- preserves _ (match ?x with _ => _ end) => destruct x
      | |- preserves _ (?f _ _ _) => unfold f
      | |- preserves _ (?f _ _) => unfold f
      | |- preserves _ (?f _) => unfold f
      | |- preserves _ ?f => unfold f
      end ].

Ltac frame := repeat frame_step.

Section relay_frame.
Context `{CryptoJS} `{JSON} `{DateLib}.

Lemma same_relays_preorder : PreOrder same_relays.
Proof.
  split.
  - by intros w.
  - intros a b c [? ?] [? ?]. split; congruence.
Qed.

Lemma keeps_relays_step {A : Type} (m : M A) :
  (∀ w, store_relays (db (m w).2) = store_relays (db w)
        ∧ messages_relays (state (m w).2) = messages_relays (state w)) →
  preserves same_relays m.
Proof. intros Hm w. apply Hm. Qed.

Lemma transaction_keeps_relays {A : Type} (callback : DBState → res (A * DBState)) :
  (∀ d a d', callback d = Ok (a, d') → store_relays d' = store_relays d) →
  preserves same_relays (DB.transaction callback).
Proof.
  intros Hc. apply keeps_relays_step. intros w. unfold DB.transaction.
  destruct (db_open _); [|done].
  destruct (callback _) as [[a d']|e] eqn:Hcb; [|done].
  split; [|done]. cbn. eauto.
Qed.

Lemma saveConnection_keeps_relays c : preserves same_relays (DB.saveConnection c).
Proof.
  apply transaction_keeps_relays. intros d a d'. case_bool_decide; [|done].
  by intros [= _ <-].
Qed.

Lemma getConnectionByDID_keeps_relays d : preserves same_relays (DB.getConnectionByDID d).
Proof.
  apply transaction_keeps_relays. intros db0 a d'. destruct d; [|done].
  by intros [= _ <-].
Qed.

Lemma saveMessage_keeps_relays m : preserves same_relays (DB.saveMessage m).
Proof. apply transaction_keeps_relays. intros d a d'. by intros [= _ <-]. Qed.

Lemma sendData_keeps_relays d : preserves same_relays (WebRTC.sendData d).
Proof.
  apply keeps_relays_step. intros w. unfold WebRTC.sendData.
  destruct (channel_open _ _); [destruct (send_succeeds _ _)|]; done.
Qed.

End relay_frame.

#[global] Existing Instance same_relays_preorder.
#[global] Hint Resolve saveConnection_keeps_relays getConnectionByDID_keeps_relays
  saveMessage_keeps_relays sendData_keeps_relays : frame.
#[global] Hint Extern 2 (preserves same_relays _) =>
  solve [apply keeps_relays_step; intros ?; by cbn] : frame.

Section relay_session.
Context `{CryptoJS} `{JSON} `{DateLib}.

Lemma completeConnection_rtc_keeps_relays v :
  preserves same_relays (WebRTC.completeConnection v).
Proof. unfold WebRTC.completeConnection. frame. Qed.

Lemma createBackupData_keeps_relays : preserves same_relays App.createBackupData_of_state.
Proof. unfold App.createBackupData_of_state. frame. Qed.

Lemma createNewConnection_keeps_relays cd : preserves same_relays (App.createNewConnection cd).
Proof.
  pose proof createBackupData_keeps_relays.
  unfold App.createNewConnection, App.profile_of. frame.
Qed.

Lemma updateExistingConnection_keeps_relays c cd :
  preserves same_relays (App.updateExistingConnection c cd).
Proof.
  pose proof createBackupData_keeps_relays.
  unfold App.updateExistingConnection, App.profile_of. frame.
Qed.

Lemma addConnection_keeps_relays cd : preserves same_relays (App.addConnection cd).
Proof.
  pose proof createNewConnection_keeps_relays.
  pose proof updateExistingConnection_keeps_relays.
  unfold App.addConnection. frame.
Qed.

Lemma handleDataExchange_keeps_relays : preserves same_relays Connect.handleDataExchange.
Proof.
  unfold Connect.handleDataExchange, Connect.sendProfileData, Connect.sendConnectionsData,
    Connect.sendMessagesData, Connect.sendRelaysData. frame.
Qed.

Lemma handleConnectionStateChange_keeps_relays s :
  preserves same_relays (Connect.handleConnectionStateChange s).
Proof.
  pose proof handleDataExchange_keeps_relays.
  unfold Connect.handleConnectionStateChange. frame.
Qed.

Lemma resetConnectionState_keeps_relays : preserves same_relays Connect.resetConnectionState.
Proof.
  pose proof handleConnectionStateChange_keeps_relays.
  unfold Connect.resetConnectionState, WebRTC.closeConnection. frame.
Qed.

Lemma completeConnection_keeps_relays : preserves same_relays Connect.completeConnection.
Proof.
  pose proof addConnection_keeps_relays.
  pose proof resetConnectionState_keeps_relays.
  unfold Connect.completeConnection. frame.
Qed.

Lemma handleDataReceived_keeps_relays d : preserves same_relays (Connect.handleDataReceived d).
Proof.
  pose proof completeConnection_keeps_relays.
  unfold Connect.handleDataReceived, Connect.processReceivedProfile,
    Connect.processReceivedConnections, Connect.processReceivedMessages,
    Connect.processReceivedRelays, Connect.acknowledge, Connect.handleTransferComplete.
  frame.
Qed.

(** C3, on the code: a data-exchange session leaves every relay record
    where it is, those addressed to the peer included.  The session sends
    the peer's relays ([sendRelaysData]) and acknowledges what it
    receives; no step of it calls [App.processRelaysForConnection] or
    [DB.deleteRelay]. *)
Theorem session_keeps_relays (inbound : list DataMsg) (w : World) :
  store_relays (db (Connect.session inbound w).2) = store_relays (db w)
  ∧ messages_relays (state (Connect.session inbound w).2) = messages_relays (state w).
Proof.
  pose proof handleDataExchange_keeps_relays.
  pose proof handleDataReceived_keeps_relays.
  assert (preserves same_relays (Connect.session inbound)) as Hs.
  { unfold Connect.session. frame. }
  apply Hs.
Qed.

Lemma handleConnectionOffer_keeps_relays d :
  preserves same_relays (Connect.handleConnectionOffer d).
Proof. unfold Connect.handleConnectionOffer, Connect.showConnectionConfirmation. frame. Qed.

Lemma handleConnectionAnswer_keeps_relays d :
  preserves same_relays (Connect.handleConnectionAnswer d).
Proof.
  pose proof handleDataExchange_keeps_relays.
  pose proof completeConnection_rtc_keeps_relays.
  unfold Connect.handleConnectionAnswer. frame.
Qed.

Lemma processScannedCode_keeps_relays d :
  preserves same_relays (Connect.processScannedCode d).
Proof.
  pose proof handleConnectionOffer_keeps_relays.
  pose proof handleConnectionAnswer_keeps_relays.
  unfold Connect.processScannedCode, Connect.stopScanner. frame.
Qed.

(** X7: no call that reaches [Connect] from the scanner, the transport or
    the dialog, and no sequence of them, changes a relay record. *)
Theorem calls_keep_relays (calls : list Connect.Call) (w : World) :
  store_relays (db (App.for_of calls Connect.call w).2) = store_relays (db w)
  ∧ messages_relays (state (App.for_of calls Connect.call w).2) = messages_relays (state w).
Proof.
  pose proof processScannedCode_keeps_relays.
  pose proof handleConnectionStateChange_keeps_relays.
  pose proof handleDataReceived_keeps_relays.
  pose proof resetConnectionState_keeps_relays.
  assert (preserves same_relays (App.for_of calls Connect.call)) as Hs.
  { apply preserves_for_of; [apply _|]. intros c. destruct c; cbn [Connect.call]; frame. }
  apply Hs.
Qed.

End relay_session.

(** ** Relays delivered *)

Section relay_delivery.
Context `{CryptoJS} `{JSON} `{DateLib}.

Lemma deleteRelay_ok (w : World) (id : string) :
  db_open (db w) = true →
  DB.deleteRelay id w =
    (Ok tt, with_db (λ d, mkDB (db_open d) (store_connections d) (store_messages d)
                               (delete id (store_relays d))) w).
Proof.
  intros Hopen. unfold DB.deleteRelay, DB.transaction.
  rewrite Hopen. unfold with_db; cbn. by rewrite Hopen.
Qed.

(** The loop of [processRelaysForConnection] deletes the relays it is
    given, by id, from the store and from the state, and builds one
    message for each. *)
Lemma deliver_relays_run (l : list Relay) (w : World) :
  db_open (db w) = true →
  ∃ delivered w',
    App.deliver_relays l w = (Ok delivered, w')
    ∧ List.length delivered = List.length l
    ∧ store_relays (db w') = foldl (λ s r, delete (relay_id r) s) (store_relays (db w)) l
    ∧ messages_relays (state w')
      = foldl (λ rs r, filter (λ x, relay_id x ≠ relay_id r) rs) (messages_relays (state w)) l
    ∧ db_open (db w') = true.
Proof.
  revert w. induction l as [|r l IH]; intros w Hopen.
  { exists [], w. by repeat split. }
  cbn [App.deliver_relays]. unfold bind at 1.
  unfold App.deliver_relay, bind, uuid_v4_call, new_Date. cbn -[DB.deleteRelay App.deliver_relays].
  rewrite deleteRelay_ok by done. cbn -[App.deliver_relays].
  match goal with |- context [App.deliver_relays l ?w1] =>
    destruct (IH w1) as (delivered & w' & Hrun & Hlen & Hst & Hrs & Ho); [by cbn|]
  end.
  rewrite Hrun. cbn. eexists _, w'. split; [reflexivity|].
  cbn in Hst, Hrs. cbn. by rewrite Hlen, Hst, Hrs, Ho.
Qed.

Lemma lookup_foldl_delete (l : list Relay) (store : gmap string Relay) (k : string) :
  foldl (λ s r, delete (relay_id r) s) store l !! k
  = if decide (k ∈ relay_id <$> l) then None else store !! k.
Proof.
  revert store. induction l as [|r l IH]; intros store; cbn.
  { by rewrite decide_False by apply not_elem_of_nil. }
  rewrite IH. destruct (decide (k ∈ relay_id <$> l)) as [Hin|Hnin].
  - rewrite decide_True; [done|]. by right.
  - destruct (decide (k = relay_id r)) as [->|Hne].
    + rewrite decide_True by (by left). apply lookup_delete_eq.
    + rewrite decide_False.
      * by apply lookup_delete_ne.
      * intros Hin. apply elem_of_cons in Hin as [?|?]; done.
Qed.

Lemma foldl_filter_relays (l rs : list Relay) :
  foldl (λ rs r, filter (λ x, relay_id x ≠ relay_id r) rs) rs l
  = filter (λ x, relay_id x ∉ relay_id <$> l) rs.
Proof.
  revert rs. induction l as [|r l IH]; intros rs; cbn.
  { induction rs as [|x rs IHrs]; [done|].
    rewrite filter_cons_True by apply not_elem_of_nil. by rewrite <- IHrs. }
  rewrite IH, list_filter_filter. apply list_filter_iff.
  intros x. rewrite not_elem_of_cons. tauto.
Qed.

Lemma filter_ext_elem_of {A : Type} (P Q : A → Prop) `{!∀ x, Decision (P x)}
    `{!∀ x, Decision (Q x)} (l : list A) :
  (∀ x, x ∈ l → P x ↔ Q x) → filter P l = filter Q l.
Proof.
  induction l as [|x l IH]; intros Hpq; [done|].
  rewrite !filter_cons.
  destruct (decide (P x)) as [Hp|Hp], (decide (Q x)) as [Hq|Hq].
  - f_equal. apply IH. intros y Hy. apply Hpq. by right.
  - destruct Hq. apply Hpq; [by left|done].
  - destruct Hp. apply Hpq; [by left|done].
  - apply IH. intros y Hy. apply Hpq. by right.
Qed.

(** X1: [App.processRelaysForConnection], when it is called, deletes exactly
    the relays addressed to the connection's did, from the relays store
    and from [state.messages.relays], and returns one message for each;
    every other relay stays.  The store and the state list hold the same
    relays, each stored under its id, as [createRelay] leaves them. *)
Theorem processRelaysForConnection_delivers (w : World) (connection : Connection) :
  db_open (db w) = true →
  (∀ r, r ∈ messages_relays (state w) → store_relays (db w) !! relay_id r = Some r) →
  (∀ k r, store_relays (db w) !! k = Some r → relay_id r = k ∧ r ∈ messages_relays (state w)) →
  ∃ delivered w',
    App.processRelaysForConnection connection w = (Ok delivered, w')
    ∧ (∀ k r, store_relays (db w') !! k = Some r
              ↔ store_relays (db w) !! k = Some r
                ∧ relay_targetRecipientId r ≠ conn_did connection)
    ∧ messages_relays (state w')
      = filter (λ r, relay_targetRecipientId r ≠ conn_did connection) (messages_relays (state w))
    ∧ List.length delivered
      = List.length (filter (λ r, relay_targetRecipientId r = conn_did connection)
                            (messages_relays (state w))).
Proof.
  intros Hopen Hlisted Hstored.
  set (X := conn_did connection).
  set (todo := filter (λ r, relay_targetRecipientId r = X) (messages_relays (state w))).
  assert (∀ x, x ∈ messages_relays (state w) →
               relay_id x ∉ relay_id <$> todo ↔ relay_targetRecipientId x ≠ X) as Hids.
  { intros x Hx. split.
    - intros Hnin Htarget. apply Hnin. apply list_elem_of_fmap. exists x. split; [done|].
      by apply list_elem_of_filter.
    - intros Htarget Hin. apply list_elem_of_fmap in Hin as (y & Hid & Hy).
      apply list_elem_of_filter in Hy as [Hty Hy].
      pose proof (Hlisted _ Hx) as Hsx. pose proof (Hlisted _ Hy) as Hsy.
      rewrite Hid, Hsy in Hsx. by injection Hsx as ->. }
  destruct (deliver_relays_run todo w Hopen) as (delivered & w' & Hrun & Hlen & Hst & Hrs & _).
  assert (∀ k r, foldl (λ s r, delete (relay_id r) s) (store_relays (db w)) todo !! k = Some r
                 ↔ store_relays (db w) !! k = Some r ∧ relay_targetRecipientId r ≠ X) as Hstore.
  { intros k r. rewrite lookup_foldl_delete. split.
    - case_decide as Hk; [done|]. intros Hkr. split; [done|].
      destruct (Hstored _ _ Hkr) as [<- Hin]. by apply Hids.
    - intros [Hkr Htarget]. destruct (Hstored _ _ Hkr) as [<- Hin].
      rewrite decide_False; [done|]. by apply Hids. }
  assert (foldl (λ rs r, filter (λ x, relay_id x ≠ relay_id r) rs) (messages_relays (state w)) todo
          = filter (λ r, relay_targetRecipientId r ≠ X) (messages_relays (state w))) as Hlist.
  { rewrite foldl_filter_relays. by apply filter_ext_elem_of. }
  unfold App.processRelaysForConnection, try_catch, bind, get_world. fold X todo.
  destruct todo as [|r0 todo'] eqn:Htodo.
  - cbn. exists [], w. split; [done|]. cbn in Hstore, Hlist.
    split; [exact Hstore|]. split; [exact Hlist|done].
  - cbn [List.length Nat.eqb]. rewrite Hrun. cbn.
    exists delivered, w'. split; [done|]. rewrite Hst, Hrs.
    split; [exact Hstore|]. split; [exact Hlist|exact Hlen].
Qed.

End relay_delivery.

(** ** The handshake *)

Section history.
Context `{CryptoJS}.

Lemma history_grows_preorder : PreOrder history_grows.
Proof.
  split.
  - intros w. unfold history_grows. reflexivity.
  - intros a b c Hab Hbc. unfold history_grows in *. by etransitivity.
Qed.

Lemma history_grows_step {A : Type} (m : M A) :
  (∀ w, stage_history (connect w) `prefix_of` stage_history (connect (m w).2)) →
  preserves history_grows m.
Proof. intros Hm w. apply Hm. Qed.

Lemma sendData_history d : preserves history_grows (WebRTC.sendData d).
Proof.
  apply history_grows_step. intros w. unfold WebRTC.sendData.
  destruct (channel_open _ _); [destruct (send_succeeds _ _)|]; done.
Qed.

End history.

#[global] Existing Instance history_grows_preorder.
#[global] Hint Resolve sendData_history : frame.
#[global] Hint Extern 2 (preserves history_grows _) =>
  solve [apply history_grows_step; intros ?; cbn;
         first [reflexivity | by apply prefix_app_r]] : frame.

Section handshake_facts.
Context `{CryptoJS} `{JSON} `{DateLib}.

Lemma handleDataExchange_history : preserves history_grows Connect.handleDataExchange.
Proof. unfold Connect.handleDataExchange. frame. Qed.

(** [handleDataExchange] catches what its steps throw. *)
Lemma handleDataExchange_returns (w : World) :
  ∃ w', Connect.handleDataExchange w = (Ok tt, w').
Proof.
  unfold Connect.handleDataExchange, try_catch.
  match goal with |- context [match ?b w with _ => _ end] => destruct (b w) as [[[]|e] w1] end.
  - eauto.
  - cbn. eauto.
Qed.

Lemma completeConnection_ok (w : World) (desc : json) :
  peerConnection (rtc w) = true →
  desc ≠ JNull →
  rtc_accepts (env w) (Some desc) = true →
  WebRTC.completeConnection (Some desc) w = (Ok true, w).
Proof.
  intros Hpc Hnn Hacc. unfold WebRTC.completeConnection, try_catch, bind, get_world, lift.
  rewrite Hpc, Hacc. destruct desc; done.
Qed.

(** C2: the offerer's device holds its offer payload in [connectionData]
    and handles a scanned answer.  When the answer's did is not the
    payload's did, the handler records the error "DID mismatch in
    connection answer", the stage becomes FAILED and is never CONNECTED
    (FAILED is the only stage assigned), and the transport is not touched.
    When the dids are the same and the transport accepts the answer's
    description, ANSWER_SCANNED and then CONNECTED are assigned. *)
Theorem handleConnectionAnswer_checks_did (w : World) (offer answer : list (string * json)) :
  connectionData (connect w) = Some (JObj offer) →
  let own := Js.assoc "did" offer in
  let theirs := Js.assoc "did" answer in
  (Js.strict_eq own theirs = false →
     ∃ w', Connect.handleConnectionAnswer (JObj answer) w = (Ok tt, w')
       ∧ connectionStage (connect w') = FAILED
       ∧ stage_history (connect w') = (stage_history (connect w) ++ [FAILED])%list
       ∧ console_errors (ui w')
         = (console_errors (ui w)
            ++ [("Connection answer handling failed:", Err "DID mismatch in connection answer")])%list
       ∧ rtc w' = rtc w)
  ∧ (Js.strict_eq own theirs = true →
     ∀ desc, Js.assoc "webrtc" answer = Some desc → desc ≠ JNull →
       peerConnection (rtc w) = true →
       rtc_accepts (env w) (Some desc) = true →
       ∃ w' later, Connect.handleConnectionAnswer (JObj answer) w = (Ok tt, w')
         ∧ stage_history (connect w')
           = (stage_history (connect w) ++ ANSWER_SCANNED :: CONNECTED :: later)%list).
Proof.
  intros Hcd own theirs. unfold own, theirs. clear own theirs. split.
  - intros Hne. unfold Connect.handleConnectionAnswer, try_catch, bind, get_world.
    rewrite Hcd. cbn -[Js.strict_eq]. rewrite Hne. cbn.
    eexists. split; [reflexivity|]. done.
  - intros Heq desc Hdesc Hnn Hpc Hacc.
    unfold Connect.handleConnectionAnswer, try_catch, bind, get_world.
    rewrite Hcd. cbn -[Js.strict_eq WebRTC.completeConnection Connect.handleDataExchange].
    rewrite Heq, Hdesc. cbn -[WebRTC.completeConnection Connect.handleDataExchange].
    rewrite completeConnection_ok by done.
    cbn -[Connect.handleDataExchange].
    match goal with |- context [Connect.handleDataExchange ?w2] =>
      destruct (handleDataExchange_returns w2) as [w' Hrun];
      pose proof (handleDataExchange_history w2) as Hgrow
    end.
    rewrite Hrun in *. destruct Hgrow as [later Hlater]. cbn in Hlater.
    exists w', later. split; [done|]. rewrite Hlater. by rewrite <- !app_assoc.
Qed.

(** The check is guarded by [connectionData]: a device that holds no
    payload compares nothing. *)
Remark handleConnectionAnswer_unguarded (w : World) (answer : list (string * json)) (desc : json) :
  connectionData (connect w) = None →
  Js.assoc "webrtc" answer = Some desc → desc ≠ JNull →
  peerConnection (rtc w) = true →
  rtc_accepts (env w) (Some desc) = true →
  ∃ w' later, Connect.handleConnectionAnswer (JObj answer) w = (Ok tt, w')
    ∧ stage_history (connect w')
      = (stage_history (connect w) ++ ANSWER_SCANNED :: CONNECTED :: later)%list.
Proof.
  intros Hcd Hdesc Hnn Hpc Hacc.
  unfold Connect.handleConnectionAnswer, try_catch, bind, get_world.
  rewrite Hcd. cbn -[WebRTC.completeConnection Connect.handleDataExchange].
  rewrite Hdesc. cbn -[WebRTC.completeConnection Connect.handleDataExchange].
  rewrite completeConnection_ok by done.
  cbn -[Connect.handleDataExchange].
  match goal with |- context [Connect.handleDataExchange ?w2] =>
    destruct (handleDataExchange_returns w2) as [w' Hrun];
    pose proof (handleDataExchange_history w2) as Hgrow
  end.
  rewrite Hrun in *. destruct Hgrow as [later Hlater]. cbn in Hlater.
  exists w', later. split; [done|]. rewrite Hlater. by rewrite <- !app_assoc.
Qed.

End handshake_facts.

(** ** The end of a session *)

Section completion_facts.
Context `{CryptoJS} `{JSON} `{DateLib}.

Lemma assoc_set_assoc_ne (k k' : string) (v : json) (fs : list (string * json)) :
  k ≠ k' → Js.assoc k (Js.set_assoc k' v fs) = Js.assoc k fs.
Proof.
  intros Hne. induction fs as [|[k0 v0] fs IH]; cbn.
  - destruct (k =? k') eqn:E; [|done]. by apply String.eqb_eq in E.
  - destruct (k' =? k0) eqn:E'; cbn.
    + apply String.eqb_eq in E' as <-.
      destruct (k =? k') eqn:E; [|done]. by apply String.eqb_eq in E.
    + destruct (k =? k0); [done|apply IH].
Qed.

Lemma assoc_set_assoc_eq (k : string) (v : json) (fs : list (string * json)) :
  Js.assoc k (Js.set_assoc k v fs) = Some v.
Proof.
  induction fs as [|[k0 v0] fs IH]; cbn.
  - by rewrite String.eqb_refl.
  - destruct (k =? k0) eqn:E; cbn.
    + by rewrite String.eqb_refl.
    + by rewrite E.
Qed.

(** What [processReceivedProfile] leaves of a payload the device holds:
    the payload with its [profile] replaced, and its [profilePicture]
    when the message carries one; the [did] and the [publicKey] stay. *)
Lemma processReceivedProfile_run (w : World) (fs : list (string * json)) (pm : ProfileMsg)
    (picture : option string) :
  connectionData (connect w) = Some (JObj fs) →
  ∃ w1 fs1,
    Connect.processReceivedProfile pm picture w = (Ok tt, w1)
    ∧ connectionData (connect w1) = Some (JObj fs1)
    ∧ Js.assoc "profile" fs1 = Some (Connect.received_profile_json (pm_profile pm))
    ∧ Js.assoc "did" fs1 = Js.assoc "did" fs
    ∧ Js.assoc "publicKey" fs1 = Js.assoc "publicKey" fs
    ∧ db w1 = db w ∧ state w1 = state w.
Proof.
  intros Hcd.
  unfold Connect.processReceivedProfile, try_catch, bind, get_world. rewrite Hcd.
  set (fs0 := Js.set_assoc "profile" (Connect.received_profile_json (pm_profile pm)) fs).
  set (fs1 := match picture with
              | Some pic => if Js.truthy_str picture
                            then Js.set_assoc "profilePicture" (JStr pic) fs0 else fs0
              | None => fs0
              end).
  assert (∀ k, k ≠ "profilePicture" → Js.assoc k fs1 = Js.assoc k fs0) as Hpic.
  { intros k Hk. unfold fs1. destruct picture as [pic|]; [|done].
    destruct (Js.truthy_str _); [|done]. by apply assoc_set_assoc_ne. }
  assert (Js.assoc "profile" fs1 = Some (Connect.received_profile_json (pm_profile pm))
          ∧ Js.assoc "did" fs1 = Js.assoc "did" fs
          ∧ Js.assoc "publicKey" fs1 = Js.assoc "publicKey" fs) as Hfs.
  { rewrite !Hpic by done. unfold fs0.
    rewrite assoc_set_assoc_eq, !assoc_set_assoc_ne by done. done. }
  unfold Connect.set_connectionData, modify, new_Date, WebRTC.sendData. cbn.
  destruct (channel_open _ _); [destruct (send_succeeds _ _)|]; cbn;
    (eexists _, fs1; split; [reflexivity|]; cbn; split; [done|]; by destruct Hfs as (? & ? & ?)).
Qed.

Lemma peer_of_received_profile (pp : PeerProfile) :
  ∃ received,
    Connect.peer_of_json (Some (Connect.received_profile_json pp)) = Some received
    ∧ peer_firstName received = peer_firstName pp
    ∧ peer_lastName received = peer_lastName pp.
Proof.
  eexists. split; [reflexivity|].
  destruct pp as [[f|] [l|] n b]; cbn; done.
Qed.

Lemma resetConnectionState_run (w : World) :
  ∃ w', Connect.resetConnectionState w = (Ok tt, w')
    ∧ connectionStage (connect w') = FAILED
    ∧ stage_history (connect w') = (stage_history (connect w) ++ [INIT; FAILED])%list
    ∧ connectionData (connect w') = None
    ∧ localDescription (connect w') = None
    ∧ remoteDescription (connect w') = None
    ∧ answerQrCode (connect w') = None
    ∧ peerConnection (rtc w') = false
    ∧ instructions (ui w') = Some "Connection failed. Please try again."
    ∧ alerts (ui w') = alerts (ui w)
    ∧ db w' = db w ∧ state w' = state w.
Proof.
  eexists. split; [reflexivity|]. cbn. rewrite <- app_assoc. done.
Qed.

(** X5: [resetConnectionState] assigns INIT, clears the payload and the
    descriptions, and closes the transport; [WebRTC.closeConnection]
    reports [disconnected] to [handleConnectionStateChange] at once, which
    finds the stage INIT and assigns FAILED: the reset ends in FAILED. *)
Theorem resetConnectionState_ends_failed (w : World) :
  ∃ w', Connect.resetConnectionState w = (Ok tt, w')
    ∧ connectionStage (connect w') = FAILED
    ∧ stage_history (connect w') = (stage_history (connect w) ++ [INIT; FAILED])%list
    ∧ connectionData (connect w') = None
    ∧ localDescription (connect w') = None
    ∧ remoteDescription (connect w') = None
    ∧ answerQrCode (connect w') = None
    ∧ peerConnection (rtc w') = false
    ∧ instructions (ui w') = Some "Connection failed. Please try again.".
Proof.
  destruct (resetConnectionState_run w)
    as (w' & Hrun & Hstage & Hhist & Hcd & Hl & Hr & Ha & Hpc & Hins & _).
  exists w'. by repeat split.
Qed.

(** X6: the record a session commits has the did and the public key of
    the payload the device holds in [connectionData], and the names of the
    profile message it received: [processReceivedProfile] replaces the
    payload's profile only, and [completeConnection] hands the payload to
    [App.addConnection].  On the device that showed the offer the payload
    is its own offer. *)
Theorem completeConnection_records_payload (w : World) (payload : list (string * json))
    (d : string) (pm : ProfileMsg) (picture : option string) (p : Profile) (i : Identity) :
  connectionData (connect w) = Some (JObj payload) →
  Js.assoc "did" payload = Some (JStr d) →
  profile (state w) = Some p →
  identity (state w) = Some i →
  db_open (db w) = true →
  (∀ k c, store_connections (db w) !! k = Some c → conn_did c ≠ d) →
  let w1 := (Connect.processReceivedProfile pm picture w).2 in
  let w2 := (Connect.completeConnection w1).2 in
  ∃ created,
    store_connections (db w2) = <[conn_id created := created]> (store_connections (db w))
    ∧ conn_did created = d
    ∧ conn_publicKey created = Js.str (Js.assoc "publicKey" payload)
    ∧ conn_firstName created = peer_firstName (pm_profile pm)
    ∧ conn_lastName created = peer_lastName (pm_profile pm)
    ∧ alerts (ui w2) = (alerts (ui w1) ++ ["Connection successful!"])%list.
Proof.
  intros Hcd Hdid Hp Hi Hopen Hfresh w1 w2.
  destruct (processReceivedProfile_run w payload pm picture Hcd)
    as (w1' & fs1 & Hrun1 & Hcd1 & Hprofile & Hdid1 & Hpk1 & Hdb1 & Hst1).
  assert (w1 = w1') as Hw1 by (unfold w1; by rewrite Hrun1).
  clearbody w1. subst w1'.
  destruct (peer_of_received_profile (pm_profile pm)) as (received & Hpeer & Hfirst & Hlast).
  set (cd := {| cd_did := Js.str (Js.assoc "did" fs1);
                cd_publicKey := Js.str (Js.assoc "publicKey" fs1);
                cd_profile := Connect.peer_of_json (Js.assoc "profile" fs1);
                cd_profilePicture := Js.or_else (Js.str (Js.assoc "profilePicture" fs1)) None |}).
  destruct (addConnection_fresh_run w1 cd d p i received)
    as (w' & Hrun & Hstore & _ & _ & _ & _ & _ & Hui).
  { by rewrite Hst1. } { by rewrite Hst1. } { by rewrite Hdb1. }
  { cbn. by rewrite Hdid1, Hdid. } { cbn. by rewrite Hprofile. }
  { by rewrite Hdb1. }
  destruct (resetConnectionState_run ((alert "Connection successful!" : M unit) w').2)
    as (w3 & Hreset & _ & _ & _ & _ & _ & _ & _ & _ & Halerts & Hdb3 & _).
  unfold alert, modify in Hreset, Halerts, Hdb3. cbn [snd] in Hreset, Halerts, Hdb3.
  assert (w2 = w3) as Hw2.
  { unfold w2, Connect.completeConnection, try_catch, bind, get_world, lift.
    rewrite Hcd1. cbn [Js.prop]. fold cd. rewrite Hrun. cbn [fst snd alert modify].
    by rewrite Hreset. }
  clearbody w2. subst w3. cbn in Halerts, Hdb3.
  eexists. split; [|split; [|split; [|split; [|split]]]].
  - rewrite Hdb3, Hstore, Hdb1. reflexivity.
  - reflexivity.
  - cbn. by rewrite Hpk1.
  - exact Hfirst.
  - exact Hlast.
  - by rewrite Halerts, Hui.
Qed.

End completion_facts.

(** ** Scanned codes *)

Section scan_facts.
Context `{CryptoJS} `{JSON} `{DateLib}.

(** The handlers of a scanned offer or answer catch what they throw. *)
Lemma handleConnectionOffer_returns (offerData : json) (w : World) :
  ∃ w', Connect.handleConnectionOffer offerData w = (Ok tt, w').
Proof.
  unfold Connect.handleConnectionOffer, try_catch.
  match goal with |- context [match ?b w with _ => _ end] => destruct (b w) as [[[]|e] w1] end.
  - eauto.
  - cbn. eauto.
Qed.

Lemma handleConnectionAnswer_returns (answerData : json) (w : World) :
  ∃ w', Connect.handleConnectionAnswer answerData w = (Ok tt, w').
Proof.
  unfold Connect.handleConnectionAnswer, try_catch.
  match goal with |- context [match ?b w with _ => _ end] => destruct (b w) as [[[]|e] w1] end.
  - eauto.
  - cbn. eauto.
Qed.

(** [stopScanner] returns, and touches the scanner only. *)
Lemma stopScanner_run (w : World) :
  ∃ w0, Connect.stopScanner w = (Ok tt, w0)
    ∧ ui w0 = ui w ∧ rtc w0 = rtc w
    ∧ connectionStage (connect w0) = connectionStage (connect w)
    ∧ stage_history (connect w0) = stage_history (connect w)
    ∧ connectionData (connect w0) = connectionData (connect w).
Proof.
  unfold Connect.stopScanner, bind, get_world.
  destruct (negb _ || negb _); eexists; (split; [reflexivity|done]).
Qed.

(** C7: a scanned string that is not JSON and has the onboarding form
    ([http...] with [?type=onboarding]) is navigated to, and no stage is
    assigned; a string that parses to a value whose [type] can be read and
    is neither ['connection'] nor ['connection_answer'] fails: the error
    "Unsupported QR code type" is recorded and the stage becomes FAILED,
    no handler having run; a payload of type ['connection'] is handed to
    [handleConnectionOffer], one of type ['connection_answer'] to
    [handleConnectionAnswer], each after [stopScanner], and what the
    handler leaves is what the operation leaves. *)
Theorem processScannedCode_dispatch (data : string) (w : World) :
  (∀ e, JSON_parse data = Throw e → Connect.is_onboarding_url data = true →
     ∃ w', Connect.processScannedCode data w = (Ok tt, w')
       ∧ location_href (ui w') = Some data
       ∧ connectionStage (connect w') = connectionStage (connect w)
       ∧ stage_history (connect w') = stage_history (connect w)
       ∧ connectionData (connect w') = connectionData (connect w)
       ∧ console_errors (ui w') = console_errors (ui w))
  ∧ (∀ qrData type, JSON_parse data = Ok qrData →
       Js.prop (Some qrData) "type" = Ok type →
       Js.strict_eq type (Some (JStr "connection")) = false →
       Js.strict_eq type (Some (JStr "connection_answer")) = false →
       ∃ w', Connect.processScannedCode data w = (Ok tt, w')
         ∧ connectionStage (connect w') = FAILED
         ∧ console_errors (ui w')
           = (console_errors (ui w)
              ++ [("QR code processing failed:", Err "Unsupported QR code type")])%list
         ∧ connectionData (connect w') = connectionData (connect w)
         ∧ rtc w' = rtc w)
  ∧ (∀ qrData, JSON_parse data = Ok qrData →
       Js.prop (Some qrData) "type" = Ok (Some (JStr "connection")) →
       Connect.processScannedCode data w
         = Connect.handleConnectionOffer qrData (Connect.stopScanner w).2)
  ∧ (∀ qrData, JSON_parse data = Ok qrData →
       Js.prop (Some qrData) "type" = Ok (Some (JStr "connection_answer")) →
       Connect.processScannedCode data w
         = Connect.handleConnectionAnswer qrData (Connect.stopScanner w).2).
Proof.
  destruct (stopScanner_run w) as (w0 & Hstop & Hui & Hrtc & Hstage & Hhist & Hcd).
  unfold Connect.processScannedCode, try_catch, bind, lift.
  rewrite Hstop. cbn [snd].
  repeat split.
  - intros e Hp Hurl. rewrite Hp, Hurl. eexists. split; [reflexivity|].
    cbn. by rewrite Hui.
  - intros qrData type Hp Ht Ho Ha. rewrite Hp, Ht, Ho, Ha.
    eexists. split; [reflexivity|]. cbn. by rewrite Hui, Hrtc.
  - intros qrData Hp Ht. rewrite Hp, Ht. cbn.
    by destruct (handleConnectionOffer_returns qrData w0) as [w' ->].
  - intros qrData Hp Ht. rewrite Hp, Ht. cbn.
    by destruct (handleConnectionAnswer_returns qrData w0) as [w' ->].
Qed.

(** A string that is neither JSON nor an onboarding address fails as an
    invalid code. *)
Lemma processScannedCode_invalid (data : string) (w : World) (e : Error) :
  JSON_parse data = Throw e → Connect.is_onboarding_url data = false →
  ∃ w', Connect.processScannedCode data w = (Ok tt, w')
    ∧ connectionStage (connect w') = FAILED
    ∧ console_errors (ui w')
      = (console_errors (ui w)
         ++ [("QR code processing failed:", Err "Invalid QR code format")])%list.
Proof.
  intros Hp Hurl.
  destruct (stopScanner_run w) as (w0 & Hstop & Hui & _).
  unfold Connect.processScannedCode, try_catch, bind, lift.
  rewrite Hstop, Hp, Hurl. eexists. split; [reflexivity|]. cbn. by rewrite Hui.
Qed.

(** The JSON text [null] has no [type] to read: the read itself throws,
    and the operation fails the same way with that [TypeError]. *)
Lemma processScannedCode_null (data : string) (w : World) :
  JSON_parse data = Ok JNull →
  ∃ w', Connect.processScannedCode data w = (Ok tt, w')
    ∧ connectionStage (connect w') = FAILED
    ∧ console_errors (ui w')
      = (console_errors (ui w)
         ++ [("QR code processing failed:",
              TypeError "Cannot read properties of null (reading 'type')")])%list.
Proof.
  intros Hp.
  destruct (stopScanner_run w) as (w0 & Hstop & Hui & _).
  unfold Connect.processScannedCode, try_catch, bind, lift.
  rewrite Hstop, Hp. eexists. split; [reflexivity|]. cbn. by rewrite Hui.
Qed.

End scan_facts.

(** ** The data exchange *)

Section exchange_facts.
Context `{CryptoJS} `{JSON} `{DateLib}.


Lemma emits_nothing {A : Type} (m : M A) :
  (∀ w, sent (rtc (m w).2) = sent (rtc w)) → emits [] m.
Proof. intros Hm w. exists []. by rewrite Hm, app_nil_r. Qed.

Lemma emits_weaken {A : Type} (ts ts' : list string) (m : M A) :
  ts `sublist_of` ts' → emits ts m → emits ts' m.
Proof.
  intros Hs Hm w. destruct (Hm w) as (l & Hl & Hsub).
  exists l. split; [done|]. by etransitivity.
Qed.

Lemma emits_bind {A B : Type} (ts1 ts2 : list string) (m : M A) (k : A → M B) :
  emits ts1 m → (∀ a, emits ts2 (k a)) → emits (ts1 ++ ts2) (bind m k).
Proof.
  intros Hm Hk w. unfold bind. destruct (Hm w) as (l1 & Hl1 & Hs1).
  destruct (m w) as [[a|e] w1]; cbn in *.
  - destruct (Hk a w1) as (l2 & Hl2 & Hs2).
    exists (l1 ++ l2)%list. split.
    + by rewrite Hl2, Hl1, app_assoc.
    + rewrite fmap_app. by apply sublist_app.
  - exists l1. split; [done|]. by apply sublist_inserts_r.
Qed.

Lemma emits_try_catch {A : Type} (ts : list string) (body : M A) (handler : Error → M A) :
  emits ts body → (∀ e, emits [] (handler e)) → emits ts (try_catch body handler).
Proof.
  intros Hm Hk w. unfold try_catch. destruct (Hm w) as (l1 & Hl1 & Hs1).
  destruct (body w) as [[a|e] w1]; cbn in *.
  - by exists l1.
  - destruct (Hk e w1) as (l2 & Hl2 & Hs2).
    apply sublist_nil_r, fmap_nil_inv in Hs2 as ->.
    exists l1. split; [|done]. by rewrite Hl2, app_nil_r.
Qed.

Lemma emits_sendData (d : DataMsg) : emits [msg_type d] (WebRTC.sendData d).
Proof.
  intros w. unfold WebRTC.sendData.
  destruct (channel_open _ _); [destruct (send_succeeds _ _)|]; cbn.
  - by exists [d].
  - exists []. split; [by rewrite app_nil_r|]. apply sublist_nil_l.
  - exists []. split; [by rewrite app_nil_r|]. apply sublist_nil_l.
Qed.

(** A timestamp is read, the message is sent. *)
Lemma emits_stamped (f : Z → DataMsg) (t : string) :
  (∀ z, msg_type (f z) = t) →
  emits [t] (timestamp <- new_Date ;; WebRTC.sendData (f timestamp) ;; ret tt).
Proof.
  intros Hf.
  apply (emits_bind [] [t]); [by apply emits_nothing|]. intros z.
  rewrite <- (Hf z), <- (app_nil_r [msg_type (f z)]).
  apply emits_bind; [apply emits_sendData|]. intros _. by apply emits_nothing.
Qed.

(** X4: whatever the channel does and whatever fails, [handleDataExchange]
    sends the five types in their order, less the sends that did not go
    through: no type goes out twice or before an earlier one. *)
Theorem handleDataExchange_order :
  emits ["profile"; "connections"; "messages"; "relays"; "complete"]
        Connect.handleDataExchange.
Proof.
  unfold Connect.handleDataExchange.
  apply emits_try_catch; [|by intros e; apply emits_nothing].
  apply (emits_bind [] _); [by apply emits_nothing|]. intros _.
  apply (emits_bind [] _); [by apply emits_nothing|]. intros st.
  apply (emits_bind ["profile"] _).
  { unfold Connect.sendProfileData. destruct (profile st); [|by apply emits_weaken with [], emits_nothing; [apply sublist_nil_l|]].
    by apply (emits_stamped (λ z, Connect.profile_message _ z)). }
  intros _. apply (emits_bind ["connections"] _).
  { by apply (emits_stamped (λ z, DConnections _ z)). }
  intros _. apply (emits_bind ["messages"] _).
  { by apply (emits_stamped (λ z, DMessages _ z)). }
  intros _. apply (emits_bind ["relays"] _).
  { unfold Connect.sendRelaysData.
    apply (emits_bind [] _); [by apply emits_nothing|]. intros w0.
    by apply (emits_stamped (λ z, DRelays _ z)). }
  intros _. by apply (emits_stamped (λ z, DComplete z)).
Qed.


End exchange_facts.

(** ** Relays received *)

Section relay_path.
Context `{CryptoJS} `{JSON} `{DateLib}.



End relay_path.

(** ** Stored records in key order *)

Section store_order.
Context {A : Type}.

Lemma elem_of_by_key (store : gmap string A) (x : A) :
  x ∈ DB.by_key store ↔ ∃ k, store !! k = Some x.
Proof.
  unfold DB.by_key. rewrite list_elem_of_fmap. split.
  - intros ([k y] & -> & Hin). exists k.
    rewrite merge_sort_Permutation in Hin. by apply elem_of_map_to_list.
  - intros [k Hk]. exists (k, x). split; [done|].
    rewrite merge_sort_Permutation. by apply elem_of_map_to_list.
Qed.



End store_order.

(** ** The connections store stays sound *)

Section sound.
Context `{CryptoJS}.

Lemma keeps_store_sound_preorder : PreOrder keeps_store_sound.
Proof.
  split.
  - intros w Hw. exact Hw.
  - intros a b c Hab Hbc Ha. apply Hbc, Hab, Ha.
Qed.

Lemma keeps_store_sound_step {A : Type} (m : M A) :
  (∀ w, store_connections (db (m w).2) = store_connections (db w)) →
  preserves keeps_store_sound m.
Proof. intros Hm w. unfold keeps_store_sound, store_sound. by rewrite Hm. Qed.

Lemma transaction_keeps_store_sound {A : Type} (callback : DBState → res (A * DBState)) :
  (∀ d a d', callback d = Ok (a, d') →
     DB.store_keyed (store_connections d) → DB.did_unique (store_connections d) →
     DB.store_keyed (store_connections d') ∧ DB.did_unique (store_connections d')) →
  preserves keeps_store_sound (DB.transaction callback).
Proof.
  intros Hc w Hs. unfold DB.transaction.
  destruct (db_open _); [|exact Hs].
  destruct (callback _) as [[a d']|e] eqn:Hcb; [|exact Hs].
  destruct Hs as [Hk Hu]. cbn. unfold store_sound. cbn. eauto.
Qed.

Lemma transaction_read_keeps_store_sound {A : Type} (callback : DBState → res (A * DBState)) :
  (∀ d a d', callback d = Ok (a, d') → store_connections d' = store_connections d) →
  preserves keeps_store_sound (DB.transaction callback).
Proof.
  intros Hc. apply transaction_keeps_store_sound. intros d a d' Hcb Hk Hu.
  by rewrite (Hc _ _ _ Hcb).
Qed.

Lemma saveConnection_keeps_store_sound c : preserves keeps_store_sound (DB.saveConnection c).
Proof.
  apply transaction_keeps_store_sound. intros d a d'. case_bool_decide as Hfree; [|done].
  intros [= _ <-] Hk Hu. cbn. split.
  - intros k x Hkx. destruct (decide (conn_id c = k)) as [<-|Hne].
    + rewrite lookup_insert_eq in Hkx. by injection Hkx as <-.
    + rewrite lookup_insert_ne in Hkx by done. eauto.
  - intros k1 k2 c1 c2 H1 H2 Hd.
    destruct (decide (conn_id c = k1)) as [<-|Hne1], (decide (conn_id c = k2)) as [<-|Hne2].
    + done.
    + rewrite lookup_insert_eq in H1. injection H1 as <-.
      rewrite lookup_insert_ne in H2 by done.
      symmetry. by apply (Hfree k2 c2).
    + rewrite lookup_insert_eq in H2. injection H2 as <-.
      rewrite lookup_insert_ne in H1 by done.
      by apply (Hfree k1 c1).
    + rewrite lookup_insert_ne in H1, H2 by done. eauto.
Qed.

Lemma deleteConnection_keeps_store_sound id : preserves keeps_store_sound (DB.deleteConnection id).
Proof.
  apply transaction_keeps_store_sound. intros d a d'.
  intros [= _ <-] Hk Hu. cbn. split.
  - intros k x Hkx. apply lookup_delete_Some in Hkx as [_ Hkx]. eauto.
  - intros k1 k2 c1 c2 H1 H2. apply lookup_delete_Some in H1 as [_ H1].
    apply lookup_delete_Some in H2 as [_ H2]. eauto.
Qed.

Lemma getConnectionByDID_keeps_store_sound d : preserves keeps_store_sound (DB.getConnectionByDID d).
Proof.
  apply transaction_read_keeps_store_sound. intros db0 a d'. destruct d; [|done].
  by intros [= _ <-].
Qed.

Lemma getConnection_keeps_store_sound id : preserves keeps_store_sound (DB.getConnection id).
Proof. apply transaction_read_keeps_store_sound. intros d a d'. by intros [= _ <-]. Qed.

Lemma getAllConnections_keeps_store_sound : preserves keeps_store_sound DB.getAllConnections.
Proof. apply transaction_read_keeps_store_sound. intros d a d'. by intros [= _ <-]. Qed.

Lemma saveMessage_keeps_store_sound m : preserves keeps_store_sound (DB.saveMessage m).
Proof. apply transaction_read_keeps_store_sound. intros d a d'. by intros [= _ <-]. Qed.

Lemma saveRelay_keeps_store_sound r : preserves keeps_store_sound (DB.saveRelay r).
Proof. apply transaction_read_keeps_store_sound. intros d a d'. by intros [= _ <-]. Qed.

Lemma deleteRelay_keeps_store_sound r : preserves keeps_store_sound (DB.deleteRelay r).
Proof. apply transaction_read_keeps_store_sound. intros d a d'. by intros [= _ <-]. Qed.

Lemma sendData_keeps_store_sound d : preserves keeps_store_sound (WebRTC.sendData d).
Proof.
  apply keeps_store_sound_step. intros w. unfold WebRTC.sendData.
  destruct (channel_open _ _); [destruct (send_succeeds _ _)|]; done.
Qed.

End sound.

#[global] Existing Instance keeps_store_sound_preorder.
#[global] Hint Resolve saveConnection_keeps_store_sound deleteConnection_keeps_store_sound
  getConnectionByDID_keeps_store_sound getConnection_keeps_store_sound
  getAllConnections_keeps_store_sound saveMessage_keeps_store_sound
  saveRelay_keeps_store_sound deleteRelay_keeps_store_sound sendData_keeps_store_sound : frame.
#[global] Hint Extern 2 (preserves keeps_store_sound _) =>
  solve [apply keeps_store_sound_step; intros ?; by cbn] : frame.

Section sound_ops.
Context `{CryptoJS} `{JSON} `{DateLib}.

Lemma createBackupData_keeps_store_sound :
  preserves keeps_store_sound App.createBackupData_of_state.
Proof. unfold App.createBackupData_of_state. frame. Qed.

Lemma addConnection_keeps_store_sound cd : preserves keeps_store_sound (App.addConnection cd).
Proof.
  pose proof createBackupData_keeps_store_sound.
  unfold App.addConnection, App.createNewConnection, App.updateExistingConnection,
    App.profile_of. frame.
Qed.

Lemma removeConnection_keeps_store_sound id :
  preserves keeps_store_sound (App.removeConnection id).
Proof. unfold App.removeConnection. frame. Qed.

Lemma cleanupExpiredConnections_keeps_store_sound :
  preserves keeps_store_sound App.cleanupExpiredConnections.
Proof.
  pose proof removeConnection_keeps_store_sound.
  unfold App.cleanupExpiredConnections, DB.getExpiredConnections. frame.
Qed.

Lemma createMessage_keeps_store_sound md : preserves keeps_store_sound (App.createMessage md).
Proof.
  unfold App.createMessage, App.createRelay, App.did_of_state, App.name_of_state,
    App.encrypt_for. frame.
Qed.

Lemma processReceivedData_keeps_store_sound data :
  preserves keeps_store_sound (App.processReceivedData data).
Proof.
  pose proof addConnection_keeps_store_sound.
  unfold App.processReceivedData, App.processReceivedMessages, App.receive_message,
    App.receive_relay, App.privateKey_of_state. frame.
Qed.

Lemma call_keeps_store_sound c : preserves keeps_store_sound (Connect.call c).
Proof.
  pose proof addConnection_keeps_store_sound.
  assert (preserves keeps_store_sound Connect.handleDataExchange) as Hx.
  { unfold Connect.handleDataExchange, Connect.sendProfileData, Connect.sendConnectionsData,
      Connect.sendMessagesData, Connect.sendRelaysData. frame. }
  assert (∀ s, preserves keeps_store_sound (Connect.handleConnectionStateChange s)) as Hs.
  { intros s. unfold Connect.handleConnectionStateChange. frame. }
  assert (preserves keeps_store_sound Connect.resetConnectionState) as Hr.
  { unfold Connect.resetConnectionState, WebRTC.closeConnection. frame. }
  assert (preserves keeps_store_sound Connect.completeConnection) as Hc.
  { unfold Connect.completeConnection. frame. }
  destruct c; cbn [Connect.call].
  - unfold Connect.processScannedCode, Connect.stopScanner, Connect.handleConnectionOffer,
      Connect.handleConnectionAnswer, Connect.showConnectionConfirmation,
      WebRTC.completeConnection. frame.
  - apply Hs.
  - unfold Connect.handleDataReceived, Connect.processReceivedProfile,
      Connect.processReceivedConnections, Connect.processReceivedMessages,
      Connect.processReceivedRelays, Connect.acknowledge, Connect.handleTransferComplete.
    frame.
  - apply Hr.
Qed.

(** X10: Whatever they are given and whether they return or throw, the
    operations of [App] that write connections, and the calls into
    [Connect], keep the connections store sound: every record under its
    own id, no two records with one did. *)
Theorem connections_store_stays_sound (w : World) :
  store_sound w →
  (∀ cd, store_sound (App.addConnection cd w).2)
  ∧ (∀ id, store_sound (App.removeConnection id w).2)
  ∧ store_sound (App.cleanupExpiredConnections w).2
  ∧ (∀ md, store_sound (App.createMessage md w).2)
  ∧ (∀ data, store_sound (App.processReceivedData data w).2)
  ∧ (∀ calls, store_sound (App.for_of calls Connect.call w).2).
Proof.
  intros Hs.
  split; [intros cd; by apply addConnection_keeps_store_sound|].
  split; [intros id; by apply removeConnection_keeps_store_sound|].
  split; [by apply cleanupExpiredConnections_keeps_store_sound|].
  split; [intros md; by apply createMessage_keeps_store_sound|].
  split; [intros data; by apply processReceivedData_keeps_store_sound|].
  intros calls.
  assert (preserves keeps_store_sound (App.for_of calls Connect.call)) as Hc.
  { apply preserves_for_of; [apply _|]. apply call_keeps_store_sound. }
  by apply Hc.
Qed.

End sound_ops.

(** ** Connections removed and expired *)

Section removal.
Context `{CryptoJS} `{JSON} `{DateLib}.

Lemma deleteConnection_ok (w : World) (id : string) :
  db_open (db w) = true →
  DB.deleteConnection id w =
    (Ok tt, with_db (λ d, mkDB (db_open d) (delete id (store_connections d))
                               (store_messages d) (store_relays d)) w).
Proof.
  intros Hopen. unfold DB.deleteConnection, DB.transaction.
  rewrite Hopen. unfold with_db; cbn. by rewrite Hopen.
Qed.

Lemma removeConnection_run (w : World) (id : string) :
  db_open (db w) = true →
  App.removeConnection id w =
    (Ok true,
     with_state (λ a, mkApp (initialized a) (profile a) (identity a)
                            (filter (λ c, conn_id c ≠ id) (connections a))
                            (messages_received a) (messages_sent a) (messages_relays a))
       (with_db (λ d, mkDB (db_open d) (delete id (store_connections d))
                           (store_messages d) (store_relays d)) w)).
Proof.
  intros Hopen. unfold App.removeConnection, try_catch, bind.
  by rewrite deleteConnection_ok.
Qed.



Lemma getAllConnections_ok (w : World) :
  db_open (db w) = true →
  DB.getAllConnections w = (Ok (DB.by_key (store_connections (db w))), w).
Proof.
  intros Hopen. unfold DB.getAllConnections, DB.transaction. rewrite Hopen.
  by rewrite with_db_same.
Qed.


End removal.

(** ** Messages and relays created *)

Section messages_created.
Context `{CryptoJS} `{JSON} `{DateLib}.

Lemma getConnection_ok (w : World) (id : string) :
  db_open (db w) = true →
  DB.getConnection id w = (Ok (store_connections (db w) !! id), w).
Proof.
  intros Hopen. unfold DB.getConnection, DB.transaction. rewrite Hopen.
  by rewrite with_db_same.
Qed.

Lemma saveRelay_ok (w : World) (r : Relay) :
  db_open (db w) = true →
  DB.saveRelay r w =
    (Ok tt, with_db (λ d, mkDB (db_open d) (store_connections d) (store_messages d)
                               (<[relay_id r := r]> (store_relays d))) w).
Proof.
  intros Hopen. unfold DB.saveRelay, DB.transaction.
  rewrite Hopen. unfold with_db; cbn. by rewrite Hopen.
Qed.

Lemma createMessage_run (w : World) (md : App.MessageData) (recipient : Connection)
    (i : Identity) (p : Profile) (pk : string) :
  db_open (db w) = true →
  store_connections (db w) !! App.md_recipientId md = Some recipient →
  identity (state w) = Some i →
  profile (state w) = Some p →
  conn_publicKey recipient = Some pk →
  let message := message_built w i p recipient pk md in
  let relay := relay_built w i p recipient pk md in
  ∃ w', App.createMessage md w = (Ok message, w')
    ∧ store_messages (db w') = <[msg_id message := message]> (store_messages (db w))
    ∧ messages_sent (state w') = (messages_sent (state w) ++ [message])%list
    ∧ store_relays (db w')
      = (if App.md_isRelay md then <[relay_id relay := relay]> (store_relays (db w))
         else store_relays (db w))
    ∧ messages_relays (state w')
      = (if App.md_isRelay md then messages_relays (state w) ++ [relay]
         else messages_relays (state w))%list
    ∧ store_connections (db w') = store_connections (db w)
    ∧ connections (state w') = connections (state w)
    ∧ messages_received (state w') = messages_received (state w)
    ∧ db_open (db w') = true
    ∧ identity (state w') = Some i ∧ profile (state w') = Some p
    ∧ connect w' = connect w ∧ rtc w' = rtc w ∧ ui w' = ui w.
Proof.
  intros Hopen Hrec Hi Hp Hpk message relay.
  subst message relay. unfold message_built, relay_built.
  unfold App.createMessage, try_catch. unfold bind at 1.
  rewrite getConnection_ok by done. rewrite Hrec.
  unfold App.did_of_state, App.name_of_state, App.encrypt_for. rewrite Hpk.
  unfold bind, uuid_v4_call, get_world, draw_salt, new_Date, ret.
  cbn -[DB.saveMessage DB.saveRelay App.createRelay].
  rewrite Hi. cbn -[DB.saveMessage DB.saveRelay App.createRelay].
  rewrite Hp. cbn -[DB.saveMessage DB.saveRelay App.createRelay].
  rewrite saveMessage_ok by done. cbn -[DB.saveRelay App.createRelay].
  destruct (App.md_isRelay md) eqn:Hrelay.
  - unfold App.createRelay, bind, uuid_v4_call, new_Date, ret. cbn -[DB.saveRelay].
    rewrite saveRelay_ok by done. cbn.
    eexists. split; [reflexivity|].
    cbn. by rewrite Hopen, Hi, Hp.
  - cbn. eexists. split; [reflexivity|].
    cbn. by rewrite Hopen, Hi, Hp.
Qed.

(** X11: [createMessage] for a recipient id that is no stored connection
    throws "Recipient not found": it logs the error and stores nothing. *)
Theorem createMessage_unknown_recipient (w : World) (md : App.MessageData) :
  db_open (db w) = true →
  store_connections (db w) !! App.md_recipientId md = None →
  ∃ w', App.createMessage md w = (Throw (Err "Recipient not found"), w')
    ∧ db w' = db w ∧ state w' = state w ∧ draws w' = draws w
    ∧ console_errors (ui w')
      = (console_errors (ui w) ++ [("Message creation failed:", Err "Recipient not found")])%list.
Proof.
  intros Hopen Hnone.
  unfold App.createMessage, try_catch. unfold bind at 1.
  rewrite getConnection_ok by done. rewrite Hnone. cbn.
  eexists. split; [reflexivity|]. by destruct w.
Qed.

(** X12: [createMessage] for a stored recipient with a public key, with the
    identity and the profile in place: it returns the message, which
    carries the plain text and the text sealed under the recipient's
    public key, stores it under a fresh uuid and appends it to
    [state.messages.sent]; with [isRelay] it also stores one pending
    relay for the recipient's did with the same ciphertext, and without
    it the relays are as before. *)
Theorem createMessage_creates (w : World) (md : App.MessageData) (recipient : Connection)
    (i : Identity) (p : Profile) (pk : string) :
  db_open (db w) = true →
  store_connections (db w) !! App.md_recipientId md = Some recipient →
  identity (state w) = Some i →
  profile (state w) = Some p →
  conn_publicKey recipient = Some pk →
  ∃ message w',
    App.createMessage md w = (Ok message, w')
    ∧ msg_id message = uuid_v4 (env w) (n_uuid (draws w))
    ∧ msg_senderId message = Some (did i)
    ∧ msg_recipientId message = Some (conn_did recipient)
    ∧ msg_content message = Some (App.md_content md)
    ∧ msg_encrypted message
      = Some (Crypto.encryptMessage (random_salt (env w) (n_salt (draws w)))
                                    (App.md_content md) pk)
    ∧ msg_status message = "sent"
    ∧ store_messages (db w') !! msg_id message = Some message
    ∧ messages_sent (state w') = (messages_sent (state w) ++ [message])%list
    ∧ (App.md_isRelay md = false →
       store_relays (db w') = store_relays (db w)
       ∧ messages_relays (state w') = messages_relays (state w))
    ∧ (App.md_isRelay md = true →
       ∃ relay,
         store_relays (db w') = <[relay_id relay := relay]> (store_relays (db w))
         ∧ messages_relays (state w') = (messages_relays (state w) ++ [relay])%list
         ∧ relay_id relay = uuid_v4 (env w) (S (n_uuid (draws w)))
         ∧ relay_messageId relay = msg_id message
         ∧ relay_targetRecipientId relay = conn_did recipient
         ∧ Some (relay_encryptedContent relay) = msg_encrypted message
         ∧ relay_status relay = "pending").
Proof.
  intros Hopen Hrec Hi Hp Hpk.
  destruct (createMessage_run w md recipient i p pk Hopen Hrec Hi Hp Hpk)
    as (w' & Hrun & Hst & Hsent & Hrs & Hrl & _).
  eexists _, w'. split; [exact Hrun|].
  cbn. repeat (split; [reflexivity|]).
  split; [by rewrite Hst; apply lookup_insert_eq|].
  split; [exact Hsent|].
  split.
  - intros Hno. rewrite Hno in Hrs, Hrl. done.
  - intros Hyes. rewrite Hyes in Hrs, Hrl.
    eexists. split; [exact Hrs|]. split; [exact Hrl|]. done.
Qed.

End messages_created.

(** ** What a delivery returns *)

Section relay_delivery_run.
Context `{CryptoJS} `{JSON} `{DateLib}.

Lemma deliver_relays_messages (l : list Relay) (w w' : World) (delivered : list Message) :
  App.deliver_relays l w = (Ok delivered, w') → Forall2 delivered_for l delivered.
Proof.
  revert w w' delivered. induction l as [|r l IH]; intros w w' delivered Hrun.
  { cbn in Hrun. injection Hrun as <- _. constructor. }
  cbn [App.deliver_relays] in Hrun. unfold bind at 1 in Hrun.
  unfold App.deliver_relay, bind, uuid_v4_call, new_Date, DB.deleteRelay, DB.transaction in Hrun.
  cbn -[App.deliver_relays] in Hrun.
  destruct (db_open (db w)); cbn -[App.deliver_relays] in Hrun; [|done].
  match type of Hrun with context [App.deliver_relays l ?w1] =>
    destruct (App.deliver_relays l w1) as [[rest|e] w2] eqn:Hrest; [|done]
  end.
  cbn in Hrun. injection Hrun as <- _.
  constructor; [by repeat split|]. by eapply IH.
Qed.

(** What [processRelaysForConnection] returns and leaves. *)
Lemma processRelaysForConnection_run (w : World) (connection : Connection) :
  db_open (db w) = true →
  relays_listed w →
  let todo := filter (λ r, relay_targetRecipientId r = conn_did connection)
                     (messages_relays (state w)) in
  ∃ delivered w',
    App.processRelaysForConnection connection w = (Ok delivered, w')
    ∧ Forall2 delivered_for todo delivered
    ∧ (∀ k r, store_relays (db w') !! k = Some r
              ↔ store_relays (db w) !! k = Some r
                ∧ relay_targetRecipientId r ≠ conn_did connection)
    ∧ messages_relays (state w')
      = filter (λ r, relay_targetRecipientId r ≠ conn_did connection) (messages_relays (state w))
    ∧ store_messages (db w') = store_messages (db w)
    ∧ store_connections (db w') = store_connections (db w)
    ∧ messages_sent (state w') = messages_sent (state w).
Proof.
  intros Hopen [Hlisted Hstored] todo.
  set (X := conn_did connection) in *.
  assert (∀ x, x ∈ messages_relays (state w) →
               relay_id x ∉ relay_id <$> todo ↔ relay_targetRecipientId x ≠ X) as Hids.
  { intros x Hx. split.
    - intros Hnin Htarget. apply Hnin. apply list_elem_of_fmap. exists x. split; [done|].
      by apply list_elem_of_filter.
    - intros Htarget Hin. apply list_elem_of_fmap in Hin as (y & Hid & Hy).
      apply list_elem_of_filter in Hy as [Hty Hy].
      pose proof (Hlisted _ Hx) as Hsx. pose proof (Hlisted _ Hy) as Hsy.
      rewrite Hid, Hsy in Hsx. by injection Hsx as ->. }
  assert (∀ l w0, db_open (db w0) = true →
            ∃ delivered w', App.deliver_relays l w0 = (Ok delivered, w')
              ∧ store_relays (db w') = foldl (λ s r, delete (relay_id r) s) (store_relays (db w0)) l
              ∧ messages_relays (state w')
                = foldl (λ rs r, filter (λ x, relay_id x ≠ relay_id r) rs)
                        (messages_relays (state w0)) l
              ∧ db_open (db w') = true
              ∧ store_messages (db w') = store_messages (db w0)
              ∧ store_connections (db w') = store_connections (db w0)
              ∧ messages_sent (state w') = messages_sent (state w0)) as Hloop.
  { induction l as [|r l IH]; intros w0 Ho.
    { exists [], w0. by repeat split. }
    cbn [App.deliver_relays]. unfold bind at 1.
    unfold App.deliver_relay, bind, uuid_v4_call, new_Date.
    cbn -[DB.deleteRelay App.deliver_relays].
    rewrite deleteRelay_ok by done. cbn -[App.deliver_relays].
    match goal with |- context [App.deliver_relays l ?w1] =>
      destruct (IH w1) as (delivered & w' & Hrun & Hst & Hrs & Ho' & Hm & Hc & Hs); [by cbn|]
    end.
    rewrite Hrun. cbn. eexists _, w'. split; [reflexivity|].
    cbn in Hst, Hrs, Hm, Hc, Hs. by rewrite Hst, Hrs, Ho', Hm, Hc, Hs. }
  destruct (Hloop todo w Hopen) as (delivered & w' & Hrun & Hst & Hrs & _ & Hm & Hc & Hs).
  assert (∀ k r, foldl (λ s r, delete (relay_id r) s) (store_relays (db w)) todo !! k = Some r
                 ↔ store_relays (db w) !! k = Some r ∧ relay_targetRecipientId r ≠ X) as Hstore.
  { intros k r. rewrite lookup_foldl_delete. split.
    - case_decide as Hk; [done|]. intros Hkr. split; [done|].
      destruct (Hstored _ _ Hkr) as [<- Hin]. by apply Hids.
    - intros [Hkr Htarget]. destruct (Hstored _ _ Hkr) as [<- Hin].
      rewrite decide_False; [done|]. by apply Hids. }
  assert (foldl (λ rs r, filter (λ x, relay_id x ≠ relay_id r) rs) (messages_relays (state w)) todo
          = filter (λ r, relay_targetRecipientId r ≠ X) (messages_relays (state w))) as Hlist.
  { rewrite foldl_filter_relays. by apply filter_ext_elem_of. }
  pose proof (deliver_relays_messages _ _ _ _ Hrun) as Hmsgs.
  unfold App.processRelaysForConnection, try_catch, bind, get_world. fold X. fold todo.
  destruct todo as [|r0 todo'] eqn:Htodo.
  - cbn. exists [], w. split; [done|]. cbn in Hstore, Hlist.
    split; [constructor|]. split; [exact Hstore|]. split; [exact Hlist|done].
  - cbn [List.length Nat.eqb]. rewrite Hrun. cbn.
    exists delivered, w'. split; [done|]. rewrite Hst, Hrs.
    split; [exact Hmsgs|]. split; [exact Hstore|]. split; [exact Hlist|done].
Qed.

End relay_delivery_run.

(** ** A relay from its creation to its delivery *)

Section relay_life.
Context `{CryptoJS} `{JSON} `{DateLib}.

Lemma relays_listed_push (store : gmap string Relay) (l : list Relay) (r : Relay) :
  (∀ x, x ∈ l → store !! relay_id x = Some x) →
  (∀ k x, store !! k = Some x → relay_id x = k ∧ x ∈ l) →
  store !! relay_id r = None →
  (∀ x, x ∈ (l ++ [r])%list → <[relay_id r := r]> store !! relay_id x = Some x)
  ∧ (∀ k x, <[relay_id r := r]> store !! k = Some x → relay_id x = k ∧ x ∈ (l ++ [r])%list).
Proof.
  intros Hl Hs Hfresh. split.
  - intros x Hx. apply elem_of_app in Hx as [Hx|Hx].
    + destruct (decide (relay_id r = relay_id x)) as [Heq|Hne].
      * pose proof (Hl x Hx) as Hsx. rewrite <- Heq in Hsx. congruence.
      * rewrite lookup_insert_ne by done. by apply Hl.
    + apply list_elem_of_singleton in Hx as ->. apply lookup_insert_eq.
  - intros k x Hk. destruct (decide (relay_id r = k)) as [<-|Hne].
    + rewrite lookup_insert_eq in Hk. injection Hk as <-.
      split; [done|]. apply elem_of_app. right. by left.
    + rewrite lookup_insert_ne in Hk by done. destruct (Hs k x Hk) as [? ?].
      split; [done|]. apply elem_of_app. by left.
Qed.

(** X13: A message created for relay, and the next delivery to its recipient:
    [createMessage] with [isRelay] stores the message and a relay for the
    recipient's did, and keeps the relays store and the relays list in
    step; [processRelaysForConnection] for that recipient then returns a
    message with the same ciphertext, marked delivered, and the relay is
    gone from the store and the list, while the sent message stays in the
    messages store.  The uuid drawn for the relay is assumed to be no
    stored relay's id. *)
Theorem relay_created_then_delivered (w : World) (md : App.MessageData)
    (recipient : Connection) (i : Identity) (p : Profile) (pk : string) :
  db_open (db w) = true →
  store_connections (db w) !! App.md_recipientId md = Some recipient →
  identity (state w) = Some i →
  profile (state w) = Some p →
  conn_publicKey recipient = Some pk →
  App.md_isRelay md = true →
  relays_listed w →
  store_relays (db w) !! uuid_v4 (env w) (S (n_uuid (draws w))) = None →
  ∃ message relay w1 delivered w2,
    App.createMessage md w = (Ok message, w1)
    ∧ relays_listed w1
    ∧ store_relays (db w1) !! relay_id relay = Some relay
    ∧ relay_messageId relay = msg_id message
    ∧ relay_targetRecipientId relay = conn_did recipient
    ∧ App.processRelaysForConnection recipient w1 = (Ok delivered, w2)
    ∧ (∃ d, d ∈ delivered ∧ delivered_for relay d ∧ msg_encrypted d = msg_encrypted message)
    ∧ store_relays (db w2) !! relay_id relay = None
    ∧ (∀ r, r ∈ messages_relays (state w2) → relay_targetRecipientId r ≠ conn_did recipient)
    ∧ relays_listed w2
    ∧ store_messages (db w2) !! msg_id message = Some message.
Proof.
  intros Hopen Hrec Hi Hp Hpk Hrelay [Hl Hs] Hfresh.
  destruct (createMessage_run w md recipient i p pk Hopen Hrec Hi Hp Hpk)
    as (w1 & Hrun1 & Hst1 & Hsent1 & Hrs1 & Hrl1 & _ & _ & _ & Ho1 & _).
  rewrite Hrelay in Hrs1, Hrl1.
  set (message := message_built w i p recipient pk md) in *.
  set (relay := relay_built w i p recipient pk md) in *.
  assert (relays_listed w1) as Hlisted1.
  { unfold relays_listed. rewrite Hrs1, Hrl1. by apply relays_listed_push. }
  destruct (processRelaysForConnection_run w1 recipient Ho1 Hlisted1)
    as (delivered & w2 & Hrun2 & Hmsgs & Hstore2 & Hlist2 & Hm2 & _).
  exists message, relay, w1, delivered, w2.
  split; [exact Hrun1|]. split; [exact Hlisted1|].
  split; [by rewrite Hrs1; apply lookup_insert_eq|].
  split; [reflexivity|]. split; [reflexivity|].
  split; [exact Hrun2|].
  split.
  { assert (relay ∈ filter (λ r, relay_targetRecipientId r = conn_did recipient)
                           (messages_relays (state w1))) as Hin.
    { apply list_elem_of_filter. split; [reflexivity|].
      rewrite Hrl1. apply elem_of_app. right. by left. }
    apply list_elem_of_lookup in Hin as [n Hn].
    destruct (Forall2_lookup_l _ _ _ _ _ Hmsgs Hn) as (d & Hd & Hfor).
    exists d. split; [by eapply list_elem_of_lookup_2|]. split; [exact Hfor|].
    by destruct Hfor as (_ & _ & _ & _ & _ & -> & _). }
  split.
  { destruct (store_relays (db w2) !! relay_id relay) as [r|] eqn:Hr; [|done].
    apply Hstore2 in Hr as [Hr Hne]. rewrite Hrs1, lookup_insert_eq in Hr.
    injection Hr as <-. by destruct Hne. }
  split.
  { intros r Hr. rewrite Hlist2 in Hr. by apply list_elem_of_filter in Hr as [? _]. }
  split.
  { destruct Hlisted1 as [Hl1 Hs1]. split.
    - intros r Hr. rewrite Hlist2 in Hr. apply list_elem_of_filter in Hr as [Hne Hr].
      apply Hstore2. split; [by apply Hl1|done].
    - intros k r Hk. apply Hstore2 in Hk as [Hk Hne].
      destruct (Hs1 k r Hk) as [Hid Hin]. split; [done|].
      rewrite Hlist2. by apply list_elem_of_filter. }
  rewrite Hm2, Hst1. apply lookup_insert_eq.
Qed.

End relay_life.

(** ** The database read back *)

Section round_trips.
Context `{CryptoJS} `{JSON} `{DateLib}.

(** X14: The connections store, written and read back: a record that breaks
    no index is stored, and is then what [getConnection] gives for its id
    and [getConnectionByDID] for its did; once deleted, both give
    [null].  A record whose did another id holds is refused with a
    ConstraintError, and the store is as before. *)
Theorem saveConnection_round_trip (w : World) (c : Connection) :
  db_open (db w) = true →
  store_sound w →
  (DB.did_free c (store_connections (db w)) →
   ∃ w1 w2,
     DB.saveConnection c w = (Ok tt, w1)
     ∧ DB.getConnection (conn_id c) w1 = (Ok (Some c), w1)
     ∧ DB.getConnectionByDID (Some (conn_did c)) w1 = (Ok (Some c), w1)
     ∧ (∃ l, DB.getAllConnections w1 = (Ok l, w1) ∧ c ∈ l)
     ∧ DB.deleteConnection (conn_id c) w1 = (Ok tt, w2)
     ∧ DB.getConnection (conn_id c) w2 = (Ok None, w2)
     ∧ DB.getConnectionByDID (Some (conn_did c)) w2 = (Ok None, w2))
  ∧ (¬ DB.did_free c (store_connections (db w)) →
     DB.saveConnection c w = (Throw (DOMException "ConstraintError"), w)).
Proof.
  intros Hopen Hsound. split.
  - intros Hfree.
    pose proof (saveConnection_keeps_store_sound c w Hsound) as Hsound1.
    rewrite saveConnection_ok in Hsound1 by done.
    rewrite saveConnection_ok by done.
    set (w1 := with_db _ w) in *.
    assert (db_open (db w1) = true) as Ho1 by done.
    assert (store_connections (db w1) !! conn_id c = Some c) as Hc1
      by apply lookup_insert_eq.
    destruct Hsound1 as [Hk1 Hu1].
    eexists w1, _. split; [reflexivity|].
    split; [by rewrite getConnection_ok, Hc1|].
    split; [by apply (getConnectionByDID_found w1 (conn_id c))|].
    split.
    { eexists. split; [by apply getAllConnections_ok|]. apply elem_of_by_key. eauto. }
    split; [by apply deleteConnection_ok|].
    split.
    + rewrite getConnection_ok by done. cbn. by rewrite lookup_delete_eq.
    + apply getConnectionByDID_fresh; [done|].
      intros k x Hkx Hd. cbn in Hkx. apply lookup_delete_Some in Hkx as [Hne Hkx].
      apply Hne. symmetry. by apply (Hu1 k (conn_id c) x c).
  - intros Hnot. unfold DB.saveConnection, DB.transaction. rewrite Hopen.
    by rewrite bool_decide_eq_false_2.
Qed.

Lemma transaction_read {A : Type} (w : World) (f : DBState → A) :
  db_open (db w) = true →
  DB.transaction (λ d, Ok (f d, d)) w = (Ok (f (db w)), w).
Proof. intros Hopen. unfold DB.transaction. rewrite Hopen. by rewrite with_db_same. Qed.

(** X15: [loadConnections] and [loadMessages] make the state mirror the
    database: [state.connections] lists exactly the stored connections,
    [state.messages.received] the stored messages addressed to the user's
    did, [state.messages.sent] those sent from it, and
    [state.messages.relays] every stored relay; the database is not
    written.  Without an identity [loadMessages] throws a TypeError and
    leaves the lists as they are. *)
Theorem load_mirrors_store (w : World) :
  db_open (db w) = true →
  (∃ w', App.loadConnections w = (Ok (connections (state w')), w')
     ∧ (∀ c, c ∈ connections (state w') ↔ ∃ k, store_connections (db w) !! k = Some c)
     ∧ (DB.store_keyed (store_connections (db w)) →
        ∀ c, c ∈ connections (state w') → store_connections (db w') !! conn_id c = Some c)
     ∧ db w' = db w)
  ∧ (∀ i, identity (state w) = Some i →
     ∃ w', App.loadMessages w
           = (Ok (messages_received (state w'), messages_sent (state w'),
                  messages_relays (state w')), w')
       ∧ (∀ m, m ∈ messages_received (state w')
               ↔ (∃ k, store_messages (db w) !! k = Some m) ∧ msg_recipientId m = Some (did i))
       ∧ (∀ m, m ∈ messages_sent (state w')
               ↔ (∃ k, store_messages (db w) !! k = Some m) ∧ msg_senderId m = Some (did i))
       ∧ (∀ r, r ∈ messages_relays (state w') ↔ ∃ k, store_relays (db w) !! k = Some r)
       ∧ connections (state w') = connections (state w)
       ∧ db w' = db w)
  ∧ (identity (state w) = None →
     ∃ w' e, App.loadMessages w = (Throw (TypeError e), w')
       ∧ state w' = state w ∧ db w' = db w).
Proof.
  intros Hopen. split; [|split].
  - unfold App.loadConnections, try_catch, bind.
    rewrite getAllConnections_ok by done. cbn.
    match goal with |- ∃ w', (_, ?W) = _ ∧ _ => exists W end.
    split; [reflexivity|]. cbn.
    split; [intros c; apply elem_of_by_key|].
    split; [|done].
    intros Hkeyed c Hc. apply elem_of_by_key in Hc as [k Hk].
    by rewrite (Hkeyed _ _ Hk).
  - intros i Hi.
    unfold App.loadMessages, try_catch, App.did_of_state.
    unfold bind, get_world. rewrite Hi. cbn -[DB.transaction].
    unfold DB.getReceivedMessages, DB.getSentMessages, DB.getAllRelays.
    rewrite !transaction_read by done. cbn.
    match goal with |- ∃ w', (_, ?W) = _ ∧ _ => exists W end.
    split; [reflexivity|]. cbn.
    split.
    { intros m. rewrite list_elem_of_filter, elem_of_by_key. tauto. }
    split.
    { intros m. rewrite list_elem_of_filter, elem_of_by_key. tauto. }
    split; [intros r; apply elem_of_by_key|]. done.
  - intros Hi. unfold App.loadMessages, try_catch, App.did_of_state.
    unfold bind, get_world. rewrite Hi. cbn.
    eexists _, _. split; [reflexivity|]. done.
Qed.

End round_trips.

(** ** Backups, signatures and the onboarding code *)

Section crypto_more.
Context `{CryptoJS} `{JSON} `{DateLib} `{HmacJS}.

Lemma decryptBackupData_returns (c : option ciphertext) (key : string) :
  ∃ v, Crypto.decryptBackupData c key = Ok v.
Proof.
  unfold Crypto.decryptBackupData.
  destruct (decryptMessage_returns c key) as [v ->]. cbn.
  destruct (JSON_parse _); cbn; eauto.
Qed.

(** X16: A backup is opened by the identity's public key, not by its private
    key: [createBackupData] seals the backup under the public key with
    the symmetric cipher, so [decryptBackupData] gives the backup back
    for the public key and [null] for the private key, and it never
    throws. *)
Theorem backup_opens_with_public_key (profile : Profile) (identity : Identity)
    (now : Z) (salt : string) :
  AES_correct →
  AES_wrong_key_garbles →
  JSON_parse "null" = Ok JNull →
  JSON_parse (JSON_stringify (Crypto.backup_json profile identity now))
    = Ok (Crypto.backup_json profile identity now) →
  publicKey identity ≠ privateKey identity →
  let backup := Crypto.createBackupData now salt profile identity in
  Crypto.decryptBackupData (Some backup) (publicKey identity)
    = Ok (Crypto.backup_json profile identity now)
  ∧ Crypto.decryptBackupData (Some backup) (privateKey identity) = Ok JNull
  ∧ (∀ c key, ∃ v, Crypto.decryptBackupData c key = Ok v).
Proof.
  intros Hc Hg Hnull Hj Hne backup. split; [|split].
  - unfold backup, Crypto.decryptBackupData, Crypto.createBackupData.
    rewrite decryptMessage_same_key by done. cbn. by rewrite Hj.
  - unfold backup, Crypto.decryptBackupData, Crypto.createBackupData,
      Crypto.decryptMessage, Crypto.encryptMessage. cbn.
    destruct (AES_decrypt_utf8 _ (privateKey identity)) as [s|e] eqn:Hs; cbn.
    + destruct (Hg _ _ _ _ _ Hne Hs) as [e ->]. done.
    + by rewrite Hnull.
  - apply decryptBackupData_returns.
Qed.

(** X17: A signature made with the private key of a generated pair is not
    accepted for its public key, and one made with the public key is, for
    every did: [verifyDID] recomputes the keyed hash under the public key
    and does not look at the did. *)
Theorem verifyDID_rejects_private_key_signature (random challenge : string) :
  Hmac_keyed →
  SHA256_hex random ≠ random →
  let pair := Crypto.generateKeyPair random in
  (∀ did, Crypto.verifyDID did (kp_publicKey pair) challenge
            (Crypto.signChallenge challenge (kp_privateKey pair)) = false)
  ∧ (∀ did, Crypto.verifyDID did (kp_publicKey pair) challenge
              (Crypto.signChallenge challenge (kp_publicKey pair)) = true).
Proof.
  intros Hk Hne pair. split; intros d; unfold Crypto.verifyDID, Crypto.signChallenge; cbn.
  - apply String.eqb_neq. apply Hk. congruence.
  - apply String.eqb_refl.
Qed.

Lemma prefix_append (p a b : string) :
  String.prefix p a = true → String.prefix p (a ++ b) = true.
Proof.
  revert a. induction p as [|c p IH]; intros a.
  { intros _. by destruct (a ++ b). }
  destruct a as [|c' a]; [done|].
  change (String c' a ++ b) with (String c' (a ++ b)). cbn [String.prefix].
  destruct (ascii_dec c c'); [apply IH|done].
Qed.

Lemma prefix_self_append (p b : string) : String.prefix p (p ++ b) = true.
Proof.
  induction p as [|c p IH]; [by destruct b|].
  change (String c p ++ b) with (String c (p ++ b)). cbn [String.prefix].
  by destruct (ascii_dec c c).
Qed.

Lemma index_found (pat a b : string) : is_Some (String.index 0 pat (a ++ pat ++ b)).
Proof.
  induction a as [|c a IH].
  - change ("" ++ pat ++ b) with (pat ++ b). destruct (pat ++ b) as [|c r] eqn:Hpb.
    + destruct pat; [by cbn|done].
    + cbn [String.index]. rewrite <- Hpb, prefix_self_append. done.
  - change (String c a ++ pat ++ b) with (String c (a ++ pat ++ b)). cbn [String.index].
    destruct (String.prefix pat _); [done|].
    destruct IH as [n ->]. done.
Qed.

Lemma onboarding_url_recognised (origin : string) (profile : Profile) (identity : Identity) :
  String.prefix "http" origin = true →
  Connect.is_onboarding_url (Crypto.createOnboardingQRData origin profile identity) = true.
Proof.
  intros Hp. unfold Connect.is_onboarding_url, Crypto.createOnboardingQRData.
  rewrite prefix_append by done. cbn [andb].
  apply bool_decide_eq_true.
  cbn [Crypto.form_urlencoded].
  change (Crypto.form_encode "type") with "type".
  change (Crypto.form_encode "onboarding") with "onboarding".
  match goal with |- is_Some (String.index 0 _ (origin ++ "?" ++ "type" ++ "=" ++ "onboarding" ++ ?rest)) =>
    change (origin ++ "?" ++ "type" ++ "=" ++ "onboarding" ++ rest)
      with (origin ++ "?type=onboarding" ++ rest)
  end.
  apply index_found.
Qed.

(** X18: The onboarding code this app shows is followed when it is scanned:
    for an origin that starts with [http], the text
    [createOnboardingQRData] builds has the form [processScannedCode]
    takes for an onboarding address, whatever the names and the did
    contain; not being JSON, it is navigated to and no stage is assigned. *)
Theorem onboarding_code_is_followed (w : World) (origin : string) (profile : Profile)
    (identity : Identity) (e : Error) :
  String.prefix "http" origin = true →
  let url := Crypto.createOnboardingQRData origin profile identity in
  JSON_parse url = Throw e →
  ∃ w', Connect.processScannedCode url w = (Ok tt, w')
    ∧ location_href (ui w') = Some url
    ∧ connectionStage (connect w') = connectionStage (connect w)
    ∧ stage_history (connect w') = stage_history (connect w)
    ∧ console_errors (ui w') = console_errors (ui w)
    ∧ alerts (ui w') = alerts (ui w).
Proof.
  intros Hp url Hparse.
  destruct (stopScanner_run w) as (w0 & Hstop & Hui & Hrtc & Hstage & Hhist & Hcd).
  unfold Connect.processScannedCode, try_catch, bind, lift.
  rewrite Hstop. cbn [snd]. rewrite Hparse.
  unfold url. rewrite onboarding_url_recognised by done.
  eexists. split; [reflexivity|]. cbn. by rewrite Hui.
Qed.

End crypto_more.

(** ** Computations that return *)

Section returning.
Context `{CryptoJS}.
Context (P : World → World → Prop) `{!PreOrder P}.

Lemma returns_ret {A : Type} (a : A) : returns P (ret a).
Proof. intros w. exists a, w. split; reflexivity. Qed.

Lemma returns_get_world : returns P get_world.
Proof. intros w. exists w, w. split; reflexivity. Qed.

Lemma returns_lift {A : Type} (a : A) : returns P (lift (Ok a)).
Proof. intros w. exists a, w. split; reflexivity. Qed.

Lemma returns_modify (f : World → World) : (∀ w, P w (f w)) → returns P (modify f).
Proof. intros Hf w. exists tt, (f w). split; [reflexivity|apply Hf]. Qed.

Lemma returns_bind {A B : Type} (m : M A) (k : A → M B) :
  returns P m → (∀ a, returns P (k a)) → returns P (bind m k).
Proof.
  intros Hm Hk w. unfold bind. destruct (Hm w) as (a & w1 & -> & H1).
  destruct (Hk a w1) as (b & w2 & -> & H2). exists b, w2. split; [done|by etransitivity].
Qed.

Lemma returns_try_catch {A : Type} (body : M A) (handler : Error → M A) :
  preserves P body → (∀ e, returns P (handler e)) → returns P (try_catch body handler).
Proof.
  intros Hb Hh w. unfold try_catch. specialize (Hb w).
  destruct (body w) as [[a|e] w1]; cbn in Hb.
  - by exists a, w1.
  - destruct (Hh e w1) as (a & w2 & -> & H2). exists a, w2. split; [done|by etransitivity].
Qed.

Lemma returns_preserves {A : Type} (m : M A) : returns P m → preserves P m.
Proof. intros Hm w. by destruct (Hm w) as (a & w' & -> & Hp). Qed.

Lemma returns_for_of {A : Type} (xs : list A) (body : A → M unit) :
  (∀ x, returns P (body x)) → returns P (App.for_of xs body).
Proof.
  intros Hb. induction xs as [|x xs IH]; cbn [App.for_of].
  - apply returns_ret.
  - apply returns_bind; [apply Hb|by intros _].
Qed.

End returning.

Section same_app_facts.
Context `{CryptoJS}.

Lemma same_app_preorder : PreOrder same_app.
Proof.
  split.
  - by intros w.
  - intros a b c (? & ? & ? & ? & ?) (? & ? & ? & ? & ?). repeat split; congruence.
Qed.

Lemma sendData_same_app d : returns same_app (WebRTC.sendData d).
Proof.
  intros w. unfold WebRTC.sendData.
  destruct (channel_open _ _); [destruct (send_succeeds _ _)|]; cbn; eexists _, _; by split.
Qed.

Lemma new_Date_same_app : returns same_app new_Date.
Proof. intros w. eexists _, _. by split. Qed.

End same_app_facts.

#[global] Existing Instance same_app_preorder.

Section exchange_runs.
Context `{CryptoJS} `{JSON} `{DateLib}.

Lemma stamped_send_same_app (f : Z → DataMsg) :
  returns same_app (timestamp <- new_Date ;; WebRTC.sendData (f timestamp) ;; ret tt).
Proof.
  apply returns_bind; [apply _|apply new_Date_same_app|]. intros z.
  apply returns_bind; [apply _|apply sendData_same_app|]. intros _.
  apply returns_ret. apply _.
Qed.

(** With the profile in place [handleDataExchange] throws nothing: it
    assigns EXCHANGING and no other stage. *)
Lemma handleDataExchange_run (w : World) (p : Profile) :
  profile (state w) = Some p →
  ∃ w', Connect.handleDataExchange w = (Ok tt, w')
    ∧ connectionStage (connect w') = EXCHANGING
    ∧ stage_history (connect w') = (stage_history (connect w) ++ [EXCHANGING])%list
    ∧ connectionData (connect w') = connectionData (connect w)
    ∧ localDescription (connect w') = localDescription (connect w)
    ∧ remoteDescription (connect w') = remoteDescription (connect w)
    ∧ state w' = state w ∧ db w' = db w ∧ env w' = env w
    ∧ alerts (ui w') = alerts (ui w).
Proof.
  intros Hp.
  unfold Connect.handleDataExchange, try_catch.
  unfold bind at 1. unfold set_stage, modify. cbn [fst snd].
  unfold bind at 1. unfold App.getState. cbn [fst snd state with_connect].
  rewrite Hp.
  set (w0 := with_connect _ w).
  assert (returns same_app
    (Connect.sendProfileData (Some p) ;;
     Connect.sendConnectionsData (connections (state w)) ;;
     Connect.sendMessagesData (state w) ;;
     Connect.sendRelaysData (messages_relays (state w)) ;;
     timestamp <- new_Date ;;
     WebRTC.sendData (DComplete timestamp) ;;
     ret tt)) as Hsends.
  { apply returns_bind; [apply _|apply stamped_send_same_app|]. intros _.
    apply returns_bind; [apply _|apply stamped_send_same_app|]. intros _.
    apply returns_bind; [apply _|apply stamped_send_same_app|]. intros _.
    apply returns_bind.
    { apply _. }
    { unfold Connect.sendRelaysData. apply returns_bind; [apply _|apply returns_get_world; apply _|].
      intros w1. apply stamped_send_same_app. }
    intros _. apply stamped_send_same_app. }
  destruct (Hsends w0) as ([] & w' & -> & He & Hd & Hs & Hc & Ha).
  exists w'. split; [reflexivity|]. rewrite Hc, Hs, Hd, He, Ha. by repeat split.
Qed.

End exchange_runs.

(** ** The handshake, end to end *)

Section handshake.
Context `{CryptoJS} `{JSON} `{DateLib}.

(** Showing the offer. *)
Lemma generateQRCode_run (w : World) (p : Profile) (browser : WebRTC.Browser) (t s : string) :
  profile (state w) = Some p →
  WebRTC.creates browser = Ok (t, s) →
  ∃ w', Connect.generateQRCode browser w = (Ok tt, w')
    ∧ connectionStage (connect w') = OFFER_CREATED
    ∧ stage_history (connect w') = (stage_history (connect w) ++ [INIT; OFFER_CREATED])%list
    ∧ connectionData (connect w')
      = Some (Connect.offerConnectionData p (clock (env w) (n_clock (draws w))))
    ∧ localDescription (connect w') = Some (WebRTC.description t s)
    ∧ qrCheckInterval (connect w') = true
    ∧ peerConnection (rtc w') = true
    ∧ state w' = state w ∧ db w' = db w ∧ env w' = env w
    ∧ alerts (ui w') = alerts (ui w)
    ∧ console_errors (ui w') = console_errors (ui w).
Proof.
  intros Hp Hb.
  unfold Connect.generateQRCode, Connect.initializeConnectionOffer, try_catch, bind,
    App.getState, WebRTC.initiateConnection, try_catch, bind, lift.
  cbn. rewrite Hp. cbn. rewrite Hb. cbn.
  eexists. split; [reflexivity|]. cbn. rewrite <- app_assoc. by repeat split.
Qed.

(** [stopScanner] returns, and touches the two scanner variables only. *)
Lemma stopScanner_only (w : World) :
  ∃ w0, Connect.stopScanner w = (Ok tt, w0)
    ∧ ui w0 = ui w ∧ rtc w0 = rtc w ∧ state w0 = state w ∧ db w0 = db w
    ∧ env w0 = env w ∧ draws w0 = draws w
    ∧ connectionStage (connect w0) = connectionStage (connect w)
    ∧ stage_history (connect w0) = stage_history (connect w)
    ∧ connectionData (connect w0) = connectionData (connect w)
    ∧ localDescription (connect w0) = localDescription (connect w)
    ∧ remoteDescription (connect w0) = remoteDescription (connect w)
    ∧ answerQrCode (connect w0) = answerQrCode (connect w)
    ∧ qrCheckInterval (connect w0) = qrCheckInterval (connect w).
Proof.
  unfold Connect.stopScanner, bind, get_world.
  destruct (negb _ || negb _); eexists; (split; [reflexivity|done]).
Qed.

(** The offer scanned by the other device. *)
Lemma offer_scanned_run (w : World) (p : Profile) (now : Z) (t s code : string) :
  JSON_parse code = Ok (offer_payload p now t s) →
  ∃ w', Connect.processScannedCode code w = (Ok tt, w')
    ∧ connectionStage (connect w') = OFFER_SCANNED
    ∧ stage_history (connect w') = (stage_history (connect w) ++ [OFFER_SCANNED])%list
    ∧ connectionData (connect w') = Some (offer_payload p now t s)
    ∧ remoteDescription (connect w') = Some (WebRTC.description t s)
    ∧ confirmation (ui w') = Some (offer_payload p now t s)
    ∧ state w' = state w ∧ db w' = db w ∧ env w' = env w ∧ draws w' = draws w
    ∧ rtc w' = rtc w
    ∧ alerts (ui w') = alerts (ui w)
    ∧ console_errors (ui w') = console_errors (ui w).
Proof.
  intros Hparse.
  unfold Connect.processScannedCode, try_catch. unfold bind at 1.
  destruct (stopScanner_only w)
    as (w0 & -> & Hui & Hrtc & Hst & Hdb & Henv & Hdr & Hstage & Hhist & _).
  rewrite Hparse. unfold bind, lift. cbn.
  eexists. split; [reflexivity|]. cbn. rewrite Hui, Hrtc, Hst, Hdb, Henv, Hdr, Hhist.
  by repeat split.
Qed.

(** The offer confirmed by the other device. *)
Lemma offer_confirmed_run (w : World) (p : Profile) (now : Z) (t s tb sb : string)
    (browser : WebRTC.Browser) :
  connectionData (connect w) = Some (offer_payload p now t s) →
  confirmation (ui w) = Some (offer_payload p now t s) →
  connectionStage (connect w) = OFFER_SCANNED →
  JSON_stringify (offer_payload p now t s) ≠ "" →
  JSON_parse (JSON_stringify (offer_payload p now t s)) = Ok (offer_payload p now t s) →
  rtc_accepts (env w) (Some (WebRTC.description t s)) = true →
  WebRTC.creates browser = Ok (tb, sb) →
  ∃ w', Connect.handleConnectionConfirmation browser true w = (Ok tt, w')
    ∧ connectionStage (connect w') = ANSWER_CREATED
    ∧ stage_history (connect w') = (stage_history (connect w) ++ [ANSWER_CREATED])%list
    ∧ answerQrCode (connect w')
      = Some (answer_payload p tb sb (clock (env w) (n_clock (draws w))))
    ∧ localDescription (connect w') = Some (WebRTC.description tb sb)
    ∧ connectionData (connect w') = connectionData (connect w)
    ∧ remoteDescription (connect w') = remoteDescription (connect w)
    ∧ state w' = state w ∧ db w' = db w ∧ env w' = env w
    ∧ alerts (ui w') = alerts (ui w)
    ∧ console_errors (ui w') = console_errors (ui w).
Proof.
  intros Hcd Hconf Hstage Hne Hparse Hacc Hb.
  assert (Js.truthy_str (Some (JSON_stringify (offer_payload p now t s))) = true) as Htruthy.
  { cbn. apply negb_true_iff, String.eqb_neq. done. }
  unfold Connect.handleConnectionConfirmation, try_catch. unfold bind at 1. unfold get_world.
  rewrite Hconf. cbn [fmap option_fmap option_map default].
  unfold bind at 1. rewrite Htruthy. cbn [ret fst snd].
  unfold bind at 1. unfold lift at 1. unfold id. rewrite Hparse.
  unfold bind at 1.
  unfold Connect.createConnectionAnswer, try_catch, WebRTC.acceptConnection, try_catch,
    WebRTC.add_candidate, Connect.handleLocalDescriptionGenerated, bind, lift, get_world.
  cbn. rewrite Hacc. cbn. rewrite Hb. cbn. rewrite Hstage.
  rewrite !bool_decide_eq_false_2 by done. cbn.
  unfold Connect.generateAnswerQRCode, bind, lift, get_world. cbn. rewrite Hcd. cbn.
  eexists. split; [reflexivity|]. cbn. rewrite Hcd. by repeat split.
Qed.

(** The answer scanned by the device that showed the offer. *)
Lemma answer_scanned_run (w : World) (p own : Profile) (now now' : Z) (tb sb code : string) :
  connectionData (connect w) = Some (Connect.offerConnectionData p now) →
  profile (state w) = Some own →
  peerConnection (rtc w) = true →
  JSON_parse code = Ok (answer_payload p tb sb now') →
  rtc_accepts (env w) (Some (WebRTC.description tb sb)) = true →
  ∃ w', Connect.processScannedCode code w = (Ok tt, w')
    ∧ connectionStage (connect w') = EXCHANGING
    ∧ stage_history (connect w')
      = (stage_history (connect w) ++ [ANSWER_SCANNED; CONNECTED; EXCHANGING])%list
    ∧ remoteDescription (connect w') = Some (WebRTC.description tb sb)
    ∧ state w' = state w
    ∧ alerts (ui w') = alerts (ui w).
Proof.
  intros Hcd Hown Hpc Hparse Hacc.
  unfold Connect.processScannedCode, try_catch. unfold bind at 1.
  destruct (stopScanner_only w)
    as (w0 & -> & Hui & Hrtc & Hst & Hdb & Henv & Hdr & Hstage & Hhist & Hcd0 & _).
  rewrite Hparse. unfold bind at 1. cbn [lift Js.prop answer_payload Connect.answer_qr_json
    Js.assoc app String.eqb Ascii.eqb Bool.eqb fst snd].
  cbn -[Connect.handleConnectionAnswer].
  unfold Connect.handleConnectionAnswer, try_catch. unfold bind at 1. unfold get_world.
  rewrite Hcd0, Hcd. cbn -[WebRTC.completeConnection Connect.handleDataExchange].
  unfold bind, lift. cbn -[WebRTC.completeConnection Connect.handleDataExchange].
  rewrite String.eqb_refl. cbn -[WebRTC.completeConnection Connect.handleDataExchange].
  rewrite completeConnection_ok;
    [|by cbn; rewrite Hrtc|done|by cbn; rewrite Henv].
  cbn -[Connect.handleDataExchange].
  match goal with |- context [Connect.handleDataExchange ?w2] =>
    destruct (handleDataExchange_run w2 own) as (w' & -> & Hst' & Hh' & _ & _ & Hr' & Hs' & _ & _ & Ha')
  end.
  { cbn. by rewrite Hst. }
  exists w'. split; [reflexivity|]. rewrite Hst', Hh', Hr', Hs', Ha'. cbn.
  rewrite Hhist, Hui, Hst.
  rewrite <- !app_assoc. by repeat split.
Qed.

(** The transport reporting [connected]. *)
Lemma connected_run (w : World) (p : Profile) :
  connectionStage (connect w) ≠ CONNECTED →
  profile (state w) = Some p →
  ∃ w', Connect.handleConnectionStateChange "connected" w = (Ok tt, w')
    ∧ connectionStage (connect w') = EXCHANGING
    ∧ stage_history (connect w')
      = (stage_history (connect w) ++ [CONNECTED; EXCHANGING])%list
    ∧ state w' = state w
    ∧ alerts (ui w') = alerts (ui w).
Proof.
  intros Hstage Hp.
  unfold Connect.handleConnectionStateChange, get_stage. unfold bind at 1. unfold get_world.
  cbn [fst snd String.eqb Ascii.eqb Bool.eqb].
  rewrite bool_decide_eq_true_2 by done.
  unfold bind, set_stage, Connect.updateConnectionInstructions, modify.
  cbn -[Connect.handleDataExchange].
  match goal with |- context [Connect.handleDataExchange ?w2] =>
    destruct (handleDataExchange_run w2 p) as (w' & -> & Hst' & Hh' & _ & _ & _ & Hs' & _ & _ & Ha')
  end.
  { exact Hp. }
  exists w'. split; [reflexivity|]. rewrite Hst', Hh', Hs', Ha'. cbn.
  rewrite <- !app_assoc. by repeat split.
Qed.

(** X19: The handshake of two devices.  Device A shows its offer, device B
    scans and confirms it and shows its answer, A scans the answer, and
    the transport reports [connected] on both. *)
Theorem handshake_reaches_exchange (wa wb : World) (pa pb : Profile)
    (browser_a browser_b : WebRTC.Browser) (ta sa tb sb : string) :
  let offer := offer_payload pa (clock (env wa) (n_clock (draws wa))) ta sa in
  let answer := answer_payload pa tb sb (clock (env wb) (n_clock (draws wb))) in
  profile (state wa) = Some pa →
  profile (state wb) = Some pb →
  WebRTC.creates browser_a = Ok (ta, sa) →
  WebRTC.creates browser_b = Ok (tb, sb) →
  rtc_accepts (env wb) (Some (WebRTC.description ta sa)) = true →
  rtc_accepts (env wa) (Some (WebRTC.description tb sb)) = true →
  JSON_stringify offer ≠ "" →
  JSON_parse (JSON_stringify offer) = Ok offer →
  JSON_parse (JSON_stringify answer) = Ok answer →
  ∃ wa1 wb1 wb2 wa2 wa3 wb3,
    Connect.generateQRCode browser_a wa = (Ok tt, wa1)
    ∧ Connect.processScannedCode (Connect.connection_qr_value wa1) wb = (Ok tt, wb1)
    ∧ Connect.handleConnectionConfirmation browser_b true wb1 = (Ok tt, wb2)
    ∧ Connect.answer_qr_value wb2 = Some (JSON_stringify answer)
    ∧ Connect.processScannedCode (JSON_stringify answer) wa1 = (Ok tt, wa2)
    ∧ Connect.handleConnectionStateChange "connected" wa2 = (Ok tt, wa3)
    ∧ Connect.handleConnectionStateChange "connected" wb2 = (Ok tt, wb3)
    ∧ stage_history (connect wa3)
      = (stage_history (connect wa)
         ++ [INIT; OFFER_CREATED; ANSWER_SCANNED; CONNECTED; EXCHANGING;
             CONNECTED; EXCHANGING])%list
    ∧ stage_history (connect wb3)
      = (stage_history (connect wb)
         ++ [OFFER_SCANNED; ANSWER_CREATED; CONNECTED; EXCHANGING])%list
    ∧ remoteDescription (connect wa2) = Some (WebRTC.description tb sb)
    ∧ remoteDescription (connect wb2) = Some (WebRTC.description ta sa)
    ∧ alerts (ui wa3) = alerts (ui wa)
    ∧ alerts (ui wb3) = alerts (ui wb).
Proof.
  intros offer answer Hpa Hpb Hba Hbb Hacc_b Hacc_a Hne Hoffer Hanswer.
  destruct (generateQRCode_run wa pa browser_a ta sa Hpa Hba)
    as (wa1 & Ha1 & Hsa1 & Hha1 & Hcda1 & Hlda1 & _ & Hpca1 & Hsta1 & _ & Hea1 & Hala1 & _).
  assert (Connect.connection_qr_value wa1 = JSON_stringify offer) as Hcode.
  { unfold Connect.connection_qr_value. by rewrite Hcda1, Hlda1. }
  destruct (offer_scanned_run wb pa (clock (env wa) (n_clock (draws wa))) ta sa
              (JSON_stringify offer) Hoffer)
    as (wb1 & Hb1 & Hsb1 & Hhb1 & Hcdb1 & Hrdb1 & Hcfb1 & Hstb1 & _ & Heb1 & Hdrb1 & _
        & Halb1 & _).
  destruct (offer_confirmed_run wb1 pa (clock (env wa) (n_clock (draws wa))) ta sa tb sb
              browser_b Hcdb1 Hcfb1 Hsb1 Hne Hoffer)
    as (wb2 & Hb2 & Hsb2 & Hhb2 & Hqrb2 & _ & _ & Hrdb2 & Hstb2 & _ & _ & Halb2 & _);
    [by rewrite Heb1|exact Hbb|].
  rewrite Heb1, Hdrb1 in Hqrb2.
  destruct (answer_scanned_run wa1 pa pa (clock (env wa) (n_clock (draws wa)))
              (clock (env wb) (n_clock (draws wb))) tb sb (JSON_stringify answer))
    as (wa2 & Ha2 & Hsa2 & Hha2 & Hrda2 & Hsta2 & Hala2);
    [exact Hcda1|by rewrite Hsta1|exact Hpca1|exact Hanswer|by rewrite Hea1|].
  destruct (connected_run wa2 pa) as (wa3 & Ha3 & _ & Hha3 & _ & Hala3);
    [by rewrite Hsa2|by rewrite Hsta2, Hsta1|].
  destruct (connected_run wb2 pb) as (wb3 & Hb3 & _ & Hhb3 & _ & Halb3);
    [by rewrite Hsb2|by rewrite Hstb2, Hstb1|].
  exists wa1, wb1, wb2, wa2, wa3, wb3.
  split; [exact Ha1|]. split; [by rewrite Hcode|]. split; [exact Hb2|].
  split; [unfold Connect.answer_qr_value; by rewrite Hqrb2|].
  split; [exact Ha2|]. split; [exact Ha3|]. split; [exact Hb3|].
  split; [rewrite Hha3, Hha2, Hha1, <- !app_assoc; done|].
  split; [rewrite Hhb3, Hhb2, Hhb1, <- !app_assoc; done|].
  split; [exact Hrda2|].
  split; [by rewrite Hrdb2, Hrdb1|].
  split; [by rewrite Hala3, Hala2, Hala1|by rewrite Halb3, Halb2, Halb1].
Qed.

End handshake.

(** ** The list of connections mirrors the store *)

Section mirror.
Context `{CryptoJS} `{JSON} `{DateLib}.

(** A handler that logs and throws again leaves the database and the
    state as the body left them. *)
Lemma rethrown {A : Type} (body : M A) (label : string) (w : World) :
  db (try_catch body (λ error, console_error label error ;; throw error) w).2 = db (body w).2
  ∧ state (try_catch body (λ error, console_error label error ;; throw error) w).2
    = state (body w).2.
Proof. unfold try_catch. by destruct (body w) as [[a|e] w1]. Qed.

(** What [updateExistingConnection] leaves, returned or thrown, for a
    stored record. *)
Lemma updateExistingConnection_outcome (w : World) (existing : Connection)
    (cd : ConnectionData) :
  db_open (db w) = true →
  DB.did_free existing (store_connections (db w)) →
  let w' := (App.updateExistingConnection existing cd w).2 in
  (store_connections (db w') = store_connections (db w)
   ∧ connections (state w') = connections (state w))
  ∨ (∃ updated,
       conn_id updated = conn_id existing
       ∧ updated ≠ existing
       ∧ store_connections (db w') = <[conn_id existing := updated]> (store_connections (db w))
       ∧ connections (state w') = App.replace_connection updated (connections (state w))).
Proof.
  intros Hopen Hfree. cbn zeta.
  unfold App.updateExistingConnection, App.profile_of, App.createBackupData_of_state,
    DB.saveConnection, DB.transaction, App.store_updated, App.UI_update,
    bind, new_Date, draw_salt, get_world, ret, throw, modify.
  cbn [fst snd].
  destruct (cd_profile cd) as [pp|]; [|left; by cbn].
  cbn. destruct (profile (state w)) as [p|]; [|left; by cbn].
  destruct (identity (state w)) as [i|]; [|left; by cbn].
  cbn -[insert]. rewrite Hopen. rewrite bool_decide_eq_true_2 by exact Hfree.
  cbn -[insert App.updatedConnection]. right.
  match goal with |- context [<[_ := ?u]> _] => exists u end.
  split; [reflexivity|]. split; [|split; reflexivity].
  intros Heq. apply (f_equal conn_connectionCount) in Heq. cbn in Heq. lia.
Qed.

(** What [createNewConnection] leaves, returned or thrown, for a did the
    store does not hold. *)
Lemma createNewConnection_outcome (w : World) (cd : ConnectionData) (d : string) :
  db_open (db w) = true →
  cd_did cd = Some d →
  (∀ k c, store_connections (db w) !! k = Some c → conn_did c ≠ d) →
  let w' := (App.createNewConnection cd w).2 in
  (store_connections (db w') = store_connections (db w)
   ∧ connections (state w') = connections (state w))
  ∨ (∃ created,
       conn_id created = uuid_v4 (env w) (n_uuid (draws w))
       ∧ store_connections (db w') = <[conn_id created := created]> (store_connections (db w))
       ∧ connections (state w') = (connections (state w) ++ [created])%list).
Proof.
  intros Hopen Hd Hfresh. cbn zeta.
  unfold App.createNewConnection, App.profile_of, App.createBackupData_of_state,
    DB.saveConnection, DB.transaction, App.push_connection, App.UI_update,
    bind, new_Date, uuid_v4_call, draw_salt, get_world, ret, throw, modify.
  cbn [fst snd].
  destruct (cd_profile cd) as [pp|]; [|left; by cbn].
  cbn. destruct (profile (state w)) as [p|]; [|left; by cbn].
  destruct (identity (state w)) as [i|]; [|left; by cbn].
  cbn -[insert]. rewrite Hd. cbn -[insert]. rewrite Hopen. rewrite bool_decide_eq_true_2.
  - cbn -[insert App.newConnection]. right.
    match goal with |- context [<[_ := ?u]> _] => exists u end.
    split; [reflexivity|]. split; reflexivity.
  - intros k c Hk Hdid. cbn in Hdid. by destruct (Hfresh k c Hk).
Qed.

(** What [addConnection] leaves, returned or thrown: the store and the
    list as they were, or one record more in both, or one record replaced
    in both. *)
Lemma addConnection_outcome (w : World) (cd : ConnectionData) :
  store_sound w →
  let w' := (App.addConnection cd w).2 in
  (store_connections (db w') = store_connections (db w)
   ∧ connections (state w') = connections (state w))
  ∨ (∃ created,
       conn_id created = uuid_v4 (env w) (n_uuid (draws w))
       ∧ store_connections (db w') = <[conn_id created := created]> (store_connections (db w))
       ∧ connections (state w') = (connections (state w) ++ [created])%list)
  ∨ (∃ existing updated,
       store_connections (db w) !! conn_id existing = Some existing
       ∧ conn_id updated = conn_id existing
       ∧ updated ≠ existing
       ∧ store_connections (db w') = <[conn_id existing := updated]> (store_connections (db w))
       ∧ connections (state w') = App.replace_connection updated (connections (state w))).
Proof.
  intros [Hkeyed Hunique]. cbn zeta.
  unfold App.addConnection.
  match goal with |- context [try_catch ?b _ w] =>
    destruct (rethrown b "Adding connection failed:" w) as [-> ->] end.
  unfold bind, DB.getConnectionByDID, DB.transaction.
  destruct (db_open (db w)) eqn:Hopen; [|left; by cbn].
  destruct (cd_did cd) as [d|] eqn:Hd; [|left; by cbn].
  cbn [fst snd]. rewrite with_db_same.
  destruct (list_find _ _) as [[n [k existing]]|] eqn:Hfind; cbn [fmap option_fmap option_map snd].
  - apply list_find_Some in Hfind as (Hn & Hdid & _).
    apply list_elem_of_lookup_2, elem_of_map_to_list in Hn. cbn in Hdid.
    pose proof (Hkeyed _ _ Hn) as Hk. subst k.
    destruct (updateExistingConnection_outcome w existing cd Hopen)
      as [Hsame|(updated & Hid & Hne & Hstore & Hlist)].
    { by eapply did_free_stored. }
    + by left.
    + right. right. by exists existing, updated.
  - apply list_find_None in Hfind. rewrite Forall_forall in Hfind.
    destruct (createNewConnection_outcome w cd d Hopen Hd)
      as [Hsame|(created & Hid & Hstore & Hlist)].
    { intros k c Hk Hdid. apply (Hfind (k, c)); [by apply elem_of_map_to_list|done]. }
    + by left.
    + right. left. by exists created.
Qed.

(** A list that mirrors a store, with one record more in both. *)
Lemma mirrored_push (store : gmap string Connection) (l : list Connection) (c : Connection) :
  DB.store_keyed store →
  NoDup l →
  (∀ x, x ∈ l ↔ ∃ k, store !! k = Some x) →
  store !! conn_id c = None →
  NoDup (l ++ [c])%list
  ∧ ∀ x, x ∈ (l ++ [c])%list ↔ ∃ k, <[conn_id c := c]> store !! k = Some x.
Proof.
  intros Hkeyed Hnd Hl Hnone.
  assert (c ∉ l) as Hnin.
  { intros Hin. apply Hl in Hin as [k Hk]. rewrite <- (Hkeyed _ _ Hk) in Hk. congruence. }
  split.
  - apply NoDup_app. split; [done|]. split; [|apply NoDup_singleton].
    intros x Hx Hxc. apply list_elem_of_singleton in Hxc as ->. done.
  - intros x. rewrite elem_of_app, list_elem_of_singleton, Hl. split.
    + intros [[k Hk]| ->].
      * exists k. rewrite lookup_insert_ne; [done|]. intros <-. congruence.
      * exists (conn_id c). apply lookup_insert_eq.
    + intros [k Hk]. apply lookup_insert_Some in Hk as [[_ <-]|[_ Hk]]; eauto.
Qed.

(** A list that mirrors a store, with one record replaced in both. *)
Lemma mirrored_replace (store : gmap string Connection) (l : list Connection)
    (existing updated : Connection) :
  DB.store_keyed store →
  NoDup l →
  (∀ x, x ∈ l ↔ ∃ k, store !! k = Some x) →
  store !! conn_id existing = Some existing →
  conn_id updated = conn_id existing →
  updated ≠ existing →
  NoDup (App.replace_connection updated l)
  ∧ ∀ x, x ∈ App.replace_connection updated l
         ↔ ∃ k, <[conn_id existing := updated]> store !! k = Some x.
Proof.
  intros Hkeyed Hnd Hl Hstored Hid Hne.
  assert (∀ x, x ∈ l → conn_id x = conn_id existing → x = existing) as Honly.
  { intros x Hx Hxid. apply Hl in Hx as [k Hk].
    pose proof (Hkeyed _ _ Hk) as <-. rewrite Hxid in Hk. congruence. }
  assert (existing ∈ l) as Hin by (apply Hl; eauto).
  unfold App.replace_connection.
  destruct (list_find _ l) as [[index found]|] eqn:Hfind.
  2:{ apply list_find_None in Hfind. rewrite Forall_forall in Hfind.
      destruct (Hfind existing Hin). by rewrite Hid. }
  apply list_find_Some in Hfind as (Hindex & Hfid & _).
  assert (found = existing) as ->.
  { apply Honly; [by eapply list_elem_of_lookup_2|]. by rewrite Hfid. }
  rewrite insert_take_drop by (by eapply lookup_lt_Some).
  rewrite <- (take_drop_middle l index existing Hindex) in Hnd, Hl, Honly.
  apply NoDup_app in Hnd as (Hnd1 & Hdisj & Hnd2).
  apply NoDup_cons in Hnd2 as (Hnin2 & Hnd2).
  assert (updated ∉ (take index l ++ existing :: drop (S index) l)%list) as Hnew.
  { intros Hu. by apply Hne, Honly. }
  split.
  - apply NoDup_app. split; [done|]. split.
    + intros x Hx Hxu. apply elem_of_cons in Hxu as [->|Hxu].
      * apply Hnew, elem_of_app. by left.
      * apply (Hdisj x Hx). by right.
    + apply NoDup_cons. split; [|done].
      intros Hu. apply Hnew, elem_of_app. right. by right.
  - intros x. split.
    + intros Hx. apply elem_of_app in Hx as [Hx|Hx].
      * assert (x ≠ existing) as Hxe.
        { intros ->. apply (Hdisj existing Hx). by left. }
        destruct (proj1 (Hl x)) as [k Hk]; [apply elem_of_app; by left|].
        exists k. rewrite lookup_insert_ne; [done|].
        intros <-. congruence.
      * apply elem_of_cons in Hx as [->|Hx].
        { exists (conn_id existing). apply lookup_insert_eq. }
        assert (x ≠ existing) as Hxe by (by intros ->).
        destruct (proj1 (Hl x)) as [k Hk]; [apply elem_of_app; right; by right|].
        exists k. rewrite lookup_insert_ne; [done|].
        intros <-. congruence.
    + intros [k Hk]. apply lookup_insert_Some in Hk as [[_ <-]|[Hk_ne Hk]].
      * apply elem_of_app. right. by left.
      * assert (x ≠ existing) as Hxe.
        { intros ->. apply Hk_ne. by apply Hkeyed. }
        assert (x ∈ (take index l ++ existing :: drop (S index) l)%list) as Hx
          by (apply Hl; eauto).
        apply elem_of_app in Hx as [Hx|Hx]; apply elem_of_app; [by left|right].
        apply elem_of_cons in Hx as [->|Hx]; [done|by right].
Qed.

(** A list that mirrors a store, with the record of one id removed from
    both. *)
Lemma mirrored_remove (store : gmap string Connection) (l : list Connection) (id : string) :
  DB.store_keyed store →
  NoDup l →
  (∀ x, x ∈ l ↔ ∃ k, store !! k = Some x) →
  NoDup (filter (λ c, conn_id c ≠ id) l)
  ∧ ∀ x, x ∈ filter (λ c, conn_id c ≠ id) l ↔ ∃ k, delete id store !! k = Some x.
Proof.
  intros Hkeyed Hnd Hl. split; [by apply NoDup_filter|].
  intros x. rewrite list_elem_of_filter, Hl. split.
  - intros [Hne [k Hk]]. exists k. apply lookup_delete_Some. split; [|done].
    intros ->. apply Hne. by apply Hkeyed.
  - intros [k Hk]. apply lookup_delete_Some in Hk as [Hne Hk]. split; [|eauto].
    by rewrite (Hkeyed _ _ Hk).
Qed.

Lemma keeps_mirror_preorder : PreOrder keeps_mirror.
Proof.
  split.
  - intros w Hw. exact Hw.
  - intros a b c Hab Hbc Ha. apply Hbc, Hab, Ha.
Qed.

(** A step that leaves the connections store and the list as they are. *)
Lemma keeps_mirror_step {A : Type} (m : M A) :
  (∀ w, store_connections (db (m w).2) = store_connections (db w)
        ∧ connections (state (m w).2) = connections (state w)) →
  preserves keeps_mirror m.
Proof.
  intros Hm w. unfold keeps_mirror, store_sound, connections_mirrored.
  destruct (Hm w) as [-> ->]. done.
Qed.

Lemma transaction_read_keeps_mirror {A : Type} (callback : DBState → res (A * DBState)) :
  (∀ d a d', callback d = Ok (a, d') → store_connections d' = store_connections d) →
  preserves keeps_mirror (DB.transaction callback).
Proof.
  intros Hc. apply keeps_mirror_step. intros w. unfold DB.transaction.
  destruct (db_open _); [|done].
  destruct (callback _) as [[a d']|e] eqn:Hcb; [|done].
  split; [|done]. cbn. eauto.
Qed.

Lemma getAllConnections_keeps_mirror : preserves keeps_mirror DB.getAllConnections.
Proof. apply transaction_read_keeps_mirror. intros d a d'. by intros [= _ <-]. Qed.

Lemma removeConnection_keeps_mirror id : preserves keeps_mirror (App.removeConnection id).
Proof.
  intros w [Hs [Hnd Hl]]. split; [by apply removeConnection_keeps_store_sound|].
  destruct (db_open (db w)) eqn:Hopen.
  - rewrite removeConnection_run by done. cbn [snd].
    by apply mirrored_remove; [apply Hs| |].
  - unfold App.removeConnection.
    match goal with |- context [try_catch ?b _ w] =>
      pose proof (rethrown b "Removing connection failed:" w) as [Hdb Hstate] end.
    unfold connections_mirrored. rewrite Hdb, Hstate.
    unfold bind, DB.deleteConnection, DB.transaction. rewrite Hopen. done.
Qed.

End mirror.

#[global] Existing Instance keeps_mirror_preorder.
#[global] Hint Resolve getAllConnections_keeps_mirror removeConnection_keeps_mirror : frame.
#[global] Hint Extern 2 (preserves keeps_mirror _) =>
  solve [apply keeps_mirror_step; intros ?; by cbn] : frame.

Section mirror_ops.
Context `{CryptoJS} `{JSON} `{DateLib}.

Lemma cleanupExpiredConnections_keeps_mirror :
  preserves keeps_mirror App.cleanupExpiredConnections.
Proof. unfold App.cleanupExpiredConnections, DB.getExpiredConnections. frame. Qed.

(** [loadConnections] sets the list to the records of the store. *)
Lemma loadConnections_mirrors (w : World) :
  store_sound w → connections_mirrored w → connections_mirrored (App.loadConnections w).2.
Proof.
  intros Hs Hm. unfold App.loadConnections.
  match goal with |- context [try_catch ?b _ w] =>
    pose proof (rethrown b "Loading connections failed:" w) as [Hdb Hstate] end.
  unfold connections_mirrored. rewrite Hdb, Hstate.
  unfold bind, DB.getAllConnections, DB.transaction.
  destruct (db_open (db w)); [|exact Hm]. cbn. split.
  - unfold DB.by_key. apply NoDup_fmap_2_strong.
    + intros [k1 c1] [k2 c2] Hin1 Hin2 Heq. cbn in Heq. subst c2.
      rewrite merge_sort_Permutation in Hin1, Hin2.
      apply elem_of_map_to_list in Hin1, Hin2.
      destruct Hs as [Hkeyed _].
      by rewrite <- (Hkeyed _ _ Hin1), <- (Hkeyed _ _ Hin2).
    + rewrite merge_sort_Permutation. apply NoDup_map_to_list.
  - intros c. apply elem_of_by_key.
Qed.

(** X21: the list of connections the screens draw from mirrors the
    store.  When the connections store is sound and [state.connections]
    lists every stored connection once and nothing else, it still does
    after [addConnection] (for a uuid that is no stored id),
    [removeConnection], [cleanupExpiredConnections] and
    [loadConnections], whatever they are given and whether they return or
    throw. *)
Theorem connections_list_mirrors_store (w : World) :
  store_sound w →
  connections_mirrored w →
  (∀ cd, store_connections (db w) !! uuid_v4 (env w) (n_uuid (draws w)) = None →
         connections_mirrored (App.addConnection cd w).2)
  ∧ (∀ id, connections_mirrored (App.removeConnection id w).2)
  ∧ connections_mirrored (App.cleanupExpiredConnections w).2
  ∧ connections_mirrored (App.loadConnections w).2.
Proof.
  intros Hs Hm. split; [|split; [|split]].
  - intros cd Hfresh. destruct Hs as [Hkeyed Hunique]. destruct Hm as [Hnd Hl].
    destruct (addConnection_outcome w cd (conj Hkeyed Hunique))
      as [[Hstore Hlist]|[(created & Hid & Hstore & Hlist)
                         |(existing & updated & Hstored & Hid & Hne & Hstore & Hlist)]];
      unfold connections_mirrored; rewrite Hstore, Hlist.
    + done.
    + apply mirrored_push; [done..|]. by rewrite Hid.
    + by apply mirrored_replace.
  - intros id. by apply removeConnection_keeps_mirror.
  - by apply cleanupExpiredConnections_keeps_mirror.
  - by apply loadConnections_mirrors.
Qed.

End mirror_ops.

(** ** No handler lets an error escape *)

Section ready.
Context `{CryptoJS}.

Lemma keeps_answer_ready_preorder : PreOrder keeps_answer_ready.
Proof.
  split.
  - intros w Hw. exact Hw.
  - intros a b c Hab Hbc Ha. apply Hbc, Hab, Ha.
Qed.

Lemma keeps_unanswered_preorder : PreOrder keeps_unanswered.
Proof.
  split.
  - intros w Hw. exact Hw.
  - intros a b c Hab Hbc Ha. apply Hbc, Hab, Ha.
Qed.

Lemma any_world_preorder : PreOrder any_world.
Proof. by split. Qed.

Lemma preserves_any_world {A : Type} (m : M A) : preserves any_world m.
Proof. by intros w. Qed.

Lemma returns_any_world (P : World → World → Prop) {A : Type} (m : M A) :
  returns P m → returns any_world m.
Proof. intros Hm w. destruct (Hm w) as (a & w' & -> & _). by exists a, w'. Qed.

(** A step that leaves the stage and the payload as they are. *)
Lemma keeps_answer_ready_step {A : Type} (m : M A) :
  (∀ w, connectionStage (connect (m w).2) = connectionStage (connect w)
        ∧ connectionData (connect (m w).2) = connectionData (connect w)) →
  preserves keeps_answer_ready m.
Proof.
  intros Hm w Hw. unfold answer_ready. destruct (Hm w) as [-> ->]. exact Hw.
Qed.

Lemma keeps_unanswered_step {A : Type} (m : M A) :
  (∀ w, connectionStage (connect (m w).2) = connectionStage (connect w)) →
  preserves keeps_unanswered m.
Proof. intros Hm w Hw. by rewrite Hm. Qed.

(** A step that ends in a stage other than ANSWER_CREATED. *)
Lemma unanswered_ready (w : World) :
  connectionStage (connect w) ≠ ANSWER_CREATED → answer_ready w.
Proof. intros Hne Heq. done. Qed.

Lemma set_stage_keeps_answer_ready (s : Stage) :
  s ≠ ANSWER_CREATED → preserves keeps_answer_ready (set_stage s).
Proof. intros Hs w _. by apply unanswered_ready. Qed.

Lemma set_stage_keeps_unanswered (s : Stage) :
  s ≠ ANSWER_CREATED → preserves keeps_unanswered (set_stage s).
Proof. intros Hs w _. done. Qed.

Lemma transaction_keeps_answer_ready {A : Type} (callback : DBState → res (A * DBState)) :
  preserves keeps_answer_ready (DB.transaction callback).
Proof.
  apply keeps_answer_ready_step. intros w. unfold DB.transaction.
  destruct (db_open _); [|done]. by destruct (callback _) as [[a d']|e].
Qed.

Lemma sendData_keeps_answer_ready d : preserves keeps_answer_ready (WebRTC.sendData d).
Proof.
  apply keeps_answer_ready_step. intros w. unfold WebRTC.sendData.
  destruct (channel_open _ _); [destruct (send_succeeds _ _)|]; done.
Qed.

Lemma sendData_keeps_unanswered d : preserves keeps_unanswered (WebRTC.sendData d).
Proof.
  apply keeps_unanswered_step. intros w. unfold WebRTC.sendData.
  destruct (channel_open _ _); [destruct (send_succeeds _ _)|]; done.
Qed.


End ready.

#[global] Existing Instance keeps_answer_ready_preorder.
#[global] Existing Instance keeps_unanswered_preorder.
#[global] Existing Instance any_world_preorder.
#[global] Hint Resolve transaction_keeps_answer_ready sendData_keeps_answer_ready
  sendData_keeps_unanswered : frame.
#[global] Hint Extern 2 (preserves keeps_answer_ready (set_stage _)) =>
  solve [apply set_stage_keeps_answer_ready; done] : frame.
#[global] Hint Extern 2 (preserves keeps_unanswered (set_stage _)) =>
  solve [apply set_stage_keeps_unanswered; done] : frame.
#[global] Hint Extern 3 (preserves keeps_answer_ready _) =>
  solve [apply keeps_answer_ready_step; intros ?; by cbn] : frame.
#[global] Hint Extern 3 (preserves keeps_unanswered _) =>
  solve [apply keeps_unanswered_step; intros ?; by cbn] : frame.

Section ready_handlers.
Context `{CryptoJS} `{JSON} `{DateLib}.

Lemma handleDataExchange_keeps_unanswered : preserves keeps_unanswered Connect.handleDataExchange.
Proof. unfold Connect.handleDataExchange. frame. Qed.


Lemma handleConnectionStateChange_keeps_unanswered s :
  preserves keeps_unanswered (Connect.handleConnectionStateChange s).
Proof.
  pose proof handleDataExchange_keeps_unanswered.
  unfold Connect.handleConnectionStateChange. frame.
Qed.





















End ready_handlers.

(** One step on a goal [returns any_world m]. *)
Ltac settle_step :=
  first
    [ solve [eauto 3 with settle]
    | apply returns_ret; solve [typeclasses eauto]
    | apply returns_get_world; solve [typeclasses eauto]
    | apply returns_modify; try solve [typeclasses eauto]; intros ?; exact I
    | apply returns_bind; try solve [typeclasses eauto]; [|intros ?]
    | apply returns_try_catch; try solve [typeclasses eauto];
        [apply preserves_any_world|intros ?]
    | apply returns_for_of; try solve [typeclasses eauto]; intros ?
    | match goal with
      | |- returns _ (if ?x then _ else _) => destruct x
      | |- returns _ (match ?x with _ => _ end) => destruct x
      | |- returns _ (?f _ _ _) => unfold f
      | |- returns _ (?f _ _) => unfold f
      | |- returns _ (?f _) => unfold f
      | |- returns _ ?f => unfold f
      end ].

Ltac settle := repeat settle_step.

Create HintDb settle.

Section settled.
Context `{CryptoJS} `{JSON} `{DateLib}.

Lemma sendData_returns d : returns any_world (WebRTC.sendData d).
Proof. apply (returns_any_world same_app), sendData_same_app. Qed.

Lemma new_Date_returns : returns any_world new_Date.
Proof. apply (returns_any_world same_app), new_Date_same_app. Qed.

Lemma get_stage_returns : returns any_world get_stage.
Proof. intros w. by eexists _, _. Qed.

Lemma resetConnectionState_returns : returns any_world Connect.resetConnectionState.
Proof. intros w. destruct (resetConnectionState_run w) as (w' & -> & _). by eexists _, _. Qed.

Hint Resolve sendData_returns new_Date_returns get_stage_returns
  resetConnectionState_returns : settle.

Lemma handleDataExchange_settles : returns any_world Connect.handleDataExchange.
Proof. unfold Connect.handleDataExchange. settle. Qed.

Hint Resolve handleDataExchange_settles : settle.





End settled.

(** ** The code run on the concrete installation *)

Section reference_laws.
Import Reference.

Lemma symbolic_correct : AES_correct.
Proof. intros salt m k. cbn. by rewrite String.eqb_refl. Qed.

Lemma symbolic_keyed : AES_keyed.
Proof.
  intros salt m k k' Hne. cbn.
  destruct (k' =? k) eqn:Heq; [|done].
  apply String.eqb_eq in Heq. congruence.
Qed.

Lemma symbolic_garbles : AES_wrong_key_garbles.
Proof.
  intros salt m k k' s Hne. cbn.
  destruct (k' =? k) eqn:Heq; [|done].
  apply String.eqb_eq in Heq. congruence.
Qed.

Lemma bob_store_keyed : DB.store_keyed (store_connections (db Example.world)).
Proof. intros k c Hk. cbn in Hk. by apply lookup_singleton_Some in Hk as [<- <-]. Qed.

Lemma bob_store_unique : DB.did_unique (store_connections (db Example.world)).
Proof.
  intros k1 k2 c1 c2 H1 H2 _. cbn in H1, H2.
  apply lookup_singleton_Some in H1 as [<- _].
  by apply lookup_singleton_Some in H2 as [<- _].
Qed.

Lemma symbolic_hmac_keyed : Hmac_keyed.
Proof.
  intros m k k' Hne Heq. cbn in Heq.
  apply append_cancel_l, append_cancel_l, append_cancel_l in Heq. done.
Qed.


Lemma carol_is_new : DB.did_free Example.carol_expired (store_connections (db Example.world)).
Proof.
  intros k c Hk. cbn in Hk. by apply lookup_singleton_Some in Hk as [<- <-].
Qed.

Lemma bob_mirrored : connections_mirrored Example.world.
Proof.
  split; [apply NoDup_singleton|].
  intros c. cbn. rewrite list_elem_of_singleton. split.
  - intros ->. exists "c-bob". reflexivity.
  - intros [k Hk]. by apply lookup_singleton_Some in Hk as [_ <-].
Qed.

End reference_laws.

Section runs.
Import Reference Example.

(** C1 at a generated pair: the private key does not open what the public
    key sealed. *)
Lemma keypair_roundtrip_fails_witness :
  Crypto.decryptMessage
    (Some (Crypto.encryptMessage "salt-0" "hello"
             (kp_publicKey (Crypto.generateKeyPair "a11ce"))))
    (kp_privateKey (Crypto.generateKeyPair "a11ce")) ≠ Ok (Some "hello").
Proof.
  apply (keypair_roundtrip_fails "a11ce" "salt-0" "hello"); [exact symbolic_keyed|].
  discriminate.
Defined.

(** There the call returns [null]. *)
Example decryptMessage_of_keypair :
  Crypto.decryptMessage
    (Some (Crypto.encryptMessage "salt-0" "hello"
             (kp_publicKey (Crypto.generateKeyPair "a11ce"))))
    (kp_privateKey (Crypto.generateKeyPair "a11ce")) = Ok None.
Proof. reflexivity. Qed.

(** C9 at Alice's identity. *)
Lemma importIdentity_exportIdentity_witness :
  Crypto.importIdentity (Crypto.exportIdentity "salt-0" alice_identity "CurrentCircle")
                        "CurrentCircle"
    = Ok (Crypto.identity_json alice_identity)
  ∧ Crypto.read_identity (Crypto.identity_json alice_identity) = Some alice_identity
  ∧ (∀ wrong, wrong ≠ "CurrentCircle" →
       Crypto.importIdentity (Crypto.exportIdentity "salt-0" alice_identity "CurrentCircle")
                             wrong = Ok JNull)
  ∧ (∀ c p, ∃ v, Crypto.importIdentity c p = Ok v).
Proof.
  apply (importIdentity_exportIdentity alice_identity "CurrentCircle" "salt-0").
  - exact symbolic_correct.
  - exact symbolic_garbles.
  - vm_compute. reflexivity.
Defined.

(** C10 at Bob's second handshake. *)
Lemma updateExistingConnection_frame_witness :
  ∃ updated w',
    App.updateExistingConnection bob bob_again world = (Ok updated, w')
    ∧ store_connections (db w') !! conn_id bob = Some updated
    ∧ conn_id updated = conn_id bob
    ∧ conn_did updated = conn_did bob
    ∧ conn_firstConnected updated = conn_firstConnected bob
    ∧ (Js.truthy_str (cd_profilePicture bob_again) = false →
       conn_profilePicture updated = conn_profilePicture bob).
Proof.
  apply (updateExistingConnection_frame world bob bob_again alice alice_identity
           {| peer_firstName := Some "Robert"; peer_lastName := Some "";
              peer_nickname := None; peer_bio := Some "new bio" |});
    try reflexivity.
  apply (did_free_stored _ "c-bob"); [exact bob_store_keyed|exact bob_store_unique|reflexivity].
Defined.



(** C2 at Alice's device: an answer that repeats her did, and one that
    names another. *)
Lemma handleConnectionAnswer_checks_did_witness :
  (∃ w', Connect.handleConnectionAnswer (JObj (answer_of "did:cc:mallory")) world = (Ok tt, w')
     ∧ connectionStage (connect w') = FAILED
     ∧ stage_history (connect w') = [INIT; OFFER_CREATED; FAILED])
  ∧ (∃ w' later,
       Connect.handleConnectionAnswer (JObj (answer_of "did:cc:alice")) world = (Ok tt, w')
       ∧ stage_history (connect w')
         = ([INIT; OFFER_CREATED] ++ ANSWER_SCANNED :: CONNECTED :: later)%list).
Proof.
  split.
  - destruct (handleConnectionAnswer_checks_did world alice_offer
                (answer_of "did:cc:mallory") eq_refl) as [Hmismatch _].
    destruct (Hmismatch eq_refl) as (w' & Hrun & Hstage & Hhist & _).
    exists w'. split; [exact Hrun|]. split; [exact Hstage|exact Hhist].
  - destruct (handleConnectionAnswer_checks_did world alice_offer
                (answer_of "did:cc:alice") eq_refl) as [_ Hmatch].
    apply (Hmatch eq_refl (JObj [("type", JStr "answer"); ("sdp", JStr "v=0")]));
      [reflexivity|discriminate|reflexivity|reflexivity].
Defined.

(** C3 at Alice's device answering Bob: the session sends Bob the relay
    held for him, and afterwards the relay is still stored. *)
Example session_with_bob_keeps_his_relay :
  let w' := (Connect.session from_bob_device world_answering).2 in
  DRelays [relay_for_bob] 1762108020126 ∈ sent (rtc w')
  ∧ store_relays (db w') !! "r-1" = Some relay_for_bob
  ∧ messages_relays (state w') = [relay_for_bob; relay_for_carol]
  ∧ stage_history (connect w')
    = [INIT; SCANNING; OFFER_SCANNED; ANSWER_CREATED; CONNECTED;
       EXCHANGING; COMPLETE; INIT; FAILED].
Proof.
  vm_compute. repeat split. do 3 right. left.
Qed.


Example relay_received_twice :
  msg_id <$> messages_received
    (state (App.processReceivedData (App.relays_only [inbound_relay; inbound_relay]) world).2)
  = ["r-7"; "r-7"].
Proof. vm_compute. reflexivity. Qed.



(** C7 at Alice's device: an onboarding address, and a payload of
    another type. *)
Lemma processScannedCode_dispatch_witness :
  (∃ w', Connect.processScannedCode onboarding_url world = (Ok tt, w')
     ∧ location_href (ui w') = Some onboarding_url
     ∧ connectionStage (connect w') = OFFER_CREATED)
  ∧ (∃ w', Connect.processScannedCode code_of_other_type world = (Ok tt, w')
       ∧ connectionStage (connect w') = FAILED
       ∧ console_errors (ui w')
         = [("QR code processing failed:", Err "Unsupported QR code type")]).
Proof.
  split.
  - destruct (processScannedCode_dispatch onboarding_url world) as (Hurl & _).
    destruct (Hurl SyntaxError eq_refl eq_refl) as (w' & Hrun & Hhref & Hstage & _).
    exists w'. split; [exact Hrun|]. split; [exact Hhref|exact Hstage].
  - destruct (processScannedCode_dispatch code_of_other_type world) as (_ & Hother & _).
    destruct (Hother (JObj [("type", JStr "profile"); ("did", JStr "did:cc:bob")])
                (Some (JStr "profile")) eq_refl eq_refl eq_refl eq_refl)
      as (w' & Hrun & Hstage & Herr & _).
    exists w'. split; [exact Hrun|]. split; [exact Hstage|exact Herr].
Defined.


(** A first handshake with Carol at Alice's device. *)
Lemma addConnection_first_witness :
  ∃ created w',
    App.addConnection carol_first world = (Ok created, w')
    ∧ conn_id created = "uuid-0"
    ∧ store_connections (db w') !! "uuid-0" = Some created
    ∧ conn_did created = "did:cc:carol"
    ∧ conn_connectionCount created = 1%Z
    ∧ conn_expiresOn created = 1793644020123%Z
    ∧ conn_firstConnected created = 1762108020124%Z
    ∧ conn_lastConnected created = 1762108020125%Z.
Proof.
  destruct (addConnection_first world carol_first "did:cc:carol" alice alice_identity
              {| peer_firstName := Some "Carol"; peer_lastName := Some "King";
                 peer_nickname := Some ""; peer_bio := Some "" |})
    as (created & w' & Hrun & Hid & Hstore & _ & Hdid & Hcount & Hexp & Hfirst & Hlast & _);
    try reflexivity.
  { intros k c Hk. cbn in Hk. by apply lookup_singleton_Some in Hk as [_ <-]. }
  exists created, w'.
  split; [exact Hrun|]. split; [exact Hid|].
  split; [by rewrite Hstore, Hid, lookup_insert_eq|].
  split; [exact Hdid|]. split; [exact Hcount|].
  split; [exact Hexp|]. split; [exact Hfirst|exact Hlast].
Defined.

(** A batch processed twice at Alice's device. *)
Lemma processReceivedMessages_idempotent_witness :
  ∃ w',
    App.processReceivedMessages [garbled; from_bob] world = (Ok 2, w')
    ∧ App.processReceivedMessages [garbled; from_bob] w' = (Ok 2, w')
    ∧ (NoDup (msg_id <$> messages_received (state world)) →
       NoDup (msg_id <$> messages_received (state w'))).
Proof.
  apply (processReceivedMessages_idempotent [garbled; from_bob] world alice_identity);
    reflexivity.
Defined.

Lemma relays_listed_are_stored :
  ∀ r, r ∈ messages_relays (state world) → store_relays (db world) !! relay_id r = Some r.
Proof.
  intros r Hr. cbn in Hr.
  apply elem_of_cons in Hr as [->|Hr]; [reflexivity|].
  apply elem_of_cons in Hr as [->|Hr]; [reflexivity|].
  by apply elem_of_nil in Hr.
Qed.

Lemma relays_stored_are_listed :
  ∀ k r, store_relays (db world) !! k = Some r →
         relay_id r = k ∧ r ∈ messages_relays (state world).
Proof.
  intros k r Hk. cbn in Hk.
  apply lookup_insert_Some in Hk as [[<- <-]|[_ Hk]].
  - split; [reflexivity|]. cbn. by left.
  - apply lookup_singleton_Some in Hk as [<- <-].
    split; [reflexivity|]. cbn. right. by left.
Qed.

(** The relays held for Bob, delivered at Alice's device: his relay goes,
    Carol's stays. *)
Lemma processRelaysForConnection_delivers_witness :
  ∃ delivered w',
    App.processRelaysForConnection bob world = (Ok delivered, w')
    ∧ store_relays (db w') !! "r-1" = None
    ∧ store_relays (db w') !! "r-2" = Some relay_for_carol
    ∧ messages_relays (state w') = [relay_for_carol]
    ∧ List.length delivered = 1.
Proof.
  destruct (processRelaysForConnection_delivers world bob eq_refl
              relays_listed_are_stored relays_stored_are_listed)
    as (delivered & w' & Hrun & Hstore & Hlist & Hlen).
  exists delivered, w'. split; [exact Hrun|].
  split; [|split; [|split; [exact Hlist|exact Hlen]]].
  - destruct (store_relays (db w') !! "r-1") as [r|] eqn:Hr; [|reflexivity].
    apply Hstore in Hr as [Hr Htarget]. cbn in Hr.
    rewrite lookup_insert_eq in Hr. injection Hr as <-. by destruct Htarget.
  - apply Hstore. split; [reflexivity|discriminate].
Defined.

(** The reset after a session, as it runs at Alice's device. *)
Example reset_at_alice :
  stage_history (connect (Connect.resetConnectionState world).2)
  = [INIT; OFFER_CREATED; INIT; FAILED].
Proof. reflexivity. Qed.

(** Alice has shown her offer and receives Bob's profile message: the
    record the session commits has her own did and Bob's names. *)
Lemma completeConnection_records_payload_witness :
  let w1 := (Connect.processReceivedProfile bob_profile_message None world).2 in
  let w2 := (Connect.completeConnection w1).2 in
  ∃ created,
    store_connections (db w2)
      = <[conn_id created := created]> (store_connections (db world))
    ∧ conn_did created = "did:cc:alice"
    ∧ conn_publicKey created = Some "sha256:a11ce"
    ∧ conn_firstName created = Some "Bob"
    ∧ conn_lastName created = Some "Jones".
Proof.
  intros w1 w2.
  destruct (completeConnection_records_payload world alice_offer "did:cc:alice"
              bob_profile_message None alice alice_identity)
    as (created & Hstore & Hdid & Hpk & Hfirst & Hlast & _); try reflexivity.
  { intros k c Hk. cbn in Hk. by apply lookup_singleton_Some in Hk as [_ <-]. }
  exists created.
  split; [exact Hstore|]. split; [exact Hdid|]. split; [exact Hpk|].
  split; [exact Hfirst|exact Hlast].
Defined.

(** The whole session on the side that showed the offer: Alice scans
    Bob's answer and handles what his device sends; her connections are
    then Bob's old record and a new record with her own did. *)
Example offerer_session :
  let w1 := (Connect.handleConnectionAnswer (JObj (answer_of "did:cc:alice")) world).2 in
  let w2 := (App.for_of from_bob_device Connect.handleDataReceived w1).2 in
  (λ c, (conn_did c, conn_firstName c)) <$> connections (state w2)
  = [("did:cc:bob", Some "Bob"); ("did:cc:alice", Some "Bob")].
Proof. vm_compute. reflexivity. Qed.


(** The store at Alice's device after a second handshake, a removal and
    a completed session. *)
Lemma connections_store_stays_sound_witness :
  store_sound (App.addConnection bob_again world).2
  ∧ store_sound (App.removeConnection "c-bob" world).2
  ∧ store_sound (App.for_of [Connect.DataReceived (DComplete 1762108023000)] Connect.call world).2.
Proof.
  destruct (connections_store_stays_sound world (conj bob_store_keyed bob_store_unique))
    as (Hadd & Hrem & _ & _ & _ & Hcalls).
  split; [apply Hadd|]. split; [apply Hrem|apply Hcalls].
Defined.

(** A message for an id Alice's device does not hold. *)
Lemma createMessage_unknown_recipient_witness :
  ∃ w', App.createMessage note_for_nobody world = (Throw (Err "Recipient not found"), w')
    ∧ db w' = db world
    ∧ state w' = state world.
Proof.
  destruct (createMessage_unknown_recipient world note_for_nobody eq_refl eq_refl)
    as (w' & Hrun & Hdb & Hstate & _).
  exists w'. split; [exact Hrun|]. split; [exact Hdb|exact Hstate].
Defined.

(** A message for Bob to be relayed, composed at Alice's device. *)
Lemma createMessage_creates_witness :
  ∃ message w',
    App.createMessage note_for_bob world = (Ok message, w')
    ∧ msg_id message = "uuid-0"
    ∧ msg_recipientId message = Some "did:cc:bob"
    ∧ msg_encrypted message = Some (Sealed "salt-0" "see you soon" "pk-bob")
    ∧ store_messages (db w') !! "uuid-0" = Some message
    ∧ (∃ relay, store_relays (db w') !! "uuid-1" = Some relay
                ∧ relay_targetRecipientId relay = "did:cc:bob").
Proof.
  destruct (createMessage_creates world note_for_bob bob alice_identity alice "pk-bob"
              eq_refl eq_refl eq_refl eq_refl eq_refl)
    as (message & w' & Hrun & Hid & _ & Hto & _ & Henc & _ & Hstored & _ & _ & Hrelay).
  destruct (Hrelay eq_refl) as (relay & Hrelays & _ & Hrid & _ & Htarget & _).
  exists message, w'. split; [exact Hrun|]. split; [exact Hid|]. split; [exact Hto|].
  assert (msg_id message = "uuid-0") as Hid' by exact Hid.
  assert (relay_id relay = "uuid-1") as Hrid' by exact Hrid.
  split; [exact Henc|]. split; [rewrite <- Hid'; exact Hstored|].
  exists relay. split; [|exact Htarget].
  rewrite Hrelays, Hrid'. apply lookup_insert_eq.
Defined.

(** The relay of that message, delivered when Bob connects. *)
Lemma relay_created_then_delivered_witness :
  ∃ message relay w1 delivered w2,
    App.createMessage note_for_bob world = (Ok message, w1)
    ∧ store_relays (db w1) !! relay_id relay = Some relay
    ∧ App.processRelaysForConnection bob w1 = (Ok delivered, w2)
    ∧ (∃ d, d ∈ delivered ∧ msg_encrypted d = msg_encrypted message)
    ∧ store_relays (db w2) !! relay_id relay = None
    ∧ store_messages (db w2) !! msg_id message = Some message.
Proof.
  destruct (relay_created_then_delivered world note_for_bob bob alice_identity alice "pk-bob"
              eq_refl eq_refl eq_refl eq_refl eq_refl eq_refl
              (conj relays_listed_are_stored relays_stored_are_listed) eq_refl)
    as (message & relay & w1 & delivered & w2 & Hrun & _ & Hrelay & _ & _ & Hdeliver
        & (d & Hd & _ & Henc) & Hgone & _ & _ & Hkept).
  exists message, relay, w1, delivered, w2.
  split; [exact Hrun|]. split; [exact Hrelay|]. split; [exact Hdeliver|].
  split; [exists d; split; [exact Hd|exact Henc]|]. split; [exact Hgone|exact Hkept].
Defined.

(** Carol's record written to Alice's store, read back and deleted. *)
Lemma saveConnection_round_trip_witness :
  ∃ w1 w2,
    DB.saveConnection carol_expired world = (Ok tt, w1)
    ∧ DB.getConnection "c-carol" w1 = (Ok (Some carol_expired), w1)
    ∧ DB.getConnectionByDID (Some "did:cc:carol") w1 = (Ok (Some carol_expired), w1)
    ∧ DB.deleteConnection "c-carol" w1 = (Ok tt, w2)
    ∧ DB.getConnection "c-carol" w2 = (Ok None, w2).
Proof.
  destruct (saveConnection_round_trip world carol_expired eq_refl
              (conj bob_store_keyed bob_store_unique)) as [Hfree _].
  destruct (Hfree carol_is_new) as (w1 & w2 & Hsave & Hget & Hdid & _ & Hdel & Hgone & _).
  exists w1, w2. split; [exact Hsave|]. split; [exact Hget|]. split; [exact Hdid|].
  split; [exact Hdel|exact Hgone].
Defined.

(** The state of Alice's device loaded from its database. *)
Lemma load_mirrors_store_witness :
  (∃ w', App.loadConnections world = (Ok (connections (state w')), w')
     ∧ bob ∈ connections (state w'))
  ∧ (∃ w', App.loadMessages world
           = (Ok (messages_received (state w'), messages_sent (state w'),
                  messages_relays (state w')), w')
       ∧ relay_for_carol ∈ messages_relays (state w')).
Proof.
  destruct (load_mirrors_store world eq_refl) as ((w1 & Hrun1 & Hlist & _) & Hmessages & _).
  destruct (Hmessages alice_identity eq_refl) as (w2 & Hrun2 & _ & _ & Hrelays & _).
  split.
  - exists w1. split; [exact Hrun1|]. apply Hlist. exists "c-bob". reflexivity.
  - exists w2. split; [exact Hrun2|]. apply Hrelays. exists "r-2". reflexivity.
Defined.

(** A backup of Alice's profile, opened with each of her keys. *)
Lemma backup_opens_with_public_key_witness :
  Crypto.decryptBackupData
    (Some (Crypto.createBackupData 1762108020123 "salt-0" alice alice_identity))
    (publicKey alice_identity)
  = Ok (Crypto.backup_json alice alice_identity 1762108020123)
  ∧ Crypto.decryptBackupData
      (Some (Crypto.createBackupData 1762108020123 "salt-0" alice alice_identity))
      (privateKey alice_identity)
    = Ok JNull.
Proof.
  destruct (backup_opens_with_public_key alice alice_identity 1762108020123 "salt-0"
              symbolic_correct symbolic_garbles) as (Hpub & Hpriv & _).
  - vm_compute. reflexivity.
  - vm_compute. reflexivity.
  - discriminate.
  - split; [exact Hpub|exact Hpriv].
Defined.

(** A challenge signed with each key of a generated pair. *)
Lemma verifyDID_rejects_private_key_signature_witness :
  Crypto.verifyDID "did:cc:alice" (kp_publicKey (Crypto.generateKeyPair "a11ce")) "challenge-1"
    (Crypto.signChallenge "challenge-1" (kp_privateKey (Crypto.generateKeyPair "a11ce")))
  = false
  ∧ Crypto.verifyDID "did:cc:mallory" (kp_publicKey (Crypto.generateKeyPair "a11ce"))
      "challenge-1"
      (Crypto.signChallenge "challenge-1" (kp_publicKey (Crypto.generateKeyPair "a11ce")))
    = true.
Proof.
  destruct (verifyDID_rejects_private_key_signature "a11ce" "challenge-1" symbolic_hmac_keyed)
    as (Hpriv & Hpub).
  - discriminate.
  - split; [apply Hpriv|apply Hpub].
Defined.

(** Alice's onboarding code scanned at her own device. *)
Lemma onboarding_code_is_followed_witness :
  ∃ w', Connect.processScannedCode
          (Crypto.createOnboardingQRData "https://currentcircle.example" alice alice_identity)
          world = (Ok tt, w')
    ∧ location_href (ui w')
      = Some (Crypto.createOnboardingQRData "https://currentcircle.example" alice alice_identity)
    ∧ stage_history (connect w') = stage_history (connect world)
    ∧ alerts (ui w') = [].
Proof.
  destruct (JSON_parse
              (Crypto.createOnboardingQRData "https://currentcircle.example" alice alice_identity))
    as [v|e] eqn:Hparse.
  - vm_compute in Hparse. discriminate Hparse.
  - destruct (onboarding_code_is_followed world "https://currentcircle.example" alice
                alice_identity e eq_refl Hparse)
      as (w' & Hrun & Hhref & _ & Hhist & _ & Halerts).
    exists w'. split; [exact Hrun|]. split; [exact Hhref|]. split; [exact Hhist|exact Halerts].
Defined.


(** Alice's device and Bob's through a whole handshake. *)
Lemma handshake_reaches_exchange_witness :
  ∃ wa1 wb1 wb2 wa2 wa3 wb3,
    Connect.generateQRCode offering world = (Ok tt, wa1)
    ∧ Connect.processScannedCode (Connect.connection_qr_value wa1) bob_device = (Ok tt, wb1)
    ∧ Connect.handleConnectionConfirmation answering true wb1 = (Ok tt, wb2)
    ∧ (∃ code, Connect.answer_qr_value wb2 = Some code
               ∧ Connect.processScannedCode code wa1 = (Ok tt, wa2))
    ∧ Connect.handleConnectionStateChange "connected" wa2 = (Ok tt, wa3)
    ∧ Connect.handleConnectionStateChange "connected" wb2 = (Ok tt, wb3)
    ∧ stage_history (connect wa3)
      = [INIT; OFFER_CREATED; INIT; OFFER_CREATED; ANSWER_SCANNED; CONNECTED; EXCHANGING;
         CONNECTED; EXCHANGING]
    ∧ stage_history (connect wb3)
      = [INIT; SCANNING; OFFER_SCANNED; ANSWER_CREATED; CONNECTED; EXCHANGING].
Proof.
  destruct (handshake_reaches_exchange world bob_device alice bob_profile offering answering
              "offer" "v=0 a" "answer" "v=0 b"
              eq_refl eq_refl eq_refl eq_refl eq_refl eq_refl)
    as (wa1 & wb1 & wb2 & wa2 & wa3 & wb3 & Ha1 & Hb1 & Hb2 & Hcode & Ha2 & Ha3 & Hb3
        & Hha & Hhb & _).
  - vm_compute. discriminate.
  - vm_compute. reflexivity.
  - vm_compute. reflexivity.
  - exists wa1, wb1, wb2, wa2, wa3, wb3.
    split; [exact Ha1|]. split; [exact Hb1|]. split; [exact Hb2|].
    split; [eexists; split; [exact Hcode|exact Ha2]|].
    split; [exact Ha3|]. split; [exact Hb3|]. split; [exact Hha|exact Hhb].
Defined.

(** The list at Alice's device after a first handshake with Carol, a
    second one with Bob, and the removal of Bob. *)
Lemma connections_list_mirrors_store_witness :
  connections_mirrored (App.addConnection carol_first world).2
  ∧ connections_mirrored (App.addConnection bob_again world).2
  ∧ connections_mirrored (App.removeConnection "c-bob" world).2.
Proof.
  destruct (connections_list_mirrors_store world (conj bob_store_keyed bob_store_unique)
              bob_mirrored) as (Hadd & Hremove & _).
  split; [apply Hadd; reflexivity|]. split; [apply Hadd; reflexivity|apply Hremove].
Defined.

End runs.
